(** * Tabuada com repetição espaçada: question generator, play loop and review set

    A shallow embedding of the arithmetic drilling game.

    - [types.ts]                 the data model ([Question], [GameConfig],
                                 [SessionStats]);
    - [services/gameService.ts]  [generateQuestionBatch] and [formatTime];
    - the [App] component        the handlers [startGame], [handleInput],
                                 [handleDelete], [processAnswer],
                                 [nextQuestion], [finishGame], [startReview]
                                 and the two values derived on the results
                                 screen ([avgTime] and the list of wrong
                                 questions);
    - [CircularTimer]            the countdown [App] renders on the play
                                 screen: its state, its two effects and
                                 its interval callback.

    JavaScript numbers are modelled as integers ([Z]); every number the
    handlers compute on is an integer far below 2^53.  [Math.random()] is an
    oracle [random : nat -> Q] read through a draw counter, [Date.now()] is an
    argument of the handler that reads it.  React state is one record, a
    handler is a function on it, and the callbacks handed to [setTimeout] are
    kept in the record until they run.  The arithmetic of the countdown,
    which is on doubles in the source, is a parameter of the timer. *)

From Stdlib Require Import ZArith QArith Qround String Ascii DecimalString DecimalZ DecimalPos Lia.
From stdpp Require Import base list.

(** ** types.ts *)

Inductive OperationType : Set :=
  | ADDITION
  | SUBTRACTION
  | MULTIPLICATION
  | DIVISION
  | ALL.

Inductive GameState : Set :=
  | MENU
  | PLAYING
  | RESULTS.

(** The value of [parseInt]: an integer, or [NaN] when the text has no
    leading digit. *)
Inductive number : Set :=
  | Num (z : Z)
  | NaN.

(** [userAnswer?: number]: [None] is the absent field ([undefined]). *)
Record Question : Set := mkQuestion {
  id : string;
  num1 : Z;
  num2 : Z;
  operation : OperationType;
  correctAnswer : Z;
  userAnswer : option number;
  isRetry : bool
}.

(** [targetNumber: number | null]. *)
Record GameConfig : Set := mkGameConfig {
  config_operation : OperationType;
  targetNumber : option Z;
  durationPerQuestion : Z
}.

Record SessionStats : Set := mkSessionStats {
  totalQuestions : nat;
  correctCount : nat;
  wrongCount : nat;
  startTime : Z;
  endTime : Z;
  averageTimePerQuestion : Z
}.

Definition OperationType_eqb (a b : OperationType) : bool :=
  match a, b with
  | ADDITION, ADDITION | SUBTRACTION, SUBTRACTION
  | MULTIPLICATION, MULTIPLICATION | DIVISION, DIVISION | ALL, ALL => true
  | _, _ => false
  end.

(** ** Strings of numbers *)

(** [n.toString()] and the interpolation of a number in a template literal,
    for an integer: its decimal digits, with a leading minus sign below
    zero. *)
Definition toString (z : Z) : string := NilZero.string_of_int (Z.to_int z).

Definition digit_value (c : ascii) : option Z :=
  let n := Z.of_nat (nat_of_ascii c) in
  if ((48 <=? n) && (n <=? 57))%Z then Some (n - 48)%Z else None.

Fixpoint parseDigits (acc : Z) (s : string) : Z :=
  match s with
  | EmptyString => acc
  | String c rest =>
      match digit_value c with
      | Some d => parseDigits (10 * acc + d)%Z rest
      | None => acc
      end
  end.

(** [parseInt(s)] on the text built from keypad keys.  The keypad sends the
    ten digits only (its dot key is disabled), so the text has neither white
    space nor a sign nor a [0x] prefix: [parseInt] reads the leading run of
    decimal digits, and yields [NaN] when there is none. *)
Definition parseInt (s : string) : number :=
  match s with
  | EmptyString => NaN
  | String c _ =>
      match digit_value c with
      | Some _ => Num (parseDigits 0 s)
      | None => NaN
      end
  end.

(** ** services/gameService.ts *)

Module Rand.

(** A computation that draws from [Math.random()]: it reads the oracle at
    the draw counter and moves the counter on. *)
Definition M (A : Type) : Type := (nat -> Q) -> nat -> A * nat.

Definition ret {A} (a : A) : M A := fun _ n => (a, n).

Definition bind {A B} (m : M A) (k : A -> M B) : M B :=
  fun random n => let '(a, n') := m random n in k a random n'.

(** [Math.random()] *)
Definition Math_random : M Q := fun random n => (random n, S n).

(** [Math.floor(Math.random() * k)], the product taken on rationals.  In
    double precision the product of a number below 1 and [k] (4 or 10 in
    this program) is below [k] too, so the integers that can be drawn are
    the same, [0 .. k-1]; which of them a given value of [Math.random()]
    leads to can differ where the double product is rounded up to an
    integer.  The statements about the generator hold for every oracle. *)
Definition floor_random (k : Z) : M Z :=
  bind Math_random (fun r => ret (Qfloor (r * inject_Z k))).

End Rand.

Notation "x <- c1 ;; c2" := (Rand.bind c1 (fun x => c2))
  (at level 100, c1 at next level, right associativity).

Definition operations : list OperationType :=
  [ADDITION; SUBTRACTION; MULTIPLICATION; DIVISION].

(** [operations[k]].  Outside the array JavaScript yields [undefined], for
    which no [case] of the switch below is taken; [ALL], for which no [case]
    is taken either, stands for it.  With [Math.random() < 1] the index is
    always inside (lemma [floor_random_range]). *)
Definition operations_at (k : Z) : OperationType :=
  if (k <? 0)%Z then ALL else nth (Z.to_nat k) operations ALL.

(** One turn of the loop of [generateQuestionBatch], for the loop index [i];
    [now] is the value of [Date.now()] in that turn. *)
Definition generateQuestion (operation : OperationType) (targetNumber : option Z)
    (now : Z) (i : nat) : Rand.M Question :=
  op <- match operation with
        | ALL => k <- Rand.floor_random 4 ;; Rand.ret (operations_at k)
        | _ => Rand.ret operation
        end ;;
  operands <- match targetNumber with
              | Some t =>
                  (* Specific table practice *)
                  r <- Rand.floor_random 10 ;; Rand.ret ((r + 1)%Z, t)
              | None =>
                  (* Random practice *)
                  r1 <- Rand.floor_random 10 ;;
                  r2 <- Rand.floor_random 10 ;;
                  Rand.ret ((r1 + 1)%Z, (r2 + 1)%Z)
              end ;;
  let '(n1, n2) := operands in
  let '(n1, n2, ans) :=
    match op with
    | ADDITION => (n1, n2, (n1 + n2)%Z)
    | SUBTRACTION =>
        (* Ensure positive result *)
        let '(n1, n2) := if (n1 <? n2)%Z then (n2, n1) else (n1, n2) in
        (n1, n2, (n1 - n2)%Z)
    | MULTIPLICATION => (n1, n2, (n1 * n2)%Z)
    | DIVISION =>
        (* Inverse multiplication to get clean integers *)
        ((n1 * n2)%Z, n2, n1)
    | ALL => (n1, n2, 0%Z)
    end in
  (* Randomize order for + and * *)
  swap <- match op with
          | ADDITION | MULTIPLICATION =>
              r <- Rand.Math_random ;; Rand.ret (negb (Qle_bool r (1 # 2)))
          | _ => Rand.ret false
          end ;;
  let '(n1, n2) := if swap : bool then (n2, n1) else (n1, n2) in
  Rand.ret {| id := "q-" ++ toString now ++ "-" ++ toString (Z.of_nat i);
              num1 := n1;
              num2 := n2;
              operation := op;
              correctAnswer := ans;
              isRetry := false;
              userAnswer := None |}.

(** The loop [for (let i = 0; i < count; i++)], from index [i] with [todo]
    turns left; [clock i] is [Date.now()] in turn [i]. *)
Fixpoint generateLoop (operation : OperationType) (targetNumber : option Z)
    (clock : nat -> Z) (todo i : nat) : Rand.M (list Question) :=
  match todo with
  | O => Rand.ret []
  | S todo' =>
      q <- generateQuestion operation targetNumber (clock i) i ;;
      qs <- generateLoop operation targetNumber clock todo' (S i) ;;
      Rand.ret (q :: qs)
  end.

Definition generateQuestionBatch (random : nat -> Q) (clock : nat -> Z)
    (operation : OperationType) (targetNumber : option Z) (count : nat)
    : list Question :=
  fst (generateLoop operation targetNumber clock count 0 random 0%nat).

(** ** The App component: state *)

Inductive Feedback : Set :=
  | correct
  | wrong
  | timeout.

(** A callback handed to [setTimeout] by [processAnswer] that has not run
    yet: [() => { nextQuestion(); }].  The [nextQuestion] it calls is the one
    of the render [processAnswer] was made in, which reads that render's
    [currentQIndex] and [questionQueue]. *)
Record Scheduled : Set := mkScheduled {
  seen_currentQIndex : nat;
  seen_questionQueue : list Question;
  delay : Z
}.

(** The [useState] cells of [App] (the reward image apart), and the callbacks
    waiting in the browser's timer queue. *)
Record App : Set := mkApp {
  gameState : GameState;
  config : GameConfig;
  questionQueue : list Question;
  currentQIndex : nat;
  userInput : string;
  feedback : option Feedback;
  sessionStats : SessionStats;
  timers : list Scheduled
}.

Definition setGameState (g : GameState) (s : App) : App :=
  mkApp g (config s) (questionQueue s) (currentQIndex s) (userInput s)
        (feedback s) (sessionStats s) (timers s).

Definition setConfig (f : GameConfig -> GameConfig) (s : App) : App :=
  mkApp (gameState s) (f (config s)) (questionQueue s) (currentQIndex s)
        (userInput s) (feedback s) (sessionStats s) (timers s).

Definition setQuestionQueue (q : list Question) (s : App) : App :=
  mkApp (gameState s) (config s) q (currentQIndex s) (userInput s)
        (feedback s) (sessionStats s) (timers s).

Definition setCurrentQIndex (f : nat -> nat) (s : App) : App :=
  mkApp (gameState s) (config s) (questionQueue s) (f (currentQIndex s))
        (userInput s) (feedback s) (sessionStats s) (timers s).

Definition setUserInput (f : string -> string) (s : App) : App :=
  mkApp (gameState s) (config s) (questionQueue s) (currentQIndex s)
        (f (userInput s)) (feedback s) (sessionStats s) (timers s).

Definition setFeedback (f : option Feedback) (s : App) : App :=
  mkApp (gameState s) (config s) (questionQueue s) (currentQIndex s)
        (userInput s) f (sessionStats s) (timers s).

Definition setSessionStats (f : SessionStats -> SessionStats) (s : App) : App :=
  mkApp (gameState s) (config s) (questionQueue s) (currentQIndex s)
        (userInput s) (feedback s) (f (sessionStats s)) (timers s).

(** [setTimeout(cb, ms)] *)
Definition setTimeout (cb : Scheduled) (s : App) : App :=
  mkApp (gameState s) (config s) (questionQueue s) (currentQIndex s)
        (userInput s) (feedback s) (sessionStats s) (timers s ++ [cb]).

Definition initial : App :=
  {| gameState := MENU;
     config := {| config_operation := MULTIPLICATION;
                  targetNumber := None;
                  durationPerQuestion := 10 |};
     questionQueue := [];
     currentQIndex := 0;
     userInput := "";
     feedback := None;
     sessionStats := mkSessionStats 0 0 0 0 0 0;
     timers := [] |}.

(** ** The App component: handlers *)

(** [startGame(customQueue?)]; [None] is the call without an argument.  An
    array, even an empty one, is truthy, so [customQueue || ...] keeps it. *)
Definition startGame (random : nat -> Q) (clock : nat -> Z) (now : Z)
    (customQueue : option (list Question)) (s : App) : App :=
  let questions :=
    match customQueue with
    | Some q => q
    | None => generateQuestionBatch random clock
                (config_operation (config s)) (targetNumber (config s)) 10
    end in
  setGameState PLAYING
    (setSessionStats (fun _ => {| totalQuestions := length questions;
                                  correctCount := 0;
                                  wrongCount := 0;
                                  startTime := now;
                                  endTime := 0;
                                  averageTimePerQuestion := 0 |})
    (setFeedback None
    (setUserInput (fun _ => ""%string)
    (setCurrentQIndex (fun _ => 0)
    (setQuestionQueue questions s))))).

Definition selectOperation (op : OperationType) : App -> App :=
  setConfig (fun prev => mkGameConfig op (targetNumber prev) (durationPerQuestion prev)).

Definition selectTarget (num : option Z) : App -> App :=
  setConfig (fun prev => mkGameConfig (config_operation prev) num (durationPerQuestion prev)).

Definition selectDuration (sec : Z) : App -> App :=
  setConfig (fun prev => mkGameConfig (config_operation prev) (targetNumber prev) sec).

Definition finishGame (now : Z) (s : App) : App :=
  setGameState RESULTS
    (setSessionStats (fun prev => mkSessionStats (totalQuestions prev)
                        (correctCount prev) (wrongCount prev) (startTime prev)
                        now (averageTimePerQuestion prev)) s).

(** [nextQuestion], as the callback [cb] sees it: the test reads the index
    and the queue of the render the callback comes from, the updates act on
    the state of the moment the callback runs. *)
Definition nextQuestion (cb : Scheduled) (now : Z) (s : App) : App :=
  let s := setUserInput (fun _ => ""%string) (setFeedback None s) in
  if (Z.of_nat (length (seen_questionQueue cb)) - 1 <=? Z.of_nat (seen_currentQIndex cb))%Z
  then finishGame now s
  else setCurrentQIndex (fun prev => prev + 1) s.

(** [a === b] on numbers. *)
Definition number_eqb (a b : number) : bool :=
  match a, b with
  | Num x, Num y => (x =? y)%Z
  | _, _ => false
  end.

(** The clone pushed on a wrong answer. *)
Definition retryQ (currentQ : Question) (now : Z) : Question :=
  {| id := id currentQ ++ "-retry-" ++ toString now;
     num1 := num1 currentQ;
     num2 := num2 currentQ;
     operation := operation currentQ;
     correctAnswer := correctAnswer currentQ;
     userAnswer := None;
     isRetry := true |}.

(** The test of [processAnswer]; [userVal = None] is [null]. *)
Definition isCorrect (userVal : option number) (isTimeout : bool)
    (currentQ : Question) : bool :=
  (* -999 is just a dummy for timeout *)
  let valToCheck := match userVal with Some v => v | None => Num (-999) end in
  negb isTimeout && number_eqb valToCheck (Num (correctAnswer currentQ)).

(** [processAnswer(userVal, isTimeout)] *)
Definition processAnswer (userVal : option number) (isTimeout : bool) (now : Z)
    (s : App) : App :=
  match questionQueue s !! currentQIndex s with
  | None => s
  | Some currentQ =>
      if isCorrect userVal isTimeout currentQ then
        setTimeout (mkScheduled (currentQIndex s) (questionQueue s) 600)
          (setSessionStats (fun prev => mkSessionStats (totalQuestions prev)
                              (correctCount prev + 1) (wrongCount prev)
                              (startTime prev) (endTime prev)
                              (averageTimePerQuestion prev))
          (setFeedback (Some correct) s))
      else
        (* Spaced repetition: add the retry to the end of the queue *)
        let newQueue := questionQueue s ++ [retryQ currentQ now] in
        setTimeout (mkScheduled (currentQIndex s) (questionQueue s) 2500)
          (setQuestionQueue newQueue
          (setSessionStats (fun prev => mkSessionStats (totalQuestions prev)
                              (correctCount prev) (wrongCount prev + 1)
                              (startTime prev) (endTime prev)
                              (averageTimePerQuestion prev))
          (setFeedback (Some (if isTimeout then timeout else wrong)) s)))
  end.

Definition withUserAnswer (v : option number) (q : Question) : Question :=
  mkQuestion (id q) (num1 q) (num2 q) (operation q) (correctAnswer q) v (isRetry q).

(** [handleInput(num)].  [updatedQueue] is a new array of the same question
    objects, so the assignment to [userAnswer] is seen through
    [questionQueue] too, which is what [processAnswer] reads. *)
Definition handleInput (num : string) (now : Z) (s : App) : App :=
  match feedback s with
  | Some _ => s
  | None =>
      match questionQueue s !! currentQIndex s with
      | None => s
      | Some currentQ =>
          let correctStr := toString (correctAnswer currentQ) in
          (* Prevent typing more digits than the answer has *)
          if (String.length correctStr <=? String.length (userInput s))%nat then s
          else
            let nextInput := (userInput s ++ num)%string in
            let s := setUserInput (fun _ => nextInput) s in
            (* Auto-submit logic: check when length matches *)
            if (String.length nextInput =? String.length correctStr)%nat then
              let userVal := parseInt nextInput in
              let updatedQueue :=
                <[currentQIndex s := withUserAnswer (Some userVal) currentQ]>
                  (questionQueue s) in
              processAnswer (Some userVal) false now (setQuestionQueue updatedQueue s)
            else s
      end
  end.

(** [prev.slice(0, -1)] *)
Definition slice_0_m1 (prev : string) : string :=
  substring 0 (String.length prev - 1) prev.

Definition handleDelete (s : App) : App :=
  match feedback s with
  | Some _ => s
  | None => setUserInput slice_0_m1 s
  end.

(** ** Wrong questions: the results screen and [startReview] *)

(** [s.split(sep)[0]] for a non-empty [sep]: the text before the first
    occurrence of [sep], all of [s] when there is none. *)
Fixpoint split_head (sep s : string) : string :=
  if String.prefix sep s then ""%string
  else match s with
       | EmptyString => ""%string
       | String c rest => String c (split_head sep rest)
       end.

(** A JavaScript [Map] with string keys: the entries in insertion order;
    [set] on a key that is present replaces its value in place. *)
Definition JsMap : Set := list (string * Question).

Fixpoint map_has (k : string) (m : JsMap) : bool :=
  match m with
  | [] => false
  | (k', _) :: m' => String.eqb k k' || map_has k m'
  end.

Fixpoint map_set (k : string) (v : Question) (m : JsMap) : JsMap :=
  match m with
  | [] => [(k, v)]
  | (k', v') :: m' =>
      if String.eqb k k' then (k, v) :: m' else (k', v') :: map_set k v m'
  end.

(** [Array.from(m.values())] *)
Definition map_values (m : JsMap) : list Question := map snd m.

(** [q.userAnswer !== undefined && q.userAnswer !== q.correctAnswer] *)
Definition answeredWrong (q : Question) : bool :=
  match userAnswer q with
  | None => false
  | Some v => negb (number_eqb v (Num (correctAnswer q)))
  end.

(** The body of both [forEach] loops; [store q] is the value that is set. *)
Definition collect (store : Question -> Question) (m : JsMap) (q : Question) : JsMap :=
  if answeredWrong q then
    if negb (map_has (split_head "-retry" (id q)) m)
    then map_set (id q) (store q) m
    else m
  else m.

Definition wrongQuestionsMap (store : Question -> Question)
    (queue : list Question) : JsMap :=
  fold_left (collect store) queue [].

(** The results screen: [wrongQuestions], [hasErrors] and [avgTime]. *)
Definition wrongQuestions (queue : list Question) : list Question :=
  map_values (wrongQuestionsMap (fun q => q) queue).

Definition hasErrors (queue : list Question) : bool :=
  (0 <? length (wrongQuestions queue))%nat.

(** The value of a JavaScript division of integers: the exact quotient
    (which the code holds rounded to the nearest double), or, when the
    divisor is zero, [Infinity], [-Infinity] or [NaN] by the sign of the
    dividend. *)
Inductive quotient : Set :=
  | Finite (q : Q)
  | PlusInfinity
  | MinusInfinity
  | NotANumber.

(** [a / b] for integers [a] and [b >= 0]. *)
Definition js_div (a b : Z) : quotient :=
  if (b =? 0)%Z then
    if (0 <? a)%Z then PlusInfinity
    else if (a <? 0)%Z then MinusInfinity
    else NotANumber
  else Finite (inject_Z a / inject_Z b).

(** [x / k] for a quotient [x] and a positive integer constant [k]. *)
Definition quotient_div (x : quotient) (k : Z) : quotient :=
  match x with
  | Finite q => Finite (q / inject_Z k)
  | other => other
  end.

(** [avgTime = (duration / sessionStats.totalQuestions) / 1000] *)
Definition avgTime (st : SessionStats) : quotient :=
  let duration := (endTime st - startTime st)%Z in
  quotient_div (js_div duration (Z.of_nat (totalQuestions st))) 1000.

(** The value [startReview] stores for a wrong question. *)
Definition reviewQ (q : Question) : Question :=
  {| id := "review-" ++ id q;
     num1 := num1 q;
     num2 := num2 q;
     operation := operation q;
     correctAnswer := correctAnswer q;
     userAnswer := None;
     isRetry := false |}.

(** [startReview]; it generates nothing, the oracle it hands to [startGame]
    is never read. *)
Definition startReview (now : Z) (s : App) : App :=
  let wrongQuestions := map_values (wrongQuestionsMap reviewQ (questionQueue s)) in
  if (0 <? length wrongQuestions)%nat
  then startGame (fun _ => 0%Q) (fun _ => 0%Z) now (Some wrongQuestions) s
  else s.

(** ** Events *)

(** The enabled keys of [Keypad.tsx]. *)
Inductive Key : Set :=
  | K1 | K2 | K3 | K4 | K5 | K6 | K7 | K8 | K9 | K0.

Definition key_text (k : Key) : string :=
  match k with
  | K1 => "1" | K2 => "2" | K3 => "3" | K4 => "4" | K5 => "5"
  | K6 => "6" | K7 => "7" | K8 => "8" | K9 => "9" | K0 => "0"
  end.

(** What can happen to the mounted [App]: a click on a button that is on
    screen, the countdown of [CircularTimer] reaching zero ([TimeUp]; when
    the timer raises it is modelled with the timer, in [commit] below), or
    a scheduled callback running.  An event that reads [Date.now()] carries its value;
    [Start] carries the [Math.random()] oracle and the clock of the loop. *)
Inductive Event : Type :=
  | SelectOperation (op : OperationType)
  | SelectTarget (num : option Z)
  | SelectDuration (sec : Z)
  | Start (random : nat -> Q) (clock : nat -> Z) (now : Z)
  | Press (k : Key) (now : Z)
  | Delete
  | TimeUp (now : Z)
  | Exit
  | Review (now : Z)
  | PlayAgain
  | Fire (n : nat) (now : Z).

Definition setTimers (t : list Scheduled) (s : App) : App :=
  mkApp (gameState s) (config s) (questionQueue s) (currentQIndex s)
        (userInput s) (feedback s) (sessionStats s) t.

Definition menu_target (num : option Z) : bool :=
  match num with
  | None => true
  | Some t => (1 <=? t)%Z && (t <=? 10)%Z
  end.

(** One event.  Clicks are taken by the screen that is rendered: the menu
    offers the four operations, the tables 1 to 10 or all of them, 5 or 10
    seconds and the start button; the play screen, which renders nothing
    without a current question, offers the keypad (disabled while feedback
    is shown), the exit button and the timer (stopped while feedback is
    shown); the results screen offers the review button when there are
    errors, and the button back to the menu.  A scheduled callback runs
    whatever is on screen: nothing in [App] ever calls [clearTimeout]. *)
Definition dispatch (e : Event) (s : App) : App :=
  match e with
  | Fire n now =>
      match timers s !! n with
      | Some cb => nextQuestion cb now (setTimers (delete n (timers s)) s)
      | None => s
      end
  | _ =>
      match gameState s with
      | MENU =>
          match e with
          | SelectOperation op =>
              if OperationType_eqb op ALL then s else selectOperation op s
          | SelectTarget num =>
              if menu_target num then selectTarget num s else s
          | SelectDuration sec =>
              if ((sec =? 5) || (sec =? 10))%Z then selectDuration sec s else s
          | Start random clock now => startGame random clock now None s
          | _ => s
          end
      | PLAYING =>
          match questionQueue s !! currentQIndex s with
          | None => s
          | Some _ =>
              match e, feedback s with
              | Press k now, None => handleInput (key_text k) now s
              | Delete, None => handleDelete s
              | TimeUp now, None => processAnswer None true now s
              | Exit, _ => setGameState MENU s
              | _, _ => s
              end
          end
      | RESULTS =>
          match e with
          | Review now => if hasErrors (questionQueue s) then startReview now s else s
          | PlayAgain => setGameState MENU s
          | _ => s
          end
      end
  end.

(** A run: the events in the order they happen. *)
Definition run (events : list Event) (s : App) : App :=
  fold_left (fun s e => dispatch e s) events s.

Definition reachable (s : App) : Prop :=
  exists events, s = run events initial.

(** ** Predicates used in the statements *)

(** What [Math.random()] promises: a number in [0, 1). *)
Definition unit_interval (random : nat -> Q) : Prop :=
  forall n, (0 <= random n)%Q /\ (random n < 1)%Q.

(** The precondition on [targetNumber]: [null], or one of the tables 1..10. *)
Definition table (targetNumber : option Z) : Prop :=
  match targetNumber with
  | None => True
  | Some t => (1 <= t <= 10)%Z
  end.

(** What one turn of the loop produces from the sampled operands [a] and
    [b]. *)
Definition built_from (a b : Z) (q : Question) : Prop :=
  match operation q with
  | ADDITION =>
      correctAnswer q = (a + b)%Z /\
      ((num1 q = a /\ num2 q = b) \/ (num1 q = b /\ num2 q = a))
  | SUBTRACTION =>
      num1 q = Z.max a b /\ num2 q = Z.min a b /\
      correctAnswer q = (num1 q - num2 q)%Z
  | MULTIPLICATION =>
      correctAnswer q = (a * b)%Z /\
      ((num1 q = a /\ num2 q = b) \/ (num1 q = b /\ num2 q = a))
  | DIVISION =>
      num1 q = (a * b)%Z /\ num2 q = b /\ correctAnswer q = a
  | ALL => False
  end.

Definition generated (operation0 : OperationType) (targetNumber : option Z)
    (q : Question) : Prop :=
  (operation0 <> ALL -> operation q = operation0) /\
  userAnswer q = None /\ isRetry q = false /\
  exists a b : Z,
    (1 <= a <= 10)%Z /\
    match targetNumber with Some t => b = t | None => (1 <= b <= 10)%Z end /\
    built_from a b q.


(** What [handleInput] does when it takes the key. *)
Definition typed (num : string) (s : App) : App :=
  setUserInput (fun _ => (userInput s ++ num)%string) s.

Definition answered (num : string) (currentQ : Question) (s : App) : App :=
  setQuestionQueue
    (<[currentQIndex s :=
         withUserAnswer (Some (parseInt (userInput s ++ num))) currentQ]>
       (questionQueue s))
    (typed num s).

(** The outcomes of a key press. *)
Inductive key_outcome (num : string) (now : Z) (s : App) : App -> Prop :=
  | key_ignored :
      key_outcome num now s s
  | key_typed currentQ :
      feedback s = None ->
      questionQueue s !! currentQIndex s = Some currentQ ->
      String.length (userInput s ++ num) <> String.length (toString (correctAnswer currentQ)) ->
      String.length (userInput s) < String.length (toString (correctAnswer currentQ)) ->
      key_outcome num now s (typed num s)
  | key_submitted currentQ :
      feedback s = None ->
      questionQueue s !! currentQIndex s = Some currentQ ->
      String.length (userInput s ++ num) = String.length (toString (correctAnswer currentQ)) ->
      key_outcome num now s
        (processAnswer (Some (parseInt (userInput s ++ num))) false now
           (answered num currentQ s)).

(** An event that starts a session. *)
Definition starts_session (e : Event) : bool :=
  match e with
  | Start _ _ _ | Review _ => true
  | _ => false
  end.

(** The steps of [dispatch], one constructor for each handler that can run,
    with the event that runs it and what is on screen when it does. *)
Inductive step (s : App) : Event -> App -> Prop :=
  | step_idle e :
      step s e s
  | step_config e (f : GameConfig -> GameConfig) :
      starts_session e = false ->
      gameState s = MENU ->
      step s e (setConfig f s)
  | step_start random clock now :
      gameState s = MENU ->
      step s (Start random clock now) (startGame random clock now None s)
  | step_input k now currentQ :
      gameState s = PLAYING -> feedback s = None ->
      questionQueue s !! currentQIndex s = Some currentQ ->
      step s (Press k now) (handleInput (key_text k) now s)
  | step_delete currentQ :
      gameState s = PLAYING -> feedback s = None ->
      questionQueue s !! currentQIndex s = Some currentQ ->
      step s Delete (handleDelete s)
  | step_timeup now currentQ :
      gameState s = PLAYING -> feedback s = None ->
      questionQueue s !! currentQIndex s = Some currentQ ->
      step s (TimeUp now) (processAnswer None true now s)
  | step_exit currentQ :
      gameState s = PLAYING ->
      questionQueue s !! currentQIndex s = Some currentQ ->
      step s Exit (setGameState MENU s)
  | step_review now :
      gameState s = RESULTS -> hasErrors (questionQueue s) = true ->
      step s (Review now) (startReview now s)
  | step_again :
      gameState s = RESULTS ->
      step s PlayAgain (setGameState MENU s)
  | step_fire n cb now :
      timers s !! n = Some cb ->
      step s (Fire n now) (nextQuestion cb now (setTimers (delete n (timers s)) s)).

(** The input buffer fits the current answer, and is shorter than it while
    the question still waits for input. *)
Definition buffer_fits (s : App) : Prop :=
  match questionQueue s !! currentQIndex s with
  | Some currentQ =>
      String.length (userInput s) <= String.length (toString (correctAnswer currentQ)) /\
      (feedback s = None ->
       String.length (userInput s) < String.length (toString (correctAnswer currentQ)))
  | None => userInput s = ""%string
  end.

(** The digit a key stands for, the text a sequence of keys types, and the
    integer that text spells in base ten. *)
Definition key_digit (k : Key) : Z :=
  match k with
  | K1 => 1 | K2 => 2 | K3 => 3 | K4 => 4 | K5 => 5
  | K6 => 6 | K7 => 7 | K8 => 8 | K9 => 9 | K0 => 0
  end.

Fixpoint keys_text (keys : list Key) : string :=
  match keys with
  | [] => ""%string
  | k :: rest => (key_text k ++ keys_text rest)%string
  end.

Definition keys_value (keys : list Key) : Z :=
  fold_left (fun acc k => (10 * acc + key_digit k)%Z) keys 0%Z.

(** The input buffer holds what keypad keys typed, and nothing else. *)
Definition buffer_typed (s : App) : Prop :=
  exists keys, userInput s = keys_text keys.

(** Every retry pushed so far is in the queue, behind the initial batch. *)
Definition queue_counts (s : App) : Prop :=
  length (questionQueue s) =
  totalQuestions (sessionStats s) + wrongCount (sessionStats s).


(** No question from the current one on has an answer recorded, the current
    one as long as it waits for input. *)
Definition unanswered_ahead (s : App) : Prop :=
  forall j q,
    questionQueue s !! j = Some q ->
    currentQIndex s < j \/
    (j = currentQIndex s /\ gameState s = PLAYING /\ feedback s = None) ->
    userAnswer q = None.

(** The entry [q] at position [i] has been scored: the play has moved past
    it, or shows its feedback, or has left the play screen. *)
Definition settled (i : nat) (q : Question) (s : App) : Prop :=
  questionQueue s !! i = Some q /\
  i <= currentQIndex s /\
  (i < currentQIndex s \/ feedback s <> None \/ gameState s <> PLAYING).

(** ** Sessions used in the examples *)

Definition demo_random (n : nat) : Q := (Z.of_nat ((7 * n + 3) mod 10) # 10)%Q.

Definition demo_clock (_ : nat) : Z := 1000%Z.

(** The keys of one answer pressed at time [t], and the feedback delay
    running out [pause] milliseconds later. *)
Definition turn (keys : list Key) (t pause : Z) : list Event :=
  map (fun k => Press k t) keys ++ [Fire 0 (t + pause)%Z].

(** The countdown running out at time [t], and the feedback delay after it. *)
Definition expire (t : Z) : list Event :=
  [TimeUp t; Fire 0 (t + 2500)%Z].

(** The batch drawn from [demo_random] asks for 4, 10, 18, 28, 40, 54, 70, 8,
    18 and 30.  Here the first nine are answered right. *)
Definition nine_right : list Event :=
  Start demo_random demo_clock 1000 ::
  turn [K4] 2000 600 ++ turn [K1; K0] 4000 600 ++ turn [K1; K8] 6000 600 ++
  turn [K2; K8] 8000 600 ++ turn [K4; K0] 10000 600 ++ turn [K5; K4] 12000 600 ++
  turn [K7; K0] 14000 600 ++ turn [K8] 16000 600 ++ turn [K1; K8] 18000 600.

(** ... and the tenth is answered right too: a session without a mistake. *)
Definition all_right : list Event :=
  nine_right ++ turn [K3; K0] 20000 600.

(** ... or the countdown of the tenth runs out. *)
Definition last_wrong : list Event :=
  nine_right ++ expire 28600.

(** The countdown runs out on the first two questions, the other eight are
    answered right; then the retry of the first is answered 5, the retry of
    the second is answered right, and the second retry of the first is
    answered 3. *)
Definition twice_wrong_retry : list Event :=
  Start demo_random demo_clock 1000 ::
  expire 11000 ++ expire 23500 ++ turn [K1; K8] 30000 600 ++
  turn [K2; K8] 32000 600 ++ turn [K4; K0] 34000 600 ++ turn [K5; K4] 36000 600 ++
  turn [K7; K0] 38000 600 ++ turn [K8] 40000 600 ++ turn [K1; K8] 42000 600 ++
  turn [K3; K0] 44000 600 ++
  turn [K5] 46000 2500 ++ turn [K1; K0] 50000 600 ++ turn [K3] 52000 2500.

(** The first question is answered right and the player leaves for the menu
    while the feedback is shown. *)
Definition answer_and_exit : list Event :=
  [Start demo_random demo_clock 1000; Press K4 2000; Exit].

(** The last question is answered right and the player leaves for the menu
    while the feedback is shown. *)
Definition finish_and_exit : list Event :=
  nine_right ++ [Press K3 20000; Press K0 20000; Exit].

(** The first question is answered right, the first digit of the second is
    typed. *)
Definition one_digit_typed : list Event :=
  Start demo_random demo_clock 1000 :: turn [K4] 2000 600 ++ [Press K1 4000].

(** The second question of that batch. *)
Definition second_question : Question :=
  {| id := "q-1000-1"; num1 := 2; num2 := 5; operation := MULTIPLICATION;
     correctAnswer := 10; userAnswer := None; isRetry := false |}.

(** ** Identifiers *)

(** The end of the [id] of a retry pushed at time [now]. *)
Definition stamp_text (now : Z) : string := ("-retry-" ++ toString now)%string.

Definition ends_with (suffix s : string) : Prop :=
  exists pre, s = (pre ++ suffix)%string.

(** The value of [Date.now()] an event carries. *)
Definition event_time (e : Event) : option Z :=
  match e with
  | Start _ _ now | Press _ now | TimeUp now | Review now | Fire _ now => Some now
  | _ => None
  end.

(** The events happen at strictly increasing times, none before [t]. *)
Fixpoint chronological (t : Z) (events : list Event) : Prop :=
  match events with
  | [] => True
  | e :: rest =>
      match event_time e with
      | Some now => (t <= now)%Z /\ chronological (now + 1) rest
      | None => chronological t rest
      end
  end.

(** The first instant after the events. *)
Fixpoint time_after (t : Z) (events : list Event) : Z :=
  match events with
  | [] => t
  | e :: rest =>
      match event_time e with
      | Some now => time_after (now + 1) rest
      | None => time_after t rest
      end
  end.

(** The identifiers of a queue before time [t]: pairwise different, each
    starting as a generated or a review identifier does, and none ending in
    the stamp of [t] or of a later time. *)
Definition ids_before (t : Z) (queue : list Question) : Prop :=
  NoDup (map id queue) /\
  Forall (fun q =>
            String.prefix "q-" (id q) || String.prefix "review-" (id q) = true /\
            forall t', (t <= t')%Z -> ~ ends_with (stamp_text t') (id q))
         queue.

(** ** services/gameService.ts: [formatTime] *)

(** [n] characters of [pad] repeated, continuing with [rest]. *)
Fixpoint cycle (n : nat) (pad rest : string) : string :=
  match n with
  | O => ""%string
  | S n' =>
      match rest with
      | String c rest' => String c (cycle n' pad rest')
      | EmptyString =>
          match pad with
          | String c pad' => String c (cycle n' pad pad')
          | EmptyString => ""%string
          end
      end
  end.

(** [s.padStart(targetLength, padString)] *)
Definition padStart (targetLength : nat) (padString s : string) : string :=
  if (targetLength <=? String.length s)%nat then s
  else (cycle (targetLength - String.length s) padString padString ++ s)%string.

(** [Number.MAX_SAFE_INTEGER], [2^53 - 1]. *)
Definition max_safe_integer : Z := 9007199254740991.

(** A time in milliseconds that [formatTime] is specified for: an integer
    from 0 to [Number.MAX_SAFE_INTEGER]. *)
Definition safe_time (ms : Z) : Prop := (0 <= ms <= max_safe_integer)%Z.

(** [formatTime(ms)] for an integer [ms] with [safe_time ms].  The source
    computes on doubles.  On that range [ms / 1000] is an integer or at
    least [1/1000] away from one, more than half the spacing [2^-9] of the
    doubles below [2^44], so rounding the quotient does not change its
    [Math.floor]; the same holds for [seconds / 60]; [%] on integers is
    exact and takes the sign of the dividend; and the minutes are printed
    in plain decimal.  Beyond that range the double quotient can round up
    to the next integer, and the integer model below no longer follows the
    code. *)
Definition formatTime (ms : Z) : string :=
  let seconds := (ms / 1000)%Z in
  let m := (seconds / 60)%Z in
  let s := Z.rem seconds 60 in
  (toString m ++ ":" ++ padStart 2 "0" (toString s))%string.

(** ** Predicates used in the further statements *)

(** The equation a question shows is true. *)
Definition equation_holds (q : Question) : Prop :=
  match operation q with
  | ADDITION => correctAnswer q = (num1 q + num2 q)%Z
  | SUBTRACTION => correctAnswer q = (num1 q - num2 q)%Z
  | MULTIPLICATION => correctAnswer q = (num1 q * num2 q)%Z
  | DIVISION => num2 q <> 0%Z /\ num1 q = (correctAnswer q * num2 q)%Z
  | ALL => False
  end.

(** A question as the generator makes them, whatever its [id] and the
    answer recorded in it. *)
Definition well_posed (q : Question) : Prop :=
  equation_holds q /\
  (1 <= num1 q <= 100)%Z /\ (1 <= num2 q <= 10)%Z /\
  (0 <= correctAnswer q <= 100)%Z.

(** The same question, but for the answer recorded in it. *)
Definition same_question (q q' : Question) : Prop :=
  id q' = id q /\ num1 q' = num1 q /\ num2 q' = num2 q /\
  operation q' = operation q /\ correctAnswer q' = correctAnswer q /\
  isRetry q' = isRetry q.

(** The key that types a character. *)
Definition key_of_ascii (c : ascii) : option Key :=
  match digit_value c with
  | Some 0%Z => Some K0 | Some 1%Z => Some K1 | Some 2%Z => Some K2
  | Some 3%Z => Some K3 | Some 4%Z => Some K4 | Some 5%Z => Some K5
  | Some 6%Z => Some K6 | Some 7%Z => Some K7 | Some 8%Z => Some K8
  | Some 9%Z => Some K9
  | _ => None
  end.

(** The keys that type a text, when the keypad has them all. *)
Fixpoint keys_of_text (s : string) : option (list Key) :=
  match s with
  | EmptyString => Some []
  | String c rest =>
      match key_of_ascii c, keys_of_text rest with
      | Some k, Some ks => Some (k :: ks)
      | _, _ => None
      end
  end.

(** The keys pressed one after the other, the [i]-th at time [time i]. *)
Fixpoint presses (time : nat -> Z) (i : nat) (keys : list Key) : list Event :=
  match keys with
  | [] => []
  | k :: rest => Press k (time i) :: presses time (S i) rest
  end.

(** Every [Start] of the run draws from an oracle with values in [0, 1). *)
Definition oracles_in_range (events : list Event) : Prop :=
  Forall (fun e => match e with
                   | Start random _ _ => unit_interval random
                   | _ => True
                   end) events.

(** What the menu can leave in the configuration. *)
Definition menu_config (c : GameConfig) : Prop :=
  config_operation c <> ALL /\
  table (targetNumber c) /\
  (durationPerQuestion c = 5 \/ durationPerQuestion c = 10)%Z.

(** No more answers are counted than questions were played: the counters
    stay within the current position, and within the queue. *)
Definition counted_within (s : App) : Prop :=
  correctCount (sessionStats s) + wrongCount (sessionStats s) <= length (questionQueue s) /\
  (correctCount (sessionStats s) + wrongCount (sessionStats s) <= currentQIndex s \/
   (correctCount (sessionStats s) + wrongCount (sessionStats s) <= currentQIndex s + 1 /\
    currentQIndex s < length (questionQueue s) /\
    (feedback s <> None \/ gameState s <> PLAYING))).

(** Every wrong answer recorded in the queue has been counted. *)
Definition wrong_counted (s : App) : Prop :=
  length (filter (fun q => answeredWrong q = true) (questionQueue s)) <=
  wrongCount (sessionStats s).

(** A session has been started, or nothing has happened yet. *)
Definition session_started (s : App) : Prop :=
  1 <= totalQuestions (sessionStats s) \/ (gameState s = MENU /\ timers s = []).

(** The session started no later than [t], and ended no earlier than it
    started. *)
Definition clock_sane (t : Z) (s : App) : Prop :=
  (startTime (sessionStats s) <= t)%Z /\
  (gameState s = RESULTS ->
   (startTime (sessionStats s) <= endTime (sessionStats s))%Z).

(** The queue of [s'] continues the queue of [s]: the position has not gone
    back, every entry is still the same question, and an answer that was
    recorded is still the one recorded. *)
Definition continues (s s' : App) : Prop :=
  currentQIndex s <= currentQIndex s' /\
  forall i q,
    questionQueue s !! i = Some q ->
    exists q', questionQueue s' !! i = Some q' /\
               same_question q q' /\
               (userAnswer q <> None -> q' = q).

(** The state after the answer has been typed and found right. *)
Definition scored_right (currentQ : Question) (s s' : App) : Prop :=
  gameState s' = PLAYING /\
  feedback s' = Some correct /\
  userInput s' = toString (correctAnswer currentQ) /\
  currentQIndex s' = currentQIndex s /\
  questionQueue s' =
    <[currentQIndex s := withUserAnswer (Some (Num (correctAnswer currentQ))) currentQ]>
      (questionQueue s) /\
  correctCount (sessionStats s') = correctCount (sessionStats s) + 1 /\
  wrongCount (sessionStats s') = wrongCount (sessionStats s) /\
  timers s' = timers s ++ [mkScheduled (currentQIndex s) (questionQueue s') 600].

(** The first question of the demo batch is answered right, and the second
    one is on screen. *)
Definition first_answered : list Event :=
  Start demo_random demo_clock 1000 :: turn [K4] 2000 600.

(** The value of every entry replaced by its image under [f]. *)
Definition map_image (f : Question -> Question) (m : JsMap) : JsMap :=
  map (fun kv => (fst kv, f (snd kv))) m.

(** The state [startGame(wrongQuestions)] sets up at time [now]. *)
Definition review_session (now : Z) (s : App) : App :=
  {| gameState := PLAYING;
     config := config s;
     questionQueue := map reviewQ (wrongQuestions (questionQueue s));
     currentQIndex := 0;
     userInput := "";
     feedback := None;
     sessionStats := mkSessionStats (length (wrongQuestions (questionQueue s))) 0 0 now 0 0;
     timers := timers s |}.

(** ** components/CircularTimer.tsx *)

(** The arithmetic of [timeLeft].  The source computes on doubles; the
    component uses three operations on them, and the statements below hold
    for every implementation: [of_seconds d] is the prop [duration] as the
    initial value of [timeLeft], [minus_tenth] is the update of the
    interval callback, [Math.max(0, prev - 0.1)], and [expired] is the test
    [timeLeft <= 0], which on a duration is the test on the integer. *)
Class Countdown (double : Type) : Type := {
  of_seconds : Z -> double;
  minus_tenth : double -> double;
  expired : double -> bool;
  expired_of_seconds : forall d : Z, expired (of_seconds d) = (d <=? 0)%Z
}.

(** Exact decimal arithmetic, in tenths of a second. *)
#[refine] Instance tenths : Countdown Z := {
  of_seconds d := (10 * d)%Z;
  minus_tenth t := Z.max 0 (t - 1);
  expired t := (t <=? 0)%Z
}.
Proof.
  intros d. destruct (Z.leb_spec (10 * d) 0), (Z.leb_spec d 0); try reflexivity; lia.
Defined.

(** The state of a mounted [CircularTimer]: [timeLeft], and the values of
    [resetKey] and [duration] at its last render, which React compares the
    dependencies of the first effect with. *)
Record Timer (double : Type) : Type := mkTimer {
  timeLeft : double;
  seen_resetKey : string;
  seen_duration : Z
}.

Arguments mkTimer {double} _ _ _.
Arguments timeLeft {double} _.
Arguments seen_resetKey {double} _.
Arguments seen_duration {double} _.

(** [App] with the timer it renders, if it renders one. *)
Record Mounted (double : Type) : Type := mkMounted {
  app_state : App;
  timer_state : option (Timer double)
}.

Arguments mkMounted {double} _ _.
Arguments app_state {double} _.
Arguments timer_state {double} _.

(** The question of the play screen; [App] renders the timer exactly when
    there is one. *)
Definition play_screen (s : App) : option Question :=
  match gameState s with
  | PLAYING => questionQueue s !! currentQIndex s
  | _ => None
  end.

(** [isPlaying={!feedback}] *)
Definition isPlaying (s : App) : bool :=
  match feedback s with
  | None => true
  | Some _ => false
  end.

(** One render of the screen and the run of the timer's effects after it.
    Off the play screen the timer is unmounted and its state is lost; a
    timer that mounts starts from [useState(duration)].  Both effects read
    the values of this render: the first one resets [timeLeft] to
    [duration] when [resetKey] or [duration] differ from the last render
    (and on mount); the second one, which runs again after every render of
    [App] because [onTimeUp] is a new function each time, calls
    [onTimeUp()], that is [processAnswer(null, true)], when [isPlaying]
    holds and the [timeLeft] of this render is [<= 0].  The state updates
    of the effects are applied together afterwards. *)
Definition commit {double} `{Countdown double} (now : Z) (m : Mounted double)
    : Mounted double :=
  match play_screen (app_state m) with
  | None => mkMounted (app_state m) None
  | Some currentQ =>
      let duration := durationPerQuestion (config (app_state m)) in
      let rendered :=
        match timer_state m with
        | None => (of_seconds duration, true)
        | Some t =>
            (timeLeft t,
             negb (String.eqb (seen_resetKey t) (id currentQ))
             || negb (seen_duration t =? duration)%Z)
        end in
      let timeLeft0 := fst rendered in
      let reset := snd rendered in
      let s := if isPlaying (app_state m) && expired timeLeft0
               then processAnswer None true now (app_state m)
               else app_state m in
      let timeLeft1 := if reset then of_seconds duration else timeLeft0 in
      mkMounted s (Some (mkTimer timeLeft1 (id currentQ) duration))
  end.

(** The renders that follow an event: the updates made by the effects of
    the first render cause a second one. *)
Definition settle {double} `{Countdown double} (now : Z) (m : Mounted double)
    : Mounted double :=
  commit now (commit now m).

(** What happens to the mounted screen: an event of [App] other than the
    countdown running out, which the timer raises itself, followed by the
    renders it causes at time [now]; or the interval callback of the timer
    running. *)
Inductive ScreenEvent : Type :=
  | Happens (e : Event) (now : Z)
  | Tick (now : Z).

(** The interval of the second effect exists while [isPlaying] holds and
    [timeLeft] is above zero. *)
Definition interval_runs {double} `{Countdown double} (s : App) (t : Timer double) : bool :=
  isPlaying s && negb (expired (timeLeft t)).

Definition screen_dispatch {double} `{Countdown double} (e : ScreenEvent)
    (m : Mounted double) : Mounted double :=
  match e with
  | Happens (TimeUp _) _ => m
  | Happens e now => settle now (mkMounted (dispatch e (app_state m)) (timer_state m))
  | Tick now =>
      match timer_state m with
      | Some t =>
          if interval_runs (app_state m) t
          then settle now
                 (mkMounted (app_state m)
                    (Some (mkTimer (minus_tenth (timeLeft t))
                             (seen_resetKey t) (seen_duration t))))
          else m
      | None => m
      end
  end.

Definition screen_run {double} `{Countdown double} (events : list ScreenEvent)
    (m : Mounted double) : Mounted double :=
  fold_left (fun m e => screen_dispatch e m) events m.

Definition mounted_initial {double} : Mounted double := mkMounted initial None.

(** The second effect of the coming render calls [onTimeUp()]. *)
Definition fires {double} `{Countdown double} (m : Mounted double) : bool :=
  match play_screen (app_state m) with
  | None => false
  | Some _ =>
      isPlaying (app_state m) &&
      expired (match timer_state m with
               | None => of_seconds (durationPerQuestion (config (app_state m)))
               | Some t => timeLeft t
               end)
  end.

(** The events of [App] behind the renders at time [now]: the countdown
    running out in the first or in the second of them. *)
Definition raised {double} `{Countdown double} (now : Z) (m : Mounted double)
    : list Event :=
  (if fires m then [TimeUp now] else []) ++
  (if fires (commit now m) then [TimeUp now] else []).

(** The events of [App] behind a screen event. *)
Definition behind {double} `{Countdown double} (e : ScreenEvent) (m : Mounted double)
    : list Event :=
  match e with
  | Happens (TimeUp _) _ => []
  | Happens e now =>
      e :: raised now (mkMounted (dispatch e (app_state m)) (timer_state m))
  | Tick now =>
      match timer_state m with
      | Some t =>
          if interval_runs (app_state m) t
          then raised now (mkMounted (app_state m)
                             (Some (mkTimer (minus_tenth (timeLeft t))
                                      (seen_resetKey t) (seen_duration t))))
          else []
      | None => []
      end
  end.

(** The events of [App] behind a run of the screen. *)
Fixpoint behind_run {double} `{Countdown double} (events : list ScreenEvent)
    (m : Mounted double) : list Event :=
  match events with
  | [] => []
  | e :: rest => behind e m ++ behind_run rest (screen_dispatch e m)
  end.

(** The screen is at rest: the timer is mounted exactly on the play screen,
    it has seen the current question and duration, and it has not run out
    while the question waits for input. *)
Definition at_rest {double} `{Countdown double} (m : Mounted double) : Prop :=
  match play_screen (app_state m), timer_state m with
  | None, None => True
  | Some currentQ, Some t =>
      seen_resetKey t = id currentQ /\
      seen_duration t = durationPerQuestion (config (app_state m)) /\
      (isPlaying (app_state m) = true -> expired (timeLeft t) = false)
  | _, _ => False
  end.

(** A session on the screen: the start, and the interval callback of the
    timer running a hundred times while the first question waits. *)
Definition countdown_runs_out : list ScreenEvent :=
  Happens (Start demo_random demo_clock 1000) 1000 ::
  map (fun i => Tick (1000 + 100 * Z.of_nat i)) (seq 1 100).

(** The first question of the demo batch. *)
Definition first_question : Question :=
  {| id := "q-1000-0"; num1 := 1; num2 := 4; operation := MULTIPLICATION;
     correctAnswer := 4; userAnswer := None; isRetry := false |}.

(** Every answer recorded in the queue is a non-negative integer. *)
Definition answers_typed (s : App) : Prop :=
  Forall (fun q => match userAnswer q with
                   | Some v => exists z, v = Num z /\ (0 <= z)%Z
                   | None => True
                   end) (questionQueue s).

(** The events happen at times that do not go back, none before [t]. *)
Fixpoint in_time_order (t : Z) (events : list Event) : Prop :=
  match events with
  | [] => True
  | e :: rest =>
      match event_time e with
      | Some now => (t <= now)%Z /\ in_time_order now rest
      | None => in_time_order t rest
      end
  end.

(** The time of an event that reads the clock, or else the time so far. *)
Definition time_at (t : Z) (e : Event) : Z :=
  match event_time e with
  | Some now => now
  | None => t
  end.
(** * Facts *)

(** ** The generator *)

Lemma floor_random_range (r : Q) (k : Z) :
  (0 <= r)%Q -> (r < 1)%Q -> (0 < k)%Z ->
  (0 <= Qfloor (r * inject_Z k) < k)%Z.
Proof.
  intros H0 H1 Hk.
  assert (Hk' : (0 < inject_Z k)%Q) by (unfold Qlt; simpl; lia).
  split.
  - replace 0%Z with (Qfloor (inject_Z 0)) by apply Qfloor_Z.
    apply Qfloor_resp_le. change (inject_Z 0) with 0%Q.
    apply Qmult_le_0_compat; [exact H0 | apply Qlt_le_weak; exact Hk'].
  - apply Z.lt_nge. intros Hge.
    rewrite Zle_Qle in Hge.
    assert (Hlt : (r * inject_Z k < 1 * inject_Z k)%Q)
      by (apply Qmult_lt_compat_r; assumption).
    rewrite Qmult_1_l in Hlt.
    pose proof (Qfloor_le (r * inject_Z k)) as Hfl.
    apply (Qlt_irrefl (inject_Z k)).
    eapply Qle_lt_trans; [ eapply Qle_trans; [exact Hge | exact Hfl] | exact Hlt ].
Qed.

Lemma operations_at_range (k : Z) :
  (0 <= k < 4)%Z -> operations_at k <> ALL.
Proof.
  intros Hk. unfold operations_at.
  destruct (Z.ltb_spec k 0) as [Hneg | _]; [lia |].
  assert (Hc : k = 0%Z \/ k = 1%Z \/ k = 2%Z \/ k = 3%Z) by lia.
  destruct Hc as [-> | [-> | [-> | ->]]]; discriminate.
Qed.

Section Generator.

Variable random : nat -> Q.
Hypothesis random_unit : unit_interval random.

Lemma draw_range (n : nat) (k : Z) :
  (0 < k)%Z -> (0 <= Qfloor (random n * inject_Z k) < k)%Z.
Proof.
  intros Hk. destruct (random_unit n) as [H0 H1].
  now apply floor_random_range.
Qed.

(** Names every draw [Math.floor(Math.random() * k)] of the goal and
    records its range. *)
Ltac name_draws random draw_range :=
  repeat match goal with
         | |- context [Qfloor (random ?m * inject_Z ?k)] =>
             let H := fresh "Hdraw" in
             let d := fresh "d" in
             assert (H : (0 <= Qfloor (random m * inject_Z k) < k)%Z)
               by (apply draw_range; lia);
             set (d := Qfloor (random m * inject_Z k)) in *;
             clearbody d
         end.

Ltac split_tests :=
  repeat match goal with
         | |- context [Z.ltb ?a ?b] => destruct (Z.ltb_spec a b)
         | |- context [Qle_bool ?a ?b] => destruct (Qle_bool a b)
         end.

Lemma generateQuestion_generated operation0 targetNumber now i n :
  table targetNumber ->
  generated operation0 targetNumber
    (fst (generateQuestion operation0 targetNumber now i random n)).
Proof.
  intros Htable.
  unfold generateQuestion, Rand.bind, Rand.floor_random, Rand.Math_random, Rand.ret.
  destruct operation0, targetNumber as [t|];
    cbn -[Qfloor Qmult inject_Z Qle_bool operations_at];
    name_draws random draw_range;
    try match goal with
        | H : (0 <= ?d < 4)%Z |- context [operations_at ?d] =>
            let op := fresh "op" in
            pose proof (operations_at_range d H);
            set (op := operations_at d) in *; clearbody op;
            destruct op; try congruence
        end;
    cbn -[Qle_bool]; split_tests; cbn;
    (split; [intros ?; try reflexivity; congruence |]);
    (split; [reflexivity |]); (split; [reflexivity |]);
    unfold table in Htable; unfold built_from; cbn.
  all: match goal with
       | Ha : (0 <= ?x < 10)%Z, Hb : (0 <= ?y < 10)%Z |- _ =>
           exists (x + 1)%Z, (y + 1)%Z; solve [intuition lia]
       | Ha : (0 <= ?x < 10)%Z |- exists a b, _ /\ b = ?t /\ _ =>
           exists (x + 1)%Z, t; solve [intuition lia]
       end.
Qed.

Lemma generateLoop_generated operation0 targetNumber clock todo :
  table targetNumber ->
  forall i n,
    Forall (generated operation0 targetNumber)
      (fst (generateLoop operation0 targetNumber clock todo i random n)).
Proof.
  intros Htable. induction todo as [| todo IH]; intros i n; cbn.
  - constructor.
  - unfold Rand.bind at 1.
    pose proof (generateQuestion_generated operation0 targetNumber (clock i) i n Htable) as Hq.
    destruct (generateQuestion operation0 targetNumber (clock i) i random n) as [q n1].
    unfold Rand.bind at 1.
    specialize (IH (S i) n1).
    destruct (generateLoop operation0 targetNumber clock todo (S i) random n1) as [qs n2].
    cbn in *. constructor; assumption.
Qed.

Lemma generateLoop_length operation0 targetNumber clock todo :
  forall i n,
    length (fst (generateLoop operation0 targetNumber clock todo i random n)) = todo.
Proof.
  induction todo as [| todo IH]; intros i n; cbn; [reflexivity |].
  unfold Rand.bind at 1.
  destruct (generateQuestion operation0 targetNumber (clock i) i random n) as [q n1].
  unfold Rand.bind at 1.
  specialize (IH (S i) n1).
  destruct (generateLoop operation0 targetNumber clock todo (S i) random n1) as [qs n2].
  cbn in *. now rewrite IH.
Qed.

End Generator.

Lemma generateQuestionBatch_generated random clock operation0 targetNumber count :
  unit_interval random -> table targetNumber ->
  Forall (generated operation0 targetNumber)
    (generateQuestionBatch random clock operation0 targetNumber count).
Proof.
  intros Hr Ht. unfold generateQuestionBatch.
  now apply generateLoop_generated.
Qed.

Lemma generateQuestionBatch_length random clock operation0 targetNumber count :
  length (generateQuestionBatch random clock operation0 targetNumber count) = count.
Proof. unfold generateQuestionBatch. apply generateLoop_length. Qed.

(** ** Strings *)

Lemma toString_nonempty (z : Z) : 0 < String.length (toString z).
Proof.
  unfold toString, NilZero.string_of_int, NilZero.string_of_uint.
  destruct z as [| p | p]; cbn; [lia | |];
    destruct (Pos.to_uint p); cbn; lia.
Qed.

Lemma string_length_app (a b : string) :
  String.length (a ++ b) = String.length a + String.length b.
Proof. induction a as [| c a IH]; cbn; [reflexivity | now rewrite IH]. Qed.

Lemma key_text_length (k : Key) : String.length (key_text k) = 1.
Proof. destruct k; reflexivity. Qed.

Lemma substring_0_length (n : nat) (s : string) :
  n <= String.length s -> String.length (substring 0 n s) = n.
Proof.
  revert n. induction s as [| c s IH]; intros [| n] Hn; cbn in *; try lia.
  rewrite IH; lia.
Qed.

Lemma slice_0_m1_length (s : string) :
  String.length (slice_0_m1 s) = String.length s - 1.
Proof. unfold slice_0_m1. apply substring_0_length. lia. Qed.

(** ** The handlers, case by case *)

Lemma dispatch_step (e : Event) (s : App) : step s e (dispatch e s).
Proof.
  destruct e; cbn.
  1-10: destruct (gameState s) eqn:Eg; try apply step_idle.
  all: repeat match goal with
         | |- step _ _ (if ?b then _ else _) => destruct b eqn:?
         | |- step _ _ (match questionQueue ?s !! ?i with _ => _ end) =>
             destruct (questionQueue s !! i) eqn:?
         | |- step _ _ (match feedback ?s with _ => _ end) =>
             destruct (feedback s) eqn:?
         | |- step _ _ (match timers ?s !! ?i with _ => _ end) =>
             destruct (timers s !! i) eqn:?
         end;
    try apply step_idle; try (now apply step_config); eauto using step.
Qed.

Lemma processAnswer_absent userVal isTimeout now s :
  questionQueue s !! currentQIndex s = None ->
  processAnswer userVal isTimeout now s = s.
Proof. intros H. unfold processAnswer. now rewrite H. Qed.

Lemma processAnswer_correct userVal isTimeout now s currentQ :
  questionQueue s !! currentQIndex s = Some currentQ ->
  isCorrect userVal isTimeout currentQ = true ->
  processAnswer userVal isTimeout now s =
  mkApp (gameState s) (config s) (questionQueue s) (currentQIndex s)
    (userInput s) (Some correct)
    (mkSessionStats (totalQuestions (sessionStats s))
       (correctCount (sessionStats s) + 1) (wrongCount (sessionStats s))
       (startTime (sessionStats s)) (endTime (sessionStats s))
       (averageTimePerQuestion (sessionStats s)))
    (timers s ++ [mkScheduled (currentQIndex s) (questionQueue s) 600]).
Proof. intros H Hc. unfold processAnswer. now rewrite H, Hc. Qed.

Lemma processAnswer_incorrect userVal isTimeout now s currentQ :
  questionQueue s !! currentQIndex s = Some currentQ ->
  isCorrect userVal isTimeout currentQ = false ->
  processAnswer userVal isTimeout now s =
  mkApp (gameState s) (config s)
    (questionQueue s ++ [retryQ currentQ now]) (currentQIndex s)
    (userInput s) (Some (if isTimeout then timeout else wrong))
    (mkSessionStats (totalQuestions (sessionStats s))
       (correctCount (sessionStats s)) (wrongCount (sessionStats s) + 1)
       (startTime (sessionStats s)) (endTime (sessionStats s))
       (averageTimePerQuestion (sessionStats s)))
    (timers s ++ [mkScheduled (currentQIndex s) (questionQueue s) 2500]).
Proof. intros H Hc. unfold processAnswer. now rewrite H, Hc. Qed.

Lemma isCorrect_timeout userVal currentQ : isCorrect userVal true currentQ = false.
Proof. reflexivity. Qed.

Lemma isCorrect_spec v isTimeout currentQ :
  isCorrect (Some (Num v)) isTimeout currentQ = true <->
  isTimeout = false /\ v = correctAnswer currentQ.
Proof.
  unfold isCorrect. cbn. destruct isTimeout; cbn.
  - split; [discriminate | intros [H _]; discriminate].
  - rewrite Z.eqb_eq. tauto.
Qed.

Lemma handleInput_blocked num now s f :
  feedback s = Some f -> handleInput num now s = s.
Proof. intros H. unfold handleInput. now rewrite H. Qed.

Lemma handleInput_absent num now s :
  questionQueue s !! currentQIndex s = None -> handleInput num now s = s.
Proof. intros H. unfold handleInput. rewrite H. now destruct (feedback s). Qed.

Lemma handleInput_full num now s currentQ :
  questionQueue s !! currentQIndex s = Some currentQ ->
  String.length (toString (correctAnswer currentQ)) <= String.length (userInput s) ->
  handleInput num now s = s.
Proof.
  intros H Hlen. unfold handleInput. rewrite H.
  destruct (feedback s); [reflexivity |].
  destruct (Nat.leb_spec (String.length (toString (correctAnswer currentQ)))
              (String.length (userInput s))); [reflexivity | lia].
Qed.

Lemma handleInput_partial num now s currentQ :
  feedback s = None ->
  questionQueue s !! currentQIndex s = Some currentQ ->
  String.length (userInput s) < String.length (toString (correctAnswer currentQ)) ->
  String.length (userInput s ++ num) <> String.length (toString (correctAnswer currentQ)) ->
  handleInput num now s = typed num s.
Proof.
  intros Hf H Hlen Hne. unfold handleInput. rewrite Hf, H.
  destruct (Nat.leb_spec (String.length (toString (correctAnswer currentQ)))
              (String.length (userInput s))); [lia |].
  cbn. destruct (Nat.eqb_spec (String.length (userInput s ++ num))
                   (String.length (toString (correctAnswer currentQ))));
    [contradiction | reflexivity].
Qed.

Lemma handleInput_submit num now s currentQ :
  feedback s = None ->
  questionQueue s !! currentQIndex s = Some currentQ ->
  String.length (userInput s) < String.length (toString (correctAnswer currentQ)) ->
  String.length (userInput s ++ num) = String.length (toString (correctAnswer currentQ)) ->
  handleInput num now s =
  processAnswer (Some (parseInt (userInput s ++ num))) false now
    (answered num currentQ s).
Proof.
  intros Hf H Hlen Heq. unfold handleInput. rewrite Hf, H.
  destruct (Nat.leb_spec (String.length (toString (correctAnswer currentQ)))
              (String.length (userInput s))); [lia |].
  cbn. destruct (Nat.eqb_spec (String.length (userInput s ++ num))
                   (String.length (toString (correctAnswer currentQ))));
    [reflexivity | contradiction].
Qed.

Lemma answered_lookup num currentQ s :
  questionQueue s !! currentQIndex s = Some currentQ ->
  questionQueue (answered num currentQ s) !! currentQIndex (answered num currentQ s)
  = Some (withUserAnswer (Some (parseInt (userInput s ++ num))) currentQ).
Proof.
  intros H. cbn. apply list_lookup_insert_eq.
  now apply lookup_lt_Some in H.
Qed.

Lemma handleInput_outcome num now s : key_outcome num now s (handleInput num now s).
Proof.
  destruct (feedback s) as [f |] eqn:Hf.
  { rewrite (handleInput_blocked _ _ _ f Hf). constructor. }
  destruct (questionQueue s !! currentQIndex s) as [currentQ |] eqn:Hq.
  2: { rewrite handleInput_absent by assumption. constructor. }
  destruct (le_lt_dec (String.length (toString (correctAnswer currentQ)))
              (String.length (userInput s))) as [Hfull | Hroom].
  { rewrite (handleInput_full _ _ _ currentQ) by assumption. constructor. }
  destruct (Nat.eq_dec (String.length (userInput s ++ num))
              (String.length (toString (correctAnswer currentQ)))) as [Heq | Hne].
  - rewrite (handleInput_submit _ _ _ currentQ) by assumption.
    now apply key_submitted.
  - rewrite (handleInput_partial _ _ _ currentQ) by assumption.
    now apply key_typed with currentQ.
Qed.

(** ** The input buffer *)

Lemma buffer_fits_fresh (s : App) :
  userInput s = ""%string -> buffer_fits s.
Proof.
  intros Hin. unfold buffer_fits. rewrite Hin.
  destruct (questionQueue s !! currentQIndex s) as [q |]; [| reflexivity].
  pose proof (toString_nonempty (correctAnswer q)). cbn. split; [lia | intros _; lia].
Qed.

Lemma buffer_fits_startGame random clock now customQueue s :
  buffer_fits (startGame random clock now customQueue s).
Proof. now apply buffer_fits_fresh. Qed.

Lemma buffer_fits_nextQuestion cb now s : buffer_fits (nextQuestion cb now s).
Proof.
  apply buffer_fits_fresh. unfold nextQuestion.
  now destruct (_ <=? _)%Z.
Qed.

Lemma buffer_fits_scored userVal isTimeout now s currentQ :
  questionQueue s !! currentQIndex s = Some currentQ ->
  String.length (userInput s) <= String.length (toString (correctAnswer currentQ)) ->
  buffer_fits (processAnswer userVal isTimeout now s).
Proof.
  intros Hq Hle.
  destruct (isCorrect userVal isTimeout currentQ) eqn:Hc.
  - rewrite (processAnswer_correct _ _ _ _ currentQ Hq Hc).
    unfold buffer_fits; cbn. rewrite Hq. split; [exact Hle | discriminate].
  - rewrite (processAnswer_incorrect _ _ _ _ currentQ Hq Hc).
    unfold buffer_fits; cbn.
    rewrite lookup_app_l by (now apply lookup_lt_Some in Hq).
    rewrite Hq. split; [exact Hle | discriminate].
Qed.

Lemma buffer_fits_processAnswer userVal isTimeout now s :
  buffer_fits s -> buffer_fits (processAnswer userVal isTimeout now s).
Proof.
  intros Hs.
  destruct (questionQueue s !! currentQIndex s) as [currentQ |] eqn:Hq.
  2: { now rewrite processAnswer_absent. }
  unfold buffer_fits in Hs. rewrite Hq in Hs. destruct Hs as [Hle _].
  now apply buffer_fits_scored with currentQ.
Qed.

Lemma buffer_fits_handleInput k now s :
  buffer_fits s -> buffer_fits (handleInput (key_text k) now s).
Proof.
  intros Hs.
  destruct (handleInput_outcome (key_text k) now s)
    as [| currentQ Hf Hq Hne Hlt | currentQ Hf Hq Heq].
  - exact Hs.
  - unfold buffer_fits; cbn. rewrite Hq.
    rewrite string_length_app, key_text_length in *. split; [lia | intros _; lia].
  - eapply buffer_fits_scored; [apply (answered_lookup _ _ _ Hq) |].
    cbn. lia.
Qed.

Lemma buffer_fits_handleDelete s : buffer_fits s -> buffer_fits (handleDelete s).
Proof.
  intros Hs. unfold handleDelete.
  destruct (feedback s) eqn:Hf; [exact Hs |].
  unfold buffer_fits in *; cbn.
  destruct (questionQueue s !! currentQIndex s) as [currentQ |].
  - rewrite slice_0_m1_length. destruct Hs as [Hle _].
    pose proof (toString_nonempty (correctAnswer currentQ)).
    split; [lia | intros _; lia].
  - now rewrite Hs.
Qed.

Lemma step_buffer_fits s e s' : step s e s' -> buffer_fits s -> buffer_fits s'.
Proof.
  intros Hstep Hs.
  destruct Hstep;
    auto using buffer_fits_startGame, buffer_fits_nextQuestion,
      buffer_fits_processAnswer, buffer_fits_handleInput, buffer_fits_handleDelete.
  unfold startReview. destruct (_ <? _)%nat; auto using buffer_fits_startGame.
Qed.

Lemma run_invariant (P : App -> Prop) :
  (forall s e s', step s e s' -> P s -> P s') ->
  forall events s, P s -> P (run events s).
Proof.
  intros Hstep events. induction events as [| e events IH]; intros s Hs; cbn.
  - exact Hs.
  - apply IH. eapply Hstep; [apply dispatch_step | exact Hs].
Qed.

Lemma reachable_buffer_fits s : reachable s -> buffer_fits s.
Proof.
  intros [events ->]. apply run_invariant; [apply step_buffer_fits | reflexivity].
Qed.

(** ** Counters *)

Lemma queue_counts_processAnswer userVal isTimeout now s :
  queue_counts s -> queue_counts (processAnswer userVal isTimeout now s).
Proof.
  intros Hs.
  destruct (questionQueue s !! currentQIndex s) as [currentQ |] eqn:Hq.
  2: { now rewrite processAnswer_absent. }
  unfold queue_counts in *.
  destruct (isCorrect userVal isTimeout currentQ) eqn:Hc.
  - now rewrite (processAnswer_correct _ _ _ _ currentQ Hq Hc).
  - rewrite (processAnswer_incorrect _ _ _ _ currentQ Hq Hc). cbn.
    rewrite length_app. cbn. lia.
Qed.

Lemma queue_counts_handleInput num now s :
  queue_counts s -> queue_counts (handleInput num now s).
Proof.
  intros Hs.
  destruct (handleInput_outcome num now s)
    as [| currentQ Hf Hq Hne Hlt | currentQ Hf Hq Heq]; try exact Hs.
  apply queue_counts_processAnswer.
  unfold queue_counts in *. cbn. now rewrite length_insert.
Qed.

Lemma queue_counts_startGame random clock now customQueue s :
  queue_counts (startGame random clock now customQueue s).
Proof. unfold queue_counts. cbn. lia. Qed.

Lemma queue_counts_nextQuestion cb now s :
  queue_counts s -> queue_counts (nextQuestion cb now s).
Proof. unfold queue_counts, nextQuestion. now destruct (_ <=? _)%Z. Qed.

Lemma step_queue_counts s e s' : step s e s' -> queue_counts s -> queue_counts s'.
Proof.
  intros Hstep Hs.
  destruct Hstep;
    auto using queue_counts_startGame, queue_counts_processAnswer,
      queue_counts_handleInput.
  - unfold handleDelete. now destruct (feedback s).
  - unfold startReview. destruct (_ <? _)%nat; auto using queue_counts_startGame.
  - now apply queue_counts_nextQuestion.
Qed.

Lemma reachable_queue_counts s : reachable s -> queue_counts s.
Proof.
  intros [events ->]. apply run_invariant; [apply step_queue_counts | reflexivity].
Qed.

(** [totalQuestions] and [startTime] are written by [startGame] only. *)
Lemma step_same_session s e s' :
  step s e s' -> starts_session e = false ->
  totalQuestions (sessionStats s') = totalQuestions (sessionStats s) /\
  startTime (sessionStats s') = startTime (sessionStats s).
Proof.
  intros Hstep He.
  destruct Hstep; try discriminate; try (split; reflexivity).
  - destruct (handleInput_outcome (key_text k) now s)
      as [| q Hf Hq Hne Hlt | q Hf Hq Heq]; try (split; reflexivity).
    pose proof (answered_lookup (key_text k) _ _ Hq) as Hq'.
    destruct (isCorrect (Some (parseInt (userInput s ++ key_text k))) false
                (withUserAnswer (Some (parseInt (userInput s ++ key_text k))) q)) eqn:Hc.
    + rewrite (processAnswer_correct _ _ _ _ _ Hq' Hc). split; reflexivity.
    + rewrite (processAnswer_incorrect _ _ _ _ _ Hq' Hc). split; reflexivity.
  - unfold handleDelete. destruct (feedback s); split; reflexivity.
  - rewrite (processAnswer_incorrect _ _ _ _ _ H1 (isCorrect_timeout _ _)).
    split; reflexivity.
  - unfold nextQuestion. destruct (_ <=? _)%Z; split; reflexivity.
Qed.

Lemma run_same_session events :
  forallb (fun e => negb (starts_session e)) events = true ->
  forall s,
    totalQuestions (sessionStats (run events s)) = totalQuestions (sessionStats s) /\
    startTime (sessionStats (run events s)) = startTime (sessionStats s).
Proof.
  induction events as [| e events IH]; intros Hall s; cbn in *.
  - split; reflexivity.
  - apply andb_prop in Hall. destruct Hall as [He Hall].
    apply negb_true_iff in He.
    destruct (IH Hall (dispatch e s)) as [H1 H2].
    destruct (step_same_session s e _ (dispatch_step e s) He) as [H3 H4].
    unfold run in *. split; congruence.
Qed.

(** ** Fresh questions carry no answer *)

Lemma generateQuestion_unanswered random operation0 targetNumber now i n :
  userAnswer (fst (generateQuestion operation0 targetNumber now i random n)) = None.
Proof.
  unfold generateQuestion, Rand.bind, Rand.floor_random, Rand.Math_random, Rand.ret.
  destruct operation0, targetNumber as [t|];
    cbn -[Qfloor Qmult inject_Z Qle_bool operations_at];
    try destruct (operations_at _);
    cbn -[Qfloor Qmult inject_Z Qle_bool];
    repeat match goal with
           | |- context [Z.ltb ?a ?b] => destruct (Z.ltb a b)
           | |- context [Qle_bool ?a ?b] => destruct (Qle_bool a b)
           end;
    reflexivity.
Qed.

Lemma generateLoop_unanswered random operation0 targetNumber clock todo :
  forall i n,
    Forall (fun q => userAnswer q = None)
      (fst (generateLoop operation0 targetNumber clock todo i random n)).
Proof.
  induction todo as [| todo IH]; intros i n; cbn.
  - constructor.
  - unfold Rand.bind at 1.
    pose proof (generateQuestion_unanswered random operation0 targetNumber (clock i) i n) as Hq.
    destruct (generateQuestion operation0 targetNumber (clock i) i random n) as [q n1].
    unfold Rand.bind at 1.
    specialize (IH (S i) n1).
    destruct (generateLoop operation0 targetNumber clock todo (S i) random n1) as [qs n2].
    cbn in *. constructor; assumption.
Qed.

Lemma generateQuestionBatch_unanswered random clock operation0 targetNumber count :
  Forall (fun q => userAnswer q = None)
    (generateQuestionBatch random clock operation0 targetNumber count).
Proof. apply generateLoop_unanswered. Qed.

(** ** The wrong questions *)

Lemma collect_skip store m q : answeredWrong q = false -> collect store m q = m.
Proof. intros H. unfold collect. now rewrite H. Qed.

Lemma unanswered_not_wrong q : userAnswer q = None -> answeredWrong q = false.
Proof. intros H. unfold answeredWrong. now rewrite H. Qed.

Lemma fold_collect_delete store queue :
  forall i q m,
    queue !! i = Some q -> answeredWrong q = false ->
    fold_left (collect store) queue m = fold_left (collect store) (delete i queue) m.
Proof.
  induction queue as [| x queue IH]; intros i q m Hq Hskip; [discriminate |].
  destruct i as [| i]; cbn in *.
  - injection Hq as ->. now rewrite collect_skip.
  - now apply IH with q.
Qed.

Lemma map_set_values (P : Question -> Prop) k v m :
  P v -> Forall P (map_values m) -> Forall P (map_values (map_set k v m)).
Proof.
  intros Hv. unfold map_values.
  induction m as [| [k' v'] m IH]; cbn; intros Hm.
  - constructor; [exact Hv | constructor].
  - inversion Hm; subst.
    destruct (String.eqb k k'); cbn; constructor; auto.
Qed.

Lemma fold_collect_values (P : Question -> Prop) store queue :
  (forall q, q ∈ queue -> answeredWrong q = true -> P (store q)) ->
  forall m, Forall P (map_values m) ->
            Forall P (map_values (fold_left (collect store) queue m)).
Proof.
  induction queue as [| x queue IH]; intros HP m Hm; cbn; [exact Hm |].
  apply IH.
  - intros q Hq. apply HP. now right.
  - unfold collect.
    destruct (answeredWrong x) eqn:Hx; [| exact Hm].
    destruct (negb _); [| exact Hm].
    apply map_set_values; [| exact Hm].
    apply HP; [now left | exact Hx].
Qed.

Lemma wrongQuestionsMap_values (P : Question -> Prop) store queue :
  (forall q, q ∈ queue -> answeredWrong q = true -> P (store q)) ->
  Forall P (map_values (wrongQuestionsMap store queue)).
Proof. intros HP. apply fold_collect_values; [exact HP | constructor]. Qed.

Lemma startReview_unanswered queue :
  Forall (fun q => userAnswer q = None)
    (map_values (wrongQuestionsMap reviewQ queue)).
Proof. apply wrongQuestionsMap_values. reflexivity. Qed.

(** ** Questions not played yet are unanswered *)

Lemma unanswered_ahead_startGame random clock now customQueue s :
  match customQueue with
  | Some questions => Forall (fun q => userAnswer q = None) questions
  | None => True
  end ->
  unanswered_ahead (startGame random clock now customQueue s).
Proof.
  intros Hc j q Hq _. cbn in Hq.
  destruct customQueue as [questions |].
  - eapply Forall_lookup_1 in Hc; eauto.
  - pose proof (generateQuestionBatch_unanswered random clock
                  (config_operation (config s)) (targetNumber (config s)) 10) as Hg.
    eapply Forall_lookup_1 in Hg; eauto.
Qed.

Lemma unanswered_ahead_scored userVal isTimeout now s currentQ :
  questionQueue s !! currentQIndex s = Some currentQ ->
  (forall j q, questionQueue s !! j = Some q -> currentQIndex s < j ->
               userAnswer q = None) ->
  unanswered_ahead (processAnswer userVal isTimeout now s).
Proof.
  intros Hq Hs j q.
  destruct (isCorrect userVal isTimeout currentQ) eqn:Hc.
  - rewrite (processAnswer_correct _ _ _ _ currentQ Hq Hc). cbn.
    intros Hj [Hlt | (_ & _ & Hf)]; [eauto | discriminate].
  - rewrite (processAnswer_incorrect _ _ _ _ currentQ Hq Hc). cbn.
    intros Hj [Hlt | (_ & _ & Hf)]; [| discriminate].
    apply lookup_snoc_Some in Hj. destruct Hj as [[_ Hj] | [_ <-]]; [eauto | reflexivity].
Qed.

Lemma unanswered_ahead_handleInput num now s :
  unanswered_ahead s -> unanswered_ahead (handleInput num now s).
Proof.
  intros Hs.
  destruct (handleInput_outcome num now s)
    as [| currentQ Hf Hq Hne Hlt | currentQ Hf Hq Heq]; try exact Hs.
  eapply unanswered_ahead_scored; [apply (answered_lookup _ _ _ Hq) |].
  cbn. intros j q Hj Hlt.
  rewrite list_lookup_insert_ne in Hj by lia.
  apply (Hs j q Hj). now left.
Qed.

Lemma unanswered_ahead_nextQuestion cb now s :
  unanswered_ahead s -> unanswered_ahead (nextQuestion cb now s).
Proof.
  intros Hs j q. unfold nextQuestion.
  destruct (_ <=? _)%Z; cbn; intros Hj Hpos.
  - destruct Hpos as [Hlt | (_ & Hg & _)]; [| discriminate].
    apply (Hs j q Hj). now left.
  - apply (Hs j q Hj). left. lia.
Qed.

Lemma step_unanswered_ahead s e s' :
  step s e s' -> unanswered_ahead s -> unanswered_ahead s'.
Proof.
  intros Hstep Hs.
  destruct Hstep; auto using unanswered_ahead_handleInput.
  - now apply unanswered_ahead_startGame.
  - unfold handleDelete. now destruct (feedback s).
  - eapply unanswered_ahead_scored; [eassumption |].
    intros j q Hj Hlt. apply (Hs j q Hj). now left.
  - intros j q Hj [Hlt | (_ & Hg & _)]; [| discriminate].
    apply (Hs j q Hj). now left.
  - unfold startReview. destruct (_ <? _)%nat; [| exact Hs].
    apply unanswered_ahead_startGame, startReview_unanswered.
  - intros j q Hj [Hlt | (-> & Hg & Hf)].
    + apply (Hs j q Hj). now left.
    + cbn in Hg. congruence.
  - apply unanswered_ahead_nextQuestion.
    intros j q Hj Hpos. apply (Hs j q Hj Hpos).
Qed.

Lemma reachable_unanswered_ahead s : reachable s -> unanswered_ahead s.
Proof.
  intros [events ->]. apply run_invariant; [apply step_unanswered_ahead |].
  intros j q Hq. destruct j; discriminate.
Qed.

(** ** A scored entry stays as it is until the next session *)

Lemma settled_processAnswer userVal isTimeout now s i q :
  questionQueue s !! i = Some q -> i <= currentQIndex s ->
  settled i q (processAnswer userVal isTimeout now s).
Proof.
  intros Hi Hle.
  destruct (questionQueue s !! currentQIndex s) as [currentQ |] eqn:Hq.
  2: { rewrite processAnswer_absent by assumption.
       apply lookup_ge_None in Hq. pose proof (lookup_lt_Some _ _ _ Hi).
       repeat split; [exact Hi | exact Hle | left; lia]. }
  destruct (isCorrect userVal isTimeout currentQ) eqn:Hc.
  - rewrite (processAnswer_correct _ _ _ _ currentQ Hq Hc).
    repeat split; cbn; [exact Hi | exact Hle | right; left; discriminate].
  - rewrite (processAnswer_incorrect _ _ _ _ currentQ Hq Hc).
    repeat split; cbn; [| exact Hle | right; left; discriminate].
    rewrite lookup_app_l by (now apply lookup_lt_Some in Hi). exact Hi.
Qed.

Lemma step_settled s e s' i q :
  step s e s' -> starts_session e = false -> settled i q s -> settled i q s'.
Proof.
  intros Hstep He (Hi & Hle & Hpos).
  destruct Hstep; try discriminate.
  all: try (repeat split; assumption).
  - assert (Hlt : i < currentQIndex s) by (destruct Hpos as [? | [? | ?]]; first [assumption | congruence]).
    destruct (handleInput_outcome (key_text k) now s)
      as [| currentQ' Hf' Hq' Hne Hlt' | currentQ' Hf' Hq' Heq];
      try (now repeat split).
    apply settled_processAnswer; cbn; [| exact Hle].
    rewrite list_lookup_insert_ne by lia. exact Hi.
  - unfold handleDelete.
    destruct (feedback s) eqn:Hf; repeat split; cbn; try rewrite Hf; assumption.
  - now apply settled_processAnswer.
  - repeat split; cbn; [exact Hi | exact Hle | right; right; discriminate].
  - repeat split; cbn; [exact Hi | exact Hle | right; right; discriminate].
  - unfold nextQuestion.
    destruct (_ <=? _)%Z; repeat split; cbn; try exact Hi; try lia.
    + destruct Hpos as [Hlt | [Hf | Hg]]; [now left | | now right; right].
      right; right. discriminate.
Qed.

Lemma run_settled events i q :
  forallb (fun e => negb (starts_session e)) events = true ->
  forall s, settled i q s -> settled i q (run events s).
Proof.
  induction events as [| e events IH]; intros Hall s Hs; cbn in *; [exact Hs |].
  apply andb_prop in Hall. destruct Hall as [He Hall].
  apply negb_true_iff in He.
  apply (IH Hall). eapply step_settled; [apply dispatch_step | exact He | exact Hs].
Qed.

Lemma retryQ_id_new currentQ now : id (retryQ currentQ now) <> id currentQ.
Proof.
  cbn. intros H. apply (f_equal String.length) in H.
  rewrite string_length_app in H. cbn in H. lia.
Qed.

Lemma wrongQuestions_answeredWrong queue :
  Forall (fun q => answeredWrong q = true) (wrongQuestions queue).
Proof. apply wrongQuestionsMap_values. auto. Qed.

Lemma demo_random_unit : unit_interval demo_random.
Proof.
  intros n. unfold demo_random.
  assert (Hm : ((7 * n + 3) mod 10 < 10)%nat) by (apply Nat.mod_upper_bound; lia).
  set (m := (7 * n + 3) mod 10) in *. clearbody m.
  unfold Qle, Qlt. cbn [Qnum Qden]. lia.
Qed.

(** ** Scheduled callbacks *)

Lemma timers_processAnswer userVal isTimeout now s :
  exists added, timers (processAnswer userVal isTimeout now s) = timers s ++ added.
Proof.
  destruct (questionQueue s !! currentQIndex s) as [currentQ |] eqn:Hq.
  2: { rewrite processAnswer_absent by assumption. exists []. now rewrite app_nil_r. }
  destruct (isCorrect userVal isTimeout currentQ) eqn:Hc.
  - rewrite (processAnswer_correct _ _ _ _ currentQ Hq Hc). cbn. eauto.
  - rewrite (processAnswer_incorrect _ _ _ _ currentQ Hq Hc). cbn. eauto.
Qed.

Lemma step_keeps_timers s e s' :
  step s e s' -> (forall n now, e <> Fire n now) ->
  exists added, timers s' = timers s ++ added.
Proof.
  intros Hstep He.
  destruct Hstep;
    try (exists []; now rewrite app_nil_r);
    try apply timers_processAnswer.
  - destruct (handleInput_outcome (key_text k) now s)
      as [| q Hf Hq Hne Hlt | q Hf Hq Heq];
      try (exists []; now rewrite app_nil_r).
    apply (timers_processAnswer _ _ _ (answered (key_text k) q s)).
  - unfold handleDelete. destruct (feedback s); exists []; now rewrite app_nil_r.
  - unfold startReview. destruct (_ <? _)%nat; exists []; now rewrite app_nil_r.
  - now destruct (He n now).
Qed.

(** A wrong answer to the question at the end of the queue: the callback
    handed to [setTimeout] tests the queue as it was before the retry was
    pushed, and completes the session. *)
Lemma last_question_wrong_finishes s currentQ userVal isTimeout now now' :
  questionQueue s !! currentQIndex s = Some currentQ ->
  S (currentQIndex s) = length (questionQueue s) ->
  isCorrect userVal isTimeout currentQ = false ->
  let s1 := processAnswer userVal isTimeout now s in
  let s2 := dispatch (Fire (length (timers s)) now') s1 in
  gameState s2 = RESULTS /\
  currentQIndex s2 = currentQIndex s /\
  questionQueue s2 = questionQueue s ++ [retryQ currentQ now] /\
  S (currentQIndex s2) < length (questionQueue s2).
Proof.
  intros Hq Hlast Hc s1 s2. subst s1 s2.
  rewrite (processAnswer_incorrect _ _ _ _ currentQ Hq Hc).
  cbn [dispatch timers].
  rewrite lookup_app_r by lia.
  rewrite Nat.sub_diag. cbn [lookup list_lookup].
  unfold nextQuestion. cbn [seen_questionQueue seen_currentQIndex].
  destruct (Z.leb_spec (Z.of_nat (length (questionQueue s)) - 1)
              (Z.of_nat (currentQIndex s))) as [_ | Hgt]; [| lia].
  cbn. repeat split. rewrite length_app. cbn. lia.
Qed.

(** ** The menu keeps the precondition of the generator *)

Lemma config_processAnswer userVal isTimeout now s :
  config (processAnswer userVal isTimeout now s) = config s.
Proof.
  destruct (questionQueue s !! currentQIndex s) as [currentQ |] eqn:Hq.
  2: { now rewrite processAnswer_absent. }
  destruct (isCorrect userVal isTimeout currentQ) eqn:Hc.
  - now rewrite (processAnswer_correct _ _ _ _ currentQ Hq Hc).
  - now rewrite (processAnswer_incorrect _ _ _ _ currentQ Hq Hc).
Qed.

Lemma config_handleInput num now s : config (handleInput num now s) = config s.
Proof.
  destruct (handleInput_outcome num now s)
    as [| q Hf Hq Hne Hlt | q Hf Hq Heq]; try reflexivity.
  now rewrite config_processAnswer.
Qed.

Lemma dispatch_config_valid e s :
  table (targetNumber (config s)) /\ config_operation (config s) <> ALL ->
  table (targetNumber (config (dispatch e s))) /\
  config_operation (config (dispatch e s)) <> ALL.
Proof.
  intros [Ht Ho].
  destruct e; cbn [dispatch].
  11: { destruct (timers s !! n); [| now split].
        unfold nextQuestion. destruct (_ <=? _)%Z; now split. }
  all: destruct (gameState s); try (now split).
  all: repeat match goal with
         | |- context [match questionQueue ?s !! ?i with _ => _ end] =>
             destruct (questionQueue s !! i)
         | |- context [match feedback ?s with _ => _ end] =>
             destruct (feedback s)
         end; try (now split).
  - destruct op; cbn; now split.
  - destruct num as [t |]; cbn; [| now split].
    destruct (Z.leb_spec 1 t), (Z.leb_spec t 10); cbn; now split.
  - destruct (_ || _); now split.
  - rewrite config_handleInput. now split.
  - unfold handleDelete. destruct (feedback s); now split.
  - rewrite config_processAnswer. now split.
  - destruct (hasErrors _); [| now split].
    unfold startReview. destruct (_ <? _)%nat; now split.
Qed.

Lemma reachable_config_valid s :
  reachable s ->
  table (targetNumber (config s)) /\ config_operation (config s) <> ALL.
Proof.
  intros [events ->].
  assert (Hgen : forall s0,
             table (targetNumber (config s0)) /\ config_operation (config s0) <> ALL ->
             table (targetNumber (config (run events s0))) /\
             config_operation (config (run events s0)) <> ALL).
  { induction events as [| e events IH]; intros s0 H0; cbn; [exact H0 |].
    apply IH. now apply dispatch_config_valid. }
  apply Hgen. cbn. split; [exact I | discriminate].
Qed.

(** The batch a session starts with from the menu meets the conditions
    under which [generateQuestionBatch] is specified. *)
Lemma start_generates s random clock now :
  reachable s -> unit_interval random -> gameState s = MENU ->
  Forall (generated (config_operation (config s)) (targetNumber (config s)))
    (questionQueue (dispatch (Start random clock now) s)).
Proof.
  intros Hreach Hunit Hmenu.
  destruct (reachable_config_valid s Hreach) as [Htable _].
  cbn [dispatch]. rewrite Hmenu. cbn.
  now apply generateQuestionBatch_generated.
Qed.

(** ** Quotients *)

Lemma quotient_times_divisor (a b : Z) :
  b <> 0%Z -> (inject_Z a / inject_Z b * inject_Z b == inject_Z a)%Q.
Proof.
  intros Hb. field. intros Hz. unfold Qeq in Hz. cbn in Hz. lia.
Qed.

(** ** The text in the buffer and the number it reads as *)

Lemma string_app_assoc (a b c : string) :
  ((a ++ b) ++ c = a ++ (b ++ c))%string.
Proof. induction a as [| x a IH]; cbn; [reflexivity | now rewrite IH]. Qed.

Lemma string_app_empty_r (a : string) : (a ++ "" = a)%string.
Proof. induction a as [| x a IH]; cbn; [reflexivity | now rewrite IH]. Qed.

Lemma substring_0_app (a b : string) :
  substring 0 (String.length a) (a ++ b) = a.
Proof.
  induction a as [| x a IH]; cbn.
  - now destruct b.
  - now rewrite IH.
Qed.

Lemma slice_0_m1_snoc (u : string) (c : ascii) :
  slice_0_m1 (u ++ String c "") = u.
Proof.
  unfold slice_0_m1. rewrite string_length_app. cbn [String.length].
  replace (String.length u + 1 - 1) with (String.length u) by lia.
  apply substring_0_app.
Qed.

Lemma key_text_char (k : Key) : exists c, key_text k = String c "".
Proof. destruct k; cbn; eauto. Qed.

Lemma keys_text_app (a b : list Key) :
  keys_text (a ++ b) = (keys_text a ++ keys_text b)%string.
Proof.
  induction a as [| k a IH]; cbn; [reflexivity |].
  now rewrite IH, string_app_assoc.
Qed.

Lemma keys_text_snoc (keys : list Key) (k : Key) :
  keys_text (keys ++ [k]) = (keys_text keys ++ key_text k)%string.
Proof. rewrite keys_text_app. cbn. now rewrite string_app_empty_r. Qed.

Lemma parseDigits_keys (keys : list Key) :
  forall acc,
    parseDigits acc (keys_text keys)
    = fold_left (fun acc k => (10 * acc + key_digit k)%Z) keys acc.
Proof.
  induction keys as [| k keys IH]; intros acc; [reflexivity |].
  cbn [fold_left]. rewrite <- IH. now destruct k.
Qed.

Lemma parseInt_keys (keys : list Key) :
  keys <> [] -> parseInt (keys_text keys) = Num (keys_value keys).
Proof.
  intros Hne. unfold keys_value. rewrite <- parseDigits_keys.
  destruct keys as [| k keys]; [contradiction |]. now destruct k.
Qed.

Lemma keys_value_nonneg (keys : list Key) : (0 <= keys_value keys)%Z.
Proof.
  unfold keys_value.
  assert (H : forall acc, (0 <= acc)%Z ->
              (0 <= fold_left (fun acc k => (10 * acc + key_digit k)%Z) keys acc)%Z).
  { induction keys as [| k keys IH]; intros acc Hacc; [exact Hacc |].
    cbn [fold_left]. apply IH. destruct k; cbn; lia. }
  apply H. lia.
Qed.

Lemma buffer_typed_delete (u : string) :
  (exists keys, u = keys_text keys) -> exists keys, slice_0_m1 u = keys_text keys.
Proof.
  intros [keys ->].
  induction keys as [| k0 keys0 _] using rev_ind; [now exists [] |].
  exists keys0. rewrite keys_text_snoc.
  destruct (key_text_char k0) as [c ->]. apply slice_0_m1_snoc.
Qed.

Lemma userInput_processAnswer userVal isTimeout now s :
  userInput (processAnswer userVal isTimeout now s) = userInput s.
Proof.
  unfold processAnswer.
  destruct (questionQueue s !! currentQIndex s); [| reflexivity].
  now destruct (isCorrect _ _ _).
Qed.

Lemma step_buffer_typed s e s' : step s e s' -> buffer_typed s -> buffer_typed s'.
Proof.
  intros Hstep Hs. unfold buffer_typed in *.
  destruct Hstep; try exact Hs; try (now exists []).
  - destruct Hs as [keys Hkeys].
    destruct (handleInput_outcome (key_text k) now s)
      as [| q Hf Hq Hne Hlt | q Hf Hq Heq].
    + now exists keys.
    + exists (keys ++ [k]). cbn. now rewrite keys_text_snoc, Hkeys.
    + exists (keys ++ [k]). rewrite userInput_processAnswer. cbn.
      now rewrite keys_text_snoc, Hkeys.
  - unfold handleDelete. destruct (feedback s); [exact Hs |].
    cbn. now apply buffer_typed_delete.
  - now rewrite userInput_processAnswer.
  - unfold startReview. destruct (_ <? _)%nat; [now exists [] | exact Hs].
  - exists []. unfold nextQuestion. now destruct (_ <=? _)%Z.
Qed.

Lemma reachable_buffer_typed s : reachable s -> buffer_typed s.
Proof.
  intros [events ->]. apply run_invariant; [apply step_buffer_typed |].
  now exists [].
Qed.

(** ** Identifiers are distinct *)

Lemma chars_app (a b : string) :
  list_ascii_of_string (a ++ b) = list_ascii_of_string a ++ list_ascii_of_string b.
Proof. induction a as [| c a IH]; cbn; [reflexivity | now rewrite IH]. Qed.

Lemma chars_inj (a b : string) :
  list_ascii_of_string a = list_ascii_of_string b -> a = b.
Proof.
  intros H. rewrite <- (string_of_list_ascii_of_string a),
    <- (string_of_list_ascii_of_string b). now rewrite H.
Qed.

Lemma uint_chars_digits (d : Decimal.uint) :
  Forall (fun c => digit_value c <> None)
    (list_ascii_of_string (NilEmpty.string_of_uint d)).
Proof.
  induction d; cbn; constructor; try assumption; discriminate.
Qed.

Lemma toString_chars (z : Z) :
  exists sign digits c,
    list_ascii_of_string (toString z) = sign ++ digits ++ [c] /\
    Forall (fun c => digit_value c <> None) (digits ++ [c]) /\
    (sign = [] \/ sign = ["-"%char]) /\
    ((0 <= z)%Z -> sign = []).
Proof.
  assert (Hu : forall d, d <> Decimal.Nil ->
             exists digits c,
               list_ascii_of_string (NilZero.string_of_uint d) = digits ++ [c] /\
               Forall (fun c => digit_value c <> None) (digits ++ [c])).
  { intros d Hd. unfold NilZero.string_of_uint.
    pose proof (uint_chars_digits d) as Hall.
    assert (Hne : list_ascii_of_string (NilEmpty.string_of_uint d) <> [])
      by (destruct d; cbn; congruence).
    destruct (exists_last Hne) as (digits & c & Heq).
    exists digits, c. rewrite <- Heq.
    destruct d; try contradiction; split; auto. }
  unfold toString, NilZero.string_of_int.
  destruct z as [| p | p]; cbn [Z.to_int].
  - exists [], [], "0"%char. cbn. repeat split; auto.
  - destruct (Hu (Pos.to_uint p) (Unsigned.to_uint_nonnil p)) as (digits & c & Heq & Hall).
    exists [], digits, c. cbn. repeat split; auto.
  - destruct (Hu (Pos.to_uint p) (Unsigned.to_uint_nonnil p)) as (digits & c & Heq & Hall).
    exists ["-"%char], digits, c. cbn. rewrite Heq. repeat split; auto. lia.
Qed.

Lemma toString_inj (a b : Z) : toString a = toString b -> a = b.
Proof.
  unfold toString. intros H. apply to_int_inj.
  assert (Hn : forall z, Z.to_int z <> Decimal.Pos Decimal.Nil /\
                         Z.to_int z <> Decimal.Neg Decimal.Nil).
  { intros [| p | p]; cbn; split; try discriminate;
      intros Hd; injection Hd as Hd; now apply Unsigned.to_uint_nonnil in Hd. }
  destruct (Hn a) as [Ha1 Ha2]. destruct (Hn b) as [Hb1 Hb2].
  pose proof (NilZero.isi _ Ha1 Ha2) as Ia.
  pose proof (NilZero.isi _ Hb1 Hb2) as Ib.
  rewrite H in Ia. congruence.
Qed.

Lemma toString_no_dash (z : Z) :
  (0 <= z)%Z -> "-"%char ∉ list_ascii_of_string (toString z).
Proof.
  intros Hz Hin.
  destruct (toString_chars z) as (sign & digits & c & Heq & Hall & _ & Hsign).
  rewrite (Hsign Hz) in Heq. cbn in Heq. rewrite Heq in Hin.
  rewrite Forall_forall in Hall. now apply (Hall _ Hin).
Qed.

(** The text after the last dash decides the stamp. *)
Lemma stamp_text_chars (t : Z) :
  list_ascii_of_string (stamp_text t) =
  list_ascii_of_string "-retry" ++ "-"%char :: list_ascii_of_string (toString t).
Proof. reflexivity. Qed.

Lemma ends_with_chars suffix s :
  ends_with suffix s ->
  exists pre, list_ascii_of_string s = pre ++ list_ascii_of_string suffix.
Proof.
  intros [pre ->]. exists (list_ascii_of_string pre). apply chars_app.
Qed.

Lemma stamp_decides (x : string) (now t' : Z) :
  (0 <= now)%Z -> (0 <= t')%Z ->
  ends_with (stamp_text t') (x ++ stamp_text now) -> t' = now.
Proof.
  intros Hnow Ht' Hends.
  apply ends_with_chars in Hends. destruct Hends as [pre Heq].
  rewrite chars_app, !stamp_text_chars, !app_assoc in Heq.
  apply not_elem_of_app_cons_inv_r in Heq;
    [| now apply toString_no_dash | now apply toString_no_dash].
  destruct Heq as (_ & _ & Heq). apply chars_inj in Heq.
  symmetry. now apply toString_inj.
Qed.

Lemma generated_id_unstamped (c : Z) (i : nat) (t' : Z) :
  (0 <= t')%Z ->
  ~ ends_with (stamp_text t') ("q-" ++ toString c ++ "-" ++ toString (Z.of_nat i)).
Proof.
  intros Ht' Hends.
  apply ends_with_chars in Hends. destruct Hends as [pre Heq].
  rewrite !chars_app, stamp_text_chars in Heq.
  pose proof (toString_no_dash (Z.of_nat i) (Nat2Z.is_nonneg i)) as HB.
  pose proof (toString_no_dash t' Ht') as HN.
  destruct (toString_chars c) as (sign & digits & c0 & HA & Hall & _).
  set (A := list_ascii_of_string (toString c)) in *.
  set (B := list_ascii_of_string (toString (Z.of_nat i))) in *.
  set (N := list_ascii_of_string (toString t')) in *.
  cbn in Heq.
  assert (Heq' : ("q"%char :: "-"%char :: A) ++ "-"%char :: B =
                 (pre ++ list_ascii_of_string "-retry") ++ "-"%char :: N)
    by (rewrite <- app_assoc; exact Heq).
  apply not_elem_of_app_cons_inv_r in Heq'; [| exact HN | exact HB].
  destruct Heq' as (Hhead & _ & _).
  rewrite HA in Hhead.
  assert (Hlast : ("q"%char :: "-"%char :: sign ++ digits) ++ [c0] =
                  (pre ++ list_ascii_of_string "-retr") ++ ["y"%char]).
  { cbn. rewrite <- ?app_assoc. cbn. rewrite <- ?app_assoc. cbn in Hhead. exact Hhead. }
  apply app_inj_tail in Hlast. destruct Hlast as [_ ->].
  apply Forall_app in Hall. destruct Hall as [_ Hc0].
  inversion Hc0; subst. now cbn in *.
Qed.

Lemma string_prefix_app (p a b : string) :
  String.prefix p a = true -> String.prefix p (a ++ b) = true.
Proof.
  revert a. induction p as [| c p IH]; intros a H;
    [destruct (a ++ b)%string; reflexivity |].
  destruct a as [| c' a]; cbn in *; [discriminate |].
  destruct (ascii_dec c c'); [now apply IH | discriminate].
Qed.

Lemma review_prefix_dash (pre l : list ascii) :
  list_ascii_of_string "review-" = pre ++ "-"%char :: l -> l = [].
Proof.
  cbn. intros H.
  do 7 (destruct pre as [| ? pre]; cbn in H;
        [ injection H; intros; subst; try discriminate; try reflexivity
        | injection H as _ H ]).
  destruct pre; discriminate.
Qed.

(** A review identifier ends in a stamp only if the identifier it was made
    from does. *)
Lemma review_id_unstamped (x : string) (t' : Z) :
  String.prefix "q-" x || String.prefix "review-" x = true ->
  ends_with (stamp_text t') ("review-" ++ x) -> ends_with (stamp_text t') x.
Proof.
  intros Hstart Hends.
  destruct Hends as [pre Heq].
  assert (Hc := f_equal list_ascii_of_string Heq).
  rewrite !chars_app in Hc.
  apply app_eq_app in Hc. destruct Hc as [l [[H1 H2] | [H1 H2]]].
  - (* the stamp starts inside "review-" *)
    exfalso.
    destruct l as [| c l].
    { assert (Hx : x = stamp_text t') by (apply chars_inj; symmetry; exact H2).
      subst x. cbn in Hstart. discriminate. }
    assert (H2' : "-"%char :: list_ascii_of_string ("retry-" ++ toString t') =
                  c :: l ++ list_ascii_of_string x) by exact H2.
    injection H2' as <- H2'.
    apply review_prefix_dash in H1. subst l.
    assert (Hx : x = ("retry-" ++ toString t')%string)
      by (apply chars_inj; symmetry; exact H2').
    subst x. cbn in Hstart. discriminate.
  - exists (string_of_list_ascii l). apply chars_inj.
    rewrite chars_app, list_ascii_of_string_of_list_ascii. exact H2.
Qed.

Lemma ids_before_mono (t t2 : Z) queue :
  (t <= t2)%Z -> ids_before t queue -> ids_before t2 queue.
Proof.
  intros Hle [Hnd Hall]. split; [exact Hnd |].
  eapply Forall_impl; [exact Hall |].
  intros q [Hp Hs]. split; [exact Hp |].
  intros t' Ht'. apply Hs. lia.
Qed.

Lemma ids_before_retry (t now : Z) queue currentQ :
  (0 <= t)%Z -> (t <= now)%Z ->
  ids_before t queue -> currentQ ∈ queue ->
  ids_before (now + 1) (queue ++ [retryQ currentQ now]).
Proof.
  intros Ht Hnow [Hnd Hall] Hin.
  pose proof (proj1 (Forall_forall _ _) Hall) as Hq.
  destruct (Hq _ Hin) as [Hp Hs].
  split.
  - rewrite map_app. cbn [map]. apply NoDup_app. split; [exact Hnd |].
    split; [| apply NoDup_singleton].
    intros x Hx Hx'. apply list_elem_of_singleton in Hx'. subst x.
    apply list_elem_of_fmap in Hx. destruct Hx as (q' & Heq & Hq').
    destruct (Hq _ Hq') as [_ Hs'].
    apply (Hs' now Hnow). rewrite <- Heq. now exists (id currentQ).
  - apply Forall_app. split.
    + apply (ids_before_mono t); [lia | now split].
    + constructor; [| constructor]. split.
      * apply orb_true_iff in Hp. apply orb_true_iff.
        destruct Hp as [Hp | Hp]; [left | right];
          now apply (string_prefix_app _ (id currentQ)).
      * intros t' Ht' Hends.
        apply (stamp_decides (id currentQ) now t') in Hends; lia.
Qed.

Lemma ids_before_insert (t : Z) queue i q v :
  queue !! i = Some q ->
  ids_before t queue ->
  ids_before t (<[i := withUserAnswer v q]> queue).
Proof.
  intros Hi [Hnd Hall]. split.
  - change (map id) with (fmap (M := list) id).
    rewrite list_fmap_insert. cbn [id withUserAnswer].
    rewrite list_insert_id; [exact Hnd |].
    rewrite list_lookup_fmap, Hi. reflexivity.
  - apply Forall_insert; [exact Hall |].
    eapply Forall_lookup_1 in Hall; [| exact Hi]. exact Hall.
Qed.

Lemma generateQuestion_id random operation0 targetNumber now i n :
  id (fst (generateQuestion operation0 targetNumber now i random n)) =
  ("q-" ++ toString now ++ "-" ++ toString (Z.of_nat i))%string.
Proof.
  unfold generateQuestion, Rand.bind, Rand.floor_random, Rand.Math_random, Rand.ret.
  destruct operation0, targetNumber as [t|];
    cbn -[Qfloor Qmult inject_Z Qle_bool operations_at toString];
    try destruct (operations_at _);
    cbn -[Qfloor Qmult inject_Z Qle_bool toString];
    repeat match goal with
           | |- context [Z.ltb ?a ?b] => destruct (Z.ltb a b)
           | |- context [Qle_bool ?a ?b] => destruct (Qle_bool a b)
           end;
    reflexivity.
Qed.

Lemma generateLoop_ids random operation0 targetNumber clock todo :
  forall i n,
    map id (fst (generateLoop operation0 targetNumber clock todo i random n)) =
    map (fun k => ("q-" ++ toString (clock k) ++ "-" ++ toString (Z.of_nat k))%string)
        (seq i todo).
Proof.
  induction todo as [| todo IH]; intros i n; cbn -[toString]; [reflexivity |].
  unfold Rand.bind at 1.
  pose proof (generateQuestion_id random operation0 targetNumber (clock i) i n) as Hq.
  destruct (generateQuestion operation0 targetNumber (clock i) i random n) as [q n1].
  unfold Rand.bind at 1.
  specialize (IH (S i) n1).
  destruct (generateLoop operation0 targetNumber clock todo (S i) random n1) as [qs n2].
  cbn -[toString] in *. now rewrite Hq, IH.
Qed.

Lemma generated_id_inj (c c' : Z) (i j : nat) :
  ("q-" ++ toString c ++ "-" ++ toString (Z.of_nat i))%string =
  ("q-" ++ toString c' ++ "-" ++ toString (Z.of_nat j))%string ->
  i = j.
Proof.
  intros H. apply (f_equal list_ascii_of_string) in H.
  rewrite !chars_app in H.
  assert (H' : (list_ascii_of_string "q-" ++ list_ascii_of_string (toString c)) ++
               "-"%char :: list_ascii_of_string (toString (Z.of_nat i)) =
               (list_ascii_of_string "q-" ++ list_ascii_of_string (toString c')) ++
               "-"%char :: list_ascii_of_string (toString (Z.of_nat j))).
  { rewrite <- !app_assoc. exact H. }
  apply not_elem_of_app_cons_inv_r in H';
    try (apply toString_no_dash, Nat2Z.is_nonneg).
  destruct H' as (_ & _ & H'). apply chars_inj, toString_inj in H'. lia.
Qed.

Lemma ids_before_generated (t : Z) random clock operation0 targetNumber count :
  (0 <= t)%Z ->
  ids_before t (generateQuestionBatch random clock operation0 targetNumber count).
Proof.
  intros Ht. unfold generateQuestionBatch.
  pose proof (generateLoop_ids random operation0 targetNumber clock count 0 0) as Hids.
  set (batch := fst (generateLoop operation0 targetNumber clock count 0 random 0)) in *.
  split.
  - rewrite Hids. apply NoDup_fmap_2_strong; [| apply NoDup_seq].
    intros x y _ _. apply generated_id_inj.
  - apply Forall_forall. intros q Hq.
    assert (Hin : id q ∈ map id batch) by (apply list_elem_of_fmap; eauto).
    rewrite Hids in Hin. apply list_elem_of_fmap in Hin.
    destruct Hin as (k & Hk & _). rewrite Hk. split.
    + apply orb_true_iff. left. now apply (string_prefix_app "q-" "q-").
    + intros t' Ht'. apply generated_id_unstamped. lia.
Qed.

(** The keys of the map of [startReview] are distinct, and each value is
    the review copy of the question its key names. *)
Lemma map_set_keys k v m :
  map fst (map_set k v m) =
  if map_has k m then map fst m else map fst m ++ [k].
Proof.
  induction m as [| [k' v'] m IH]; cbn; [reflexivity |].
  destruct (String.eqb_spec k k') as [-> | Hne]; cbn; [reflexivity |].
  rewrite IH. now destruct (map_has k m).
Qed.

Lemma map_has_keys k m : map_has k m = true <-> k ∈ map fst m.
Proof.
  induction m as [| [k' v'] m IH]; cbn.
  - split; [discriminate | intros H; inversion H].
  - rewrite orb_true_iff, IH, elem_of_cons.
    now rewrite String.eqb_eq.
Qed.

Lemma map_set_entries (P : string -> Question -> Prop) k v m :
  P k v ->
  Forall (fun kv => P (fst kv) (snd kv)) m ->
  Forall (fun kv => P (fst kv) (snd kv)) (map_set k v m).
Proof.
  intros Hv. induction m as [| [k' v'] m IH]; cbn; intros Hm.
  - constructor; [exact Hv | constructor].
  - inversion Hm; subst.
    destruct (String.eqb k k'); constructor; auto.
Qed.

Lemma review_map_shape queue :
  forall m,
    NoDup (map fst m) ->
    Forall (fun kv => exists q, q ∈ queue /\ fst kv = id q /\ snd kv = reviewQ q) m ->
    let m' := fold_left (collect reviewQ) queue m in
    NoDup (map fst m') /\
    Forall (fun kv => exists q, q ∈ queue /\ fst kv = id q /\ snd kv = reviewQ q) m'.
Proof.
  assert (Hgen : forall done todo m,
             queue = done ++ todo ->
             NoDup (map fst m) ->
             Forall (fun kv => exists q, q ∈ queue /\ fst kv = id q /\ snd kv = reviewQ q) m ->
             NoDup (map fst (fold_left (collect reviewQ) todo m)) /\
             Forall (fun kv => exists q, q ∈ queue /\ fst kv = id q /\ snd kv = reviewQ q)
               (fold_left (collect reviewQ) todo m)).
  { intros done todo. revert done.
    induction todo as [| x todo IH]; intros done m Hq Hnd Hall; cbn; [now split |].
    apply (IH (done ++ [x])); [now rewrite <- app_assoc | |].
    - unfold collect. destruct (answeredWrong x); [| exact Hnd].
      destruct (negb _); [| exact Hnd].
      rewrite map_set_keys. destruct (map_has (id x) m) eqn:Hhas; [exact Hnd |].
      apply NoDup_app. split; [exact Hnd |]. split; [| apply NoDup_singleton].
      intros k Hk Hk'. apply list_elem_of_singleton in Hk'. subst k.
      apply map_has_keys in Hk. congruence.
    - unfold collect. destruct (answeredWrong x); [| exact Hall].
      destruct (negb _); [| exact Hall].
      apply (map_set_entries
               (fun k v => exists q, q ∈ queue /\ k = id q /\ v = reviewQ q));
        [| exact Hall].
      exists x. split; [| now split].
      rewrite Hq. apply elem_of_app. right. now left. }
  intros m Hnd Hall. now apply (Hgen [] queue m).
Qed.

Lemma ids_before_review (t : Z) queue :
  ids_before t queue ->
  ids_before t (map_values (wrongQuestionsMap reviewQ queue)).
Proof.
  intros [Hnd Hall].
  pose proof (proj1 (Forall_forall _ _) Hall) as Hq.
  destruct (review_map_shape queue [] (NoDup_nil_2) (Forall_nil_2 _)) as [Hkeys Hvals].
  fold (wrongQuestionsMap reviewQ queue) in Hkeys, Hvals.
  set (m := wrongQuestionsMap reviewQ queue) in *.
  pose proof (proj1 (Forall_forall _ _) Hvals) as Hv.
  assert (Hids : map id (map_values m) = map (fun k => ("review-" ++ k)%string) (map fst m)).
  { unfold map_values. rewrite !map_map. apply map_ext_in.
    intros kv Hin. apply list_elem_of_In in Hin.
    destruct (Hv kv Hin) as (q & _ & Hk & Hval). now rewrite Hval, Hk. }
  split.
  - rewrite Hids. apply NoDup_fmap_2; [| exact Hkeys].
    intros a b Hab. now injection Hab.
  - apply Forall_forall. intros v Hin.
    unfold map_values in Hin. apply list_elem_of_fmap in Hin.
    destruct Hin as (kv & -> & Hin).
    destruct (Hv kv Hin) as (q & Hqin & _ & ->).
    destruct (Hq q Hqin) as [Hp Hs]. split.
    + apply orb_true_iff. right.
      now apply (string_prefix_app "review-" "review-").
    + intros t' Ht' Hends. apply (Hs t' Ht').
      now apply review_id_unstamped.
Qed.

(** One step keeps the identifiers distinct, if its time stamp is not
    earlier than those used so far. *)
Lemma ids_before_processAnswer (t now : Z) userVal isTimeout s :
  (0 <= t)%Z -> (t <= now)%Z ->
  ids_before t (questionQueue s) ->
  ids_before (now + 1) (questionQueue (processAnswer userVal isTimeout now s)).
Proof.
  intros Ht Hnow Hs.
  destruct (questionQueue s !! currentQIndex s) as [currentQ |] eqn:Hq.
  2: { rewrite processAnswer_absent by assumption.
       apply (ids_before_mono t); [lia | exact Hs]. }
  destruct (isCorrect userVal isTimeout currentQ) eqn:Hc.
  - rewrite (processAnswer_correct _ _ _ _ currentQ Hq Hc). cbn.
    apply (ids_before_mono t); [lia | exact Hs].
  - rewrite (processAnswer_incorrect _ _ _ _ currentQ Hq Hc). cbn.
    apply (ids_before_retry t); try assumption.
    eapply list_elem_of_lookup_2; eassumption.
Qed.

Lemma step_ids_before s e s' (t : Z) :
  step s e s' -> (0 <= t)%Z ->
  ids_before t (questionQueue s) ->
  match event_time e with
  | Some now => (t <= now)%Z -> ids_before (now + 1) (questionQueue s')
  | None => ids_before t (questionQueue s')
  end.
Proof.
  intros Hstep Ht Hs.
  assert (Hsame : match event_time e with
                  | Some now => (t <= now)%Z -> ids_before (now + 1) (questionQueue s)
                  | None => ids_before t (questionQueue s)
                  end).
  { destruct (event_time e); [| exact Hs].
    intros Hle. apply (ids_before_mono t); [lia | exact Hs]. }
  destruct Hstep; try exact Hsame; cbn [event_time] in *.
  - intros Hle. apply ids_before_generated. lia.
  - intros Hle.
    destruct (handleInput_outcome (key_text k) now s)
      as [| q Hf Hq Hne Hlt | q Hf Hq Heq]; try (now apply Hsame).
    apply (ids_before_processAnswer t); try assumption.
    cbn. now apply ids_before_insert.
  - unfold handleDelete. now destruct (feedback s).
  - intros Hle. now apply (ids_before_processAnswer t).
  - intros Hle. unfold startReview.
    destruct (_ <? _)%nat; [| now apply Hsame]. cbn.
    apply (ids_before_mono t); [lia |]. now apply ids_before_review.
  - intros Hle. unfold nextQuestion. destruct (_ <=? _)%Z; now apply Hsame.
Qed.

Lemma run_ids_before events :
  forall (t : Z) s,
    (0 <= t)%Z -> chronological t events ->
    ids_before t (questionQueue s) ->
    (t <= time_after t events)%Z /\
    ids_before (time_after t events) (questionQueue (run events s)).
Proof.
  induction events as [| e events IH]; intros t s Ht Hchr Hs; cbn in *.
  - split; [lia | exact Hs].
  - pose proof (step_ids_before s e _ t (dispatch_step e s) Ht Hs) as Hstep.
    destruct (event_time e) as [now |].
    + destruct Hchr as [Hle Hchr].
      destruct (IH (now + 1)%Z (dispatch e s)) as [Hle' Hids];
        [lia | exact Hchr | now apply Hstep |].
      split; [lia | exact Hids].
    + now apply IH.
Qed.

Lemma ids_before_initial (t : Z) : ids_before t (questionQueue initial).
Proof. split; cbn; constructor. Qed.

(** In every state reached by events in chronological order the
    identifiers of the queue are pairwise different. *)
Lemma reachable_ids_distinct events :
  chronological 0 events ->
  NoDup (map id (questionQueue (run events initial))).
Proof.
  intros Hchr.
  destruct (run_ids_before events 0%Z initial) as [_ [Hnd _]];
    [lia | exact Hchr | apply ids_before_initial | exact Hnd].
Qed.

(** * The claims *)

(** ** The question generator *)

(** C5.  Every division question of a generated batch, for a target number
    that is [null] or one of 1..10, has a non-zero [num2] and
    [num1 = correctAnswer * num2]: [num1 / num2] is exact (remainder 0, on
    integers and on rationals) and equals [correctAnswer]. *)
Theorem C5_division_is_exact random clock operation0 targetNumber count i q :
  unit_interval random ->
  table targetNumber ->
  generateQuestionBatch random clock operation0 targetNumber count !! i = Some q ->
  operation q = DIVISION ->
  num2 q <> 0%Z /\
  num1 q = (correctAnswer q * num2 q)%Z /\
  (num1 q mod num2 q = 0)%Z /\
  (num1 q / num2 q = correctAnswer q)%Z /\
  (inject_Z (num1 q) / inject_Z (num2 q) == inject_Z (correctAnswer q))%Q.
Proof.
  intros Hr Ht Hq Hop.
  pose proof (generateQuestionBatch_generated random clock operation0 targetNumber count Hr Ht) as Hall.
  eapply Forall_lookup_1 in Hall; [| exact Hq].
  destruct Hall as (_ & _ & _ & a & b & Ha & Hb & Hbuilt).
  unfold built_from in Hbuilt. rewrite Hop in Hbuilt.
  destruct Hbuilt as (H1 & H2 & H3).
  assert (Hb' : (1 <= b <= 10)%Z).
  { destruct targetNumber as [t |]; [subst b; exact Ht | exact Hb]. }
  rewrite H1, H2, H3.
  repeat split.
  - lia.
  - apply Z.mod_mul. lia.
  - apply Z.div_mul. lia.
  - rewrite inject_Z_mult. field.
    intros Hz. unfold Qeq in Hz. cbn in Hz. lia.
Qed.

Lemma C5_division_is_exact_witness :
  let q := {| id := "q-1000-1"; num1 := 7; num2 := 7; operation := DIVISION;
              correctAnswer := 1; userAnswer := None; isRetry := false |} in
  generateQuestionBatch demo_random demo_clock DIVISION (Some 7%Z) 3 !! 1 = Some q /\
  num2 q <> 0%Z /\
  num1 q = (correctAnswer q * num2 q)%Z /\
  (num1 q mod num2 q = 0)%Z /\
  (num1 q / num2 q = correctAnswer q)%Z /\
  (inject_Z (num1 q) / inject_Z (num2 q) == inject_Z (correctAnswer q))%Q.
Proof.
  intros q. split; [reflexivity |].
  apply (C5_division_is_exact demo_random demo_clock DIVISION (Some 7%Z) 3 1 q).
  - exact demo_random_unit.
  - cbn. lia.
  - reflexivity.
  - reflexivity.
Defined.

(** C6.  Every question of a generated batch, for a target number that is
    [null] or one of 1..10, has [correctAnswer >= 0], whatever its operation.
    A subtraction has the larger of the two sampled operands first and the
    smaller second, and [correctAnswer = num1 - num2 >= 0]. *)
Theorem C6_answer_is_nonnegative random clock operation0 targetNumber count i q :
  unit_interval random ->
  table targetNumber ->
  generateQuestionBatch random clock operation0 targetNumber count !! i = Some q ->
  (0 <= correctAnswer q)%Z /\
  (operation q = SUBTRACTION ->
   (exists a b : Z, num1 q = Z.max a b /\ num2 q = Z.min a b) /\
   (num2 q <= num1 q)%Z /\
   correctAnswer q = (num1 q - num2 q)%Z /\
   (0 <= num1 q - num2 q)%Z).
Proof.
  intros Hr Ht Hq.
  pose proof (generateQuestionBatch_generated random clock operation0 targetNumber count Hr Ht) as Hall.
  eapply Forall_lookup_1 in Hall; [| exact Hq].
  destruct Hall as (_ & _ & _ & a & b & Ha & Hb & Hbuilt).
  assert (Hb' : (1 <= b <= 10)%Z).
  { destruct targetNumber as [t |]; [subst b; exact Ht | exact Hb]. }
  unfold built_from in Hbuilt.
  destruct (operation q) eqn:Hop.
  - destruct Hbuilt as [-> _]. split; [lia | discriminate].
  - destruct Hbuilt as (H1 & H2 & H3). split; [lia |].
    intros _. split; [exists a, b; now split |]. lia.
  - destruct Hbuilt as [-> _]. split; [nia | discriminate].
  - destruct Hbuilt as (_ & _ & ->). split; [lia | discriminate].
  - contradiction.
Qed.

Lemma C6_answer_is_nonnegative_witness :
  let q := {| id := "q-1000-0"; num1 := 7; num2 := 4; operation := SUBTRACTION;
              correctAnswer := 3; userAnswer := None; isRetry := false |} in
  generateQuestionBatch demo_random demo_clock SUBTRACTION (Some 7%Z) 2 !! 0 = Some q /\
  (0 <= correctAnswer q)%Z /\
  (operation q = SUBTRACTION ->
   (exists a b : Z, num1 q = Z.max a b /\ num2 q = Z.min a b) /\
   (num2 q <= num1 q)%Z /\
   correctAnswer q = (num1 q - num2 q)%Z /\
   (0 <= num1 q - num2 q)%Z).
Proof.
  intros q. split; [reflexivity |].
  apply (C6_answer_is_nonnegative demo_random demo_clock SUBTRACTION (Some 7%Z) 2 0 q).
  - exact demo_random_unit.
  - cbn. lia.
  - reflexivity.
Defined.

(** ** Scoring *)

(** C2.  When [processAnswer] scores the current question as not correct -
    a wrong value, or a timeout whatever was passed or typed -
    [wrongCount] grows by exactly 1 and the queue by exactly one entry, put
    at its end behind the untouched entries: a copy of the current question
    whose [id] is the current one extended by ["-retry-"] and the time stamp
    (so a different one), with [isRetry = true] and no [userAnswer].  A
    submission counts as correct exactly when it is not a timeout and its
    value is [correctAnswer]; a timeout never does, and what it leaves in the
    queue and the counters is what any other wrong submission leaves, and
    does not depend on the input buffer.  On the play screen the two
    submissions are the countdown running out and the key press that
    completes a wrong answer; the latter records the value in the current
    entry first, and the retry carries none.  In a run whose events carry
    increasing values of [Date.now()], the [id] of the retry is different
    from every [id] in the queue. *)
Theorem C2_wrong_answer_appends_retry s currentQ now :
  questionQueue s !! currentQIndex s = Some currentQ ->
  (forall userVal isTimeout,
     isCorrect userVal isTimeout currentQ = false ->
     let s' := processAnswer userVal isTimeout now s in
     wrongCount (sessionStats s') = wrongCount (sessionStats s) + 1 /\
     correctCount (sessionStats s') = correctCount (sessionStats s) /\
     length (questionQueue s') = length (questionQueue s) + 1 /\
     (forall j, j < length (questionQueue s) ->
                questionQueue s' !! j = questionQueue s !! j) /\
     (exists retry,
        questionQueue s' = questionQueue s ++ [retry] /\
        last (questionQueue s') = Some retry /\
        id retry = (id currentQ ++ "-retry-" ++ toString now)%string /\
        id retry <> id currentQ /\
        isRetry retry = true /\
        userAnswer retry = None /\
        num1 retry = num1 currentQ /\ num2 retry = num2 currentQ /\
        operation retry = operation currentQ /\
        correctAnswer retry = correctAnswer currentQ) /\
     (let t0 := processAnswer None true now s in
      questionQueue s' = questionQueue t0 /\ sessionStats s' = sessionStats t0)) /\
  (forall v t q, isCorrect (Some (Num v)) t q = true <->
                 t = false /\ v = correctAnswer q) /\
  (forall v q, isCorrect v true q = false) /\
  (forall v f,
     let t := processAnswer v true now (setUserInput f s) in
     let t0 := processAnswer None true now s in
     questionQueue t = questionQueue t0 /\ sessionStats t = sessionStats t0) /\
  (gameState s = PLAYING -> feedback s = None ->
   let t := dispatch (TimeUp now) s in
   t = processAnswer None true now s /\ feedback t = Some timeout) /\
  (forall k,
     gameState s = PLAYING -> feedback s = None ->
     String.length (userInput s ++ key_text k) =
     String.length (toString (correctAnswer currentQ)) ->
     parseInt (userInput s ++ key_text k) <> Num (correctAnswer currentQ) ->
     let t := dispatch (Press k now) s in
     feedback t = Some wrong /\
     wrongCount (sessionStats t) = wrongCount (sessionStats s) + 1 /\
     correctCount (sessionStats t) = correctCount (sessionStats s) /\
     length (questionQueue t) = length (questionQueue s) + 1 /\
     last (questionQueue t) = Some (retryQ currentQ now) /\
     (forall j, j < length (questionQueue s) -> j <> currentQIndex s ->
                questionQueue t !! j = questionQueue s !! j) /\
     questionQueue t !! currentQIndex s =
       Some (withUserAnswer (Some (parseInt (userInput s ++ key_text k))) currentQ)) /\
  (forall events,
     s = run events initial ->
     chronological 0 events ->
     (time_after 0 events <= now)%Z ->
     ~ In (id (retryQ currentQ now)) (map id (questionQueue s)) /\
     NoDup (map id (questionQueue s ++ [retryQ currentQ now]))).
Proof.
  intros Hq.
  pose proof (processAnswer_incorrect None true now s currentQ Hq eq_refl) as Ht0.
  split; [| split; [| split; [| split; [| split; [| split]]]]].
  - intros userVal isTimeout Hc s'. subst s'.
    rewrite (processAnswer_incorrect _ _ _ _ currentQ Hq Hc). cbn.
    split; [reflexivity |]. split; [reflexivity |].
    split; [rewrite length_app; cbn; lia |].
    split; [intros j Hj; now apply lookup_app_l |].
    split.
    + exists (retryQ currentQ now).
      split; [reflexivity |]. split; [apply last_snoc |].
      split; [reflexivity |]. split; [apply retryQ_id_new |].
      repeat split.
    + rewrite Ht0. split; reflexivity.
  - intros v t q. apply isCorrect_spec.
  - intros v q. reflexivity.
  - intros v f. cbn zeta.
    rewrite (processAnswer_incorrect v true now (setUserInput f s) currentQ Hq eq_refl).
    rewrite Ht0. split; reflexivity.
  - intros Hg Hf t. subst t. cbn [dispatch]. rewrite Hg, Hq, Hf.
    split; [reflexivity |]. now rewrite Ht0.
  - intros k Hg Hf Hlen Hval t. subst t.
    cbn [dispatch]. rewrite Hg, Hq, Hf.
    assert (Hroom : String.length (userInput s) <
                    String.length (toString (correctAnswer currentQ))).
    { rewrite string_length_app, key_text_length in Hlen. lia. }
    rewrite (handleInput_submit _ _ _ currentQ Hf Hq Hroom Hlen).
    pose proof (answered_lookup (key_text k) currentQ s Hq) as Hq'.
    set (userVal := parseInt (userInput s ++ key_text k)) in *.
    assert (Hc : isCorrect (Some userVal) false (withUserAnswer (Some userVal) currentQ) = false).
    { unfold isCorrect. cbn. destruct userVal as [z |]; [| reflexivity].
      cbn. apply Z.eqb_neq. congruence. }
    rewrite (processAnswer_incorrect _ _ _ _ _ Hq' Hc). cbn.
    pose proof (lookup_lt_Some _ _ _ Hq) as Hidx.
    split; [reflexivity |]. split; [reflexivity |]. split; [reflexivity |].
    split; [rewrite length_app, length_insert; cbn; lia |].
    split; [apply last_snoc |].
    split.
    + intros j Hj Hne.
      rewrite lookup_app_l by (now rewrite length_insert).
      now apply list_lookup_insert_ne.
    + rewrite lookup_app_l by (now rewrite length_insert).
      now apply list_lookup_insert_eq.
  - intros events -> Hchr Hnow.
    destruct (run_ids_before events 0%Z initial) as [Hle Hids];
      [lia | exact Hchr | apply ids_before_initial |].
    assert (Hin : currentQ ∈ questionQueue (run events initial))
      by (eapply list_elem_of_lookup_2; eassumption).
    destruct (ids_before_retry _ now _ currentQ Hle Hnow Hids Hin) as [Hnd _].
    split; [| exact Hnd].
    rewrite map_app in Hnd. apply NoDup_app in Hnd.
    destruct Hnd as (_ & Hfresh & _).
    intros Hold. apply list_elem_of_In in Hold.
    apply (Hfresh _ Hold). now left.
Qed.

(** C7.  A key press that completes the correct answer of the current
    question adds exactly 1 to [correctCount], leaves [wrongCount] alone and
    does not grow the queue: the queue is the old one with the answer
    recorded in the current entry, every other entry and every other field
    of the current entry unchanged.  [processAnswer] itself, scoring a
    correct value, leaves the queue as it is. *)
Theorem C7_correct_answer_keeps_queue s currentQ k now :
  gameState s = PLAYING ->
  feedback s = None ->
  questionQueue s !! currentQIndex s = Some currentQ ->
  String.length (userInput s ++ key_text k) =
  String.length (toString (correctAnswer currentQ)) ->
  parseInt (userInput s ++ key_text k) = Num (correctAnswer currentQ) ->
  let s' := dispatch (Press k now) s in
  correctCount (sessionStats s') = correctCount (sessionStats s) + 1 /\
  wrongCount (sessionStats s') = wrongCount (sessionStats s) /\
  feedback s' = Some correct /\
  length (questionQueue s') = length (questionQueue s) /\
  (forall j, j <> currentQIndex s -> questionQueue s' !! j = questionQueue s !! j) /\
  questionQueue s' !! currentQIndex s =
    Some (withUserAnswer (Some (Num (correctAnswer currentQ))) currentQ) /\
  (forall userVal,
     isCorrect userVal false currentQ = true ->
     let t := processAnswer userVal false now s in
     questionQueue t = questionQueue s /\
     correctCount (sessionStats t) = correctCount (sessionStats s) + 1 /\
     wrongCount (sessionStats t) = wrongCount (sessionStats s)).
Proof.
  intros Hg Hf Hq Hlen Hval s'. subst s'.
  cbn. rewrite Hg, Hq, Hf.
  assert (Hroom : String.length (userInput s) <
                  String.length (toString (correctAnswer currentQ))).
  { rewrite string_length_app, key_text_length in Hlen. lia. }
  rewrite (handleInput_submit _ _ _ currentQ Hf Hq Hroom Hlen).
  pose proof (answered_lookup (key_text k) currentQ s Hq) as Hq'.
  rewrite Hval in *.
  assert (Hc : isCorrect (Some (Num (correctAnswer currentQ))) false
                 (withUserAnswer (Some (Num (correctAnswer currentQ))) currentQ) = true).
  { apply isCorrect_spec. now split. }
  rewrite (processAnswer_correct _ _ _ _ _ Hq' Hc). cbn.
  split; [reflexivity |]. split; [reflexivity |]. split; [reflexivity |].
  split; [apply length_insert |].
  split; [intros j Hj; rewrite Hval; now apply list_lookup_insert_ne |].
  split.
  - rewrite Hval. apply list_lookup_insert_eq. now apply lookup_lt_Some in Hq.
  - intros userVal Hcu.
    rewrite (processAnswer_correct userVal false now s currentQ Hq Hcu). repeat split.
Qed.

Lemma C2_wrong_answer_appends_retry_witness :
  let s := run one_digit_typed initial in
  let s' := processAnswer None true 12600 s in
  questionQueue s !! currentQIndex s = Some second_question /\
  wrongCount (sessionStats s') = wrongCount (sessionStats s) + 1 /\
  correctCount (sessionStats s') = correctCount (sessionStats s) /\
  length (questionQueue s') = length (questionQueue s) + 1.
Proof.
  intros s s'.
  assert (Hq : questionQueue s !! currentQIndex s = Some second_question)
    by (vm_compute; reflexivity).
  split; [exact Hq |].
  destruct (C2_wrong_answer_appends_retry s second_question 12600 Hq) as [Hscore _].
  destruct (Hscore None true eq_refl) as (Hw & Hr & Hl & _).
  split; [exact Hw |]. split; [exact Hr | exact Hl].
Defined.

Lemma C7_correct_answer_keeps_queue_witness :
  let s := run one_digit_typed initial in
  let s' := dispatch (Press K0 4100) s in
  gameState s = PLAYING /\
  feedback s = None /\
  questionQueue s !! currentQIndex s = Some second_question /\
  String.length (userInput s ++ key_text K0) =
  String.length (toString (correctAnswer second_question)) /\
  parseInt (userInput s ++ key_text K0) = Num (correctAnswer second_question) /\
  correctCount (sessionStats s') = correctCount (sessionStats s) + 1 /\
  wrongCount (sessionStats s') = wrongCount (sessionStats s) /\
  feedback s' = Some correct /\
  length (questionQueue s') = length (questionQueue s).
Proof.
  intros s s'.
  assert (Hg : gameState s = PLAYING) by (vm_compute; reflexivity).
  assert (Hf : feedback s = None) by (vm_compute; reflexivity).
  assert (Hq : questionQueue s !! currentQIndex s = Some second_question)
    by (vm_compute; reflexivity).
  assert (Hl : String.length (userInput s ++ key_text K0) =
               String.length (toString (correctAnswer second_question)))
    by (vm_compute; reflexivity).
  assert (Hv : parseInt (userInput s ++ key_text K0) = Num (correctAnswer second_question))
    by (vm_compute; reflexivity).
  repeat (split; [assumption |]).
  destruct (C7_correct_answer_keeps_queue s second_question K0 4100 Hg Hf Hq Hl Hv)
    as (H1 & H2 & H3 & H4 & _).
  repeat (split; [assumption |]). assumption.
Defined.

(** ** The input buffer *)

(** C9.  In every state reached on the play screen with a current question,
    the input buffer holds digits typed on the keypad, is no longer than
    the decimal text of the correct answer, and is strictly shorter as long
    as the question waits for input: a buffer of full length is never left
    unscored.  The key press that brings the buffer to the full length is
    itself the submission: [parseInt] reads the buffer as the integer its
    digits spell in base ten, that integer is recorded as the answer of the
    current entry and scored by [processAnswer], and the feedback says
    whether it equals the correct answer. *)
Theorem C9_buffer_capped_and_auto_submitted events currentQ :
  let s := run events initial in
  gameState s = PLAYING ->
  questionQueue s !! currentQIndex s = Some currentQ ->
  exists keys,
    userInput s = keys_text keys /\
    String.length (userInput s) <= String.length (toString (correctAnswer currentQ)) /\
    (feedback s = None ->
     String.length (userInput s) < String.length (toString (correctAnswer currentQ))) /\
    (forall k now,
       feedback s = None ->
       S (String.length (userInput s)) = String.length (toString (correctAnswer currentQ)) ->
       let typed_value := keys_value (keys ++ [k]) in
       let s' := dispatch (Press k now) s in
       parseInt (userInput s ++ key_text k) = Num typed_value /\
       (0 <= typed_value)%Z /\
       s' = processAnswer (Some (Num typed_value)) false now
              (answered (key_text k) currentQ s) /\
       userInput s' = (userInput s ++ key_text k)%string /\
       (exists q', questionQueue s' !! currentQIndex s = Some q' /\
                   userAnswer q' = Some (Num typed_value)) /\
       feedback s' = Some (if (typed_value =? correctAnswer currentQ)%Z
                           then correct else wrong) /\
       correctCount (sessionStats s') + wrongCount (sessionStats s') =
       S (correctCount (sessionStats s) + wrongCount (sessionStats s))).
Proof.
  intros s Hg Hq.
  pose proof (reachable_buffer_fits s (ex_intro _ events eq_refl)) as Hfit.
  unfold buffer_fits in Hfit. rewrite Hq in Hfit. destruct Hfit as [Hle Hlt].
  destruct (reachable_buffer_typed s (ex_intro _ events eq_refl)) as [keys Hkeys].
  exists keys. split; [exact Hkeys |].
  split; [exact Hle |]. split; [exact Hlt |].
  intros k now Hf Hfull typed_value s'. subst s'.
  assert (Hparse : parseInt (userInput s ++ key_text k) = Num typed_value).
  { rewrite Hkeys, <- keys_text_snoc. apply parseInt_keys.
    intros Hnil. apply app_eq_nil in Hnil. destruct Hnil as [_ Hnil]. discriminate. }
  split; [exact Hparse |].
  split; [apply keys_value_nonneg |].
  assert (Hlen : String.length (userInput s ++ key_text k) =
                 String.length (toString (correctAnswer currentQ)))
    by (rewrite string_length_app, key_text_length; lia).
  assert (Hroom : String.length (userInput s) <
                  String.length (toString (correctAnswer currentQ))) by lia.
  cbn [dispatch]. rewrite Hg, Hq, Hf.
  rewrite (handleInput_submit _ _ _ currentQ Hf Hq Hroom Hlen).
  pose proof (answered_lookup (key_text k) currentQ s Hq) as Hq'.
  rewrite Hparse in *.
  split; [reflexivity |].
  assert (Hc : isCorrect (Some (Num typed_value)) false
                 (withUserAnswer (Some (Num typed_value)) currentQ)
               = (typed_value =? correctAnswer currentQ)%Z) by reflexivity.
  destruct (typed_value =? correctAnswer currentQ)%Z.
  - rewrite (processAnswer_correct _ _ _ _ _ Hq' Hc). cbn.
    split; [reflexivity |]. split; [| split; [reflexivity | lia]].
    eexists. split; [apply list_lookup_insert_eq; now apply lookup_lt_Some in Hq |].
    cbn. now rewrite Hparse.
  - rewrite (processAnswer_incorrect _ _ _ _ _ Hq' Hc). cbn.
    split; [reflexivity |]. split; [| split; [reflexivity | lia]].
    eexists. split.
    + rewrite lookup_app_l by (rewrite length_insert; now apply lookup_lt_Some in Hq).
      apply list_lookup_insert_eq. now apply lookup_lt_Some in Hq.
    + cbn. now rewrite Hparse.
Qed.

Lemma C9_buffer_capped_and_auto_submitted_witness :
  let s := run one_digit_typed initial in
  gameState s = PLAYING /\
  questionQueue s !! currentQIndex s = Some second_question /\
  exists keys,
    userInput s = keys_text keys /\
    String.length (userInput s) <= String.length (toString (correctAnswer second_question)) /\
    (feedback s = None ->
     String.length (userInput s) < String.length (toString (correctAnswer second_question))).
Proof.
  intros s.
  assert (Hg : gameState s = PLAYING) by (vm_compute; reflexivity).
  assert (Hq : questionQueue s !! currentQIndex s = Some second_question)
    by (vm_compute; reflexivity).
  split; [exact Hg |]. split; [exact Hq |].
  destruct (C9_buffer_capped_and_auto_submitted one_digit_typed second_question Hg Hq)
    as (keys & H0 & H1 & H2 & _).
  exists keys. split; [exact H0 |]. split; [exact H1 | exact H2].
Defined.

(** ** Timeouts and the review set *)

(** C10.  A question whose countdown runs out while it waits for input (so
    with fewer digits typed than its answer has: the buffer of full length
    is scored at once) has no [userAnswer]; the timeout counts it as wrong
    and pushes its retry, and leaves the entry as it is.  The entry stays so
    until the next session starts, and the wrong questions derived from the
    queue, on the results screen and in [startReview], do not hold it: they
    are what the queue without that entry yields. *)
Theorem C10_timed_out_question_not_reviewed events later now currentQ :
  let s := run events initial in
  gameState s = PLAYING ->
  feedback s = None ->
  questionQueue s !! currentQIndex s = Some currentQ ->
  forallb (fun e => negb (starts_session e)) later = true ->
  let s1 := dispatch (TimeUp now) s in
  let s2 := run later s1 in
  String.length (userInput s) < String.length (toString (correctAnswer currentQ)) /\
  userAnswer currentQ = None /\
  wrongCount (sessionStats s1) = wrongCount (sessionStats s) + 1 /\
  questionQueue s1 = questionQueue s ++ [retryQ currentQ now] /\
  questionQueue s1 !! currentQIndex s = Some currentQ /\
  questionQueue s2 !! currentQIndex s = Some currentQ /\
  ~ In currentQ (wrongQuestions (questionQueue s2)) /\
  (forall store,
     wrongQuestionsMap store (questionQueue s2) =
     wrongQuestionsMap store (delete (currentQIndex s) (questionQueue s2))).
Proof.
  intros s Hg Hf Hq Hlater s1 s2.
  assert (Hreach : reachable s) by (now exists events).
  pose proof (reachable_buffer_fits s Hreach) as Hfit.
  unfold buffer_fits in Hfit. rewrite Hq in Hfit. destruct Hfit as [_ Hlt].
  assert (Hun : userAnswer currentQ = None).
  { apply (reachable_unanswered_ahead s Hreach (currentQIndex s) currentQ Hq).
    right. now repeat split. }
  assert (Hs1 : s1 = processAnswer None true now s).
  { subst s1. cbn [dispatch]. now rewrite Hg, Hq, Hf. }
  pose proof (processAnswer_incorrect None true now s currentQ Hq eq_refl) as Hp.
  assert (Hq1 : questionQueue s1 !! currentQIndex s = Some currentQ).
  { rewrite Hs1, Hp. cbn.
    rewrite lookup_app_l by (now apply lookup_lt_Some in Hq). exact Hq. }
  assert (Hset : settled (currentQIndex s) currentQ s1).
  { rewrite Hs1 in *. rewrite Hp in *. cbn in *.
    repeat split; cbn; [exact Hq1 | lia | right; left; discriminate]. }
  pose proof (run_settled later _ _ Hlater s1 Hset) as (Hq2 & _).
  fold s2 in Hq2.
  split; [auto |]. split; [exact Hun |].
  split; [now rewrite Hs1, Hp |]. split; [now rewrite Hs1, Hp |].
  split; [exact Hq1 |]. split; [exact Hq2 |].
  split.
  - intros Hin. apply list_elem_of_In in Hin.
    pose proof (wrongQuestions_answeredWrong (questionQueue s2)) as Hall.
    rewrite Forall_forall in Hall. specialize (Hall _ Hin).
    rewrite (unanswered_not_wrong _ Hun) in Hall. discriminate.
  - intros store. unfold wrongQuestionsMap.
    apply fold_collect_delete with currentQ; [exact Hq2 |].
    now apply unanswered_not_wrong.
Qed.

Lemma C10_timed_out_question_not_reviewed_witness :
  let later := [Fire 0 15100%Z; Press K1 17000%Z; Press K8 17000%Z; Fire 0 17600%Z] in
  let s := run one_digit_typed initial in
  let s2 := run later (dispatch (TimeUp 12600) s) in
  gameState s = PLAYING /\
  feedback s = None /\
  questionQueue s !! currentQIndex s = Some second_question /\
  forallb (fun e => negb (starts_session e)) later = true /\
  userInput s = "1"%string /\
  questionQueue s2 !! currentQIndex s = Some second_question /\
  ~ In second_question (wrongQuestions (questionQueue s2)).
Proof.
  intros later s s2.
  assert (Hg : gameState s = PLAYING) by (vm_compute; reflexivity).
  assert (Hf : feedback s = None) by (vm_compute; reflexivity).
  assert (Hq : questionQueue s !! currentQIndex s = Some second_question)
    by (vm_compute; reflexivity).
  assert (Hl : forallb (fun e => negb (starts_session e)) later = true) by reflexivity.
  repeat (split; [assumption |]).
  split; [vm_compute; reflexivity |].
  destruct (C10_timed_out_question_not_reviewed one_digit_typed later 12600
              second_question Hg Hf Hq Hl) as (_ & _ & _ & _ & _ & H2 & H3 & _).
  split; [exact H2 | exact H3].
Defined.

(** ** Session statistics *)

(** C8.  [startGame] sets [totalQuestions] to the size of the batch the
    session starts with and [startTime] to the time of the start, and
    nothing changes either until the next session starts: the queue grows
    by one entry for every wrong answer while [totalQuestions] stays.  For
    a session of at least one question the average of the results screen
    is the time elapsed since the start, [endTime - startTime], divided by
    that original batch size - not by the number of answers scored - and
    it is shown in seconds. *)
Theorem C8_total_is_fixed_and_divides_the_time random clock now customQueue s events :
  forallb (fun e => negb (starts_session e)) events = true ->
  let s0 := startGame random clock now customQueue s in
  let s1 := run events s0 in
  let batch := length (questionQueue s0) in
  totalQuestions (sessionStats s0) = batch /\
  (customQueue = None -> batch = 10) /\
  totalQuestions (sessionStats s1) = batch /\
  startTime (sessionStats s1) = now /\
  length (questionQueue s1) = batch + wrongCount (sessionStats s1) /\
  (1 <= batch ->
   exists average : Q,
     (average * inject_Z (Z.of_nat batch) == inject_Z (endTime (sessionStats s1) - now))%Q /\
     avgTime (sessionStats s1) = Finite (average / 1000)).
Proof.
  intros Hev s0 s1 batch.
  assert (H0 : totalQuestions (sessionStats s0) = batch) by reflexivity.
  destruct (run_same_session events Hev s0) as [Htot Hstart]. fold s1 in Htot, Hstart.
  assert (Hcount : queue_counts s1).
  { apply run_invariant; [apply step_queue_counts | apply queue_counts_startGame]. }
  split; [exact H0 |]. split.
  { intros ->. subst batch s0. cbn. apply generateQuestionBatch_length. }
  split; [congruence |]. split; [exact Hstart |]. split.
  { unfold queue_counts in Hcount. rewrite Hcount. congruence. }
  intros Hbatch.
  exists (inject_Z (endTime (sessionStats s1) - now) / inject_Z (Z.of_nat batch))%Q.
  split.
  - apply quotient_times_divisor. lia.
  - unfold avgTime, js_div. rewrite Htot, H0, Hstart.
    destruct (Z.eqb_spec (Z.of_nat batch) 0) as [Hz | _]; [lia | reflexivity].
Qed.

Lemma C8_total_is_fixed_and_divides_the_time_witness :
  let events := tail twice_wrong_retry in
  let s1 := run events (startGame demo_random demo_clock 1000 None initial) in
  forallb (fun e => negb (starts_session e)) events = true /\
  gameState s1 = RESULTS /\
  totalQuestions (sessionStats s1) = 10 /\
  correctCount (sessionStats s1) + wrongCount (sessionStats s1) = 13 /\
  length (questionQueue s1) = 10 + wrongCount (sessionStats s1) /\
  exists average : Q,
    (average * inject_Z 10 == inject_Z (endTime (sessionStats s1) - 1000))%Q /\
    avgTime (sessionStats s1) = Finite (average / 1000).
Proof.
  intros events s1.
  assert (Hev : forallb (fun e => negb (starts_session e)) events = true) by reflexivity.
  split; [exact Hev |].
  destruct (C8_total_is_fixed_and_divides_the_time demo_random demo_clock 1000 None
              initial events Hev) as (_ & Hten & Htot & _ & Hlen & Havg).
  specialize (Hten eq_refl).
  split; [vm_compute; reflexivity |].
  split; [rewrite <- Hten; exact Htot |].
  split; [vm_compute; reflexivity |].
  split; [rewrite <- Hten; exact Hlen |].
  rewrite Hten in Havg. apply Havg. lia.
Defined.

(** ** Scheduled callbacks *)

(** No handler cancels a scheduled callback: across every event other than
    a callback's own run, the callbacks that were pending are still pending,
    in the same order.  A pending callback that runs, whatever is on
    screen, leaves the list, clears the feedback and the input buffer, and
    either completes the session (the results screen, with [endTime] set)
    or moves [currentQIndex] one further, as the queue and the index of the
    render it was scheduled in decide. *)
Lemma callbacks_stay_until_they_run s :
  (forall e, (forall n now, e <> Fire n now) ->
             exists added, timers (dispatch e s) = timers s ++ added) /\
  (forall n cb now,
     timers s !! n = Some cb ->
     let s' := dispatch (Fire n now) s in
     timers s' = delete n (timers s) /\
     feedback s' = None /\
     userInput s' = ""%string /\
     questionQueue s' = questionQueue s /\
     if (Z.of_nat (length (seen_questionQueue cb)) - 1 <=? Z.of_nat (seen_currentQIndex cb))%Z
     then gameState s' = RESULTS /\
          endTime (sessionStats s') = now /\
          currentQIndex s' = currentQIndex s
     else gameState s' = gameState s /\
          currentQIndex s' = currentQIndex s + 1).
Proof.
  split.
  - intros e He. eapply step_keeps_timers; [apply dispatch_step | exact He].
  - intros n cb now Hcb s'. subst s'. cbn [dispatch]. rewrite Hcb.
    unfold nextQuestion.
    destruct (_ <=? _)%Z; cbn; repeat split.
Qed.

(** C4.  Leaving the play state does not cancel the pending feedback-delay
    callback.  In [answer_and_exit] the player answers the first question
    and leaves for the menu during the feedback delay: the callback is
    still pending on the menu, and when it runs 600 ms after the answer it
    clears the feedback and moves the index from 0 to 1.  In
    [finish_and_exit] the same happens on the last question: the callback
    sets [endTime] and takes the menu to the results screen. *)
Theorem C4_stale_callback_runs_after_exit :
  let s := run answer_and_exit initial in
  let s' := dispatch (Fire 0 2600) s in
  let t := run finish_and_exit initial in
  let t' := dispatch (Fire 0 20600) t in
  (gameState s = MENU /\ length (timers s) = 1 /\
   currentQIndex s = 0 /\ feedback s = Some correct /\
   gameState s' = MENU /\ currentQIndex s' = 1 /\ feedback s' = None) /\
  (gameState t = MENU /\ length (timers t) = 1 /\
   endTime (sessionStats t) = 0%Z /\
   gameState t' = RESULTS /\ endTime (sessionStats t') = 20600%Z).
Proof.
  vm_compute. repeat split.
Qed.

(** ** Complete sessions *)

(** C1, on the session [last_wrong]: ten questions, the first nine answered
    right, the countdown of the tenth running out.  The session is complete
    after these ten submissions with one of them wrong: the queue holds
    N + W = 11 entries, the last one the retry of the tenth question, which
    was never asked, and [correctCount + wrongCount] is 10. *)
Theorem C1_wrong_last_answer_ends_session :
  let s := run last_wrong initial in
  gameState s = RESULTS /\
  totalQuestions (sessionStats s) = 10 /\
  wrongCount (sessionStats s) = 1 /\
  correctCount (sessionStats s) = 9 /\
  length (questionQueue s) = 11 /\
  correctCount (sessionStats s) + wrongCount (sessionStats s) = 10 /\
  correctCount (sessionStats s) + wrongCount (sessionStats s) <>
  totalQuestions (sessionStats s) + wrongCount (sessionStats s) /\
  currentQIndex s = 9 /\
  (exists q, questionQueue s !! 10 = Some q /\
             id q = "q-1000-9-retry-28600"%string /\
             isRetry q = true /\ userAnswer q = None).
Proof.
  vm_compute. repeat split; try discriminate.
  eexists. repeat split.
Qed.

(** C3, on the session [twice_wrong_retry]: the first question times out
    with nothing typed, its retry is answered 5 and the retry of that retry
    is answered 3, the right answer being 4.  The wrong questions of the
    results screen hold both retries, two entries that stand for the one
    question ["q-1000-0"], and [startReview] queues both. *)
Theorem C3_review_set_repeats_a_question :
  let s := run twice_wrong_retry initial in
  gameState s = RESULTS /\
  map id (wrongQuestions (questionQueue s)) =
    ["q-1000-0-retry-11000"; "q-1000-0-retry-11000-retry-46000"]%string /\
  map (fun q => split_head "-retry" (id q)) (wrongQuestions (questionQueue s)) =
    ["q-1000-0"; "q-1000-0"]%string /\
  map (fun q => (num1 q, operation q, num2 q)) (wrongQuestions (questionQueue s)) =
    [(1, MULTIPLICATION, 4); (1, MULTIPLICATION, 4)]%Z /\
  map id (questionQueue (dispatch (Review 60000) s)) =
    ["review-q-1000-0-retry-11000"; "review-q-1000-0-retry-11000-retry-46000"]%string.
Proof.
  vm_compute. repeat split.
Qed.

(** * Further properties of the code *)

(** ** The generator *)

Lemma generateQuestion_isRetry random operation0 targetNumber now i n :
  isRetry (fst (generateQuestion operation0 targetNumber now i random n)) = false.
Proof.
  unfold generateQuestion, Rand.bind, Rand.floor_random, Rand.Math_random, Rand.ret.
  destruct operation0, targetNumber as [t|];
    cbn -[Qfloor Qmult inject_Z Qle_bool operations_at];
    try destruct (operations_at _);
    cbn -[Qfloor Qmult inject_Z Qle_bool];
    repeat match goal with
           | |- context [Z.ltb ?a ?b] => destruct (Z.ltb a b)
           | |- context [Qle_bool ?a ?b] => destruct (Qle_bool a b)
           end;
    reflexivity.
Qed.

Lemma generateLoop_isRetry random operation0 targetNumber clock todo :
  forall i n,
    Forall (fun q => isRetry q = false)
      (fst (generateLoop operation0 targetNumber clock todo i random n)).
Proof.
  induction todo as [| todo IH]; intros i n; cbn.
  - constructor.
  - unfold Rand.bind at 1.
    pose proof (generateQuestion_isRetry random operation0 targetNumber (clock i) i n) as Hq.
    destruct (generateQuestion operation0 targetNumber (clock i) i random n) as [q n1].
    unfold Rand.bind at 1.
    specialize (IH (S i) n1).
    destruct (generateLoop operation0 targetNumber clock todo (S i) random n1) as [qs n2].
    cbn in *. constructor; assumption.
Qed.

(** X1.  Whatever the oracle, the clock and the arguments,
    [generateQuestionBatch] returns exactly [count] questions (none for
    [count = 0]), each without a recorded answer and not marked as a retry,
    the [i]-th with the [id] ["q-<Date.now()>-<i>"]; the identifiers are
    pairwise different even when the clock does not move. *)
Theorem X1_batch_size_and_identifiers random clock operation0 targetNumber count :
  let batch := generateQuestionBatch random clock operation0 targetNumber count in
  length batch = count /\
  (count = 0 -> batch = []) /\
  (forall i q, batch !! i = Some q ->
               userAnswer q = None /\ isRetry q = false /\
               id q = ("q-" ++ toString (clock i) ++ "-" ++ toString (Z.of_nat i))%string) /\
  NoDup (map id batch).
Proof.
  intros batch.
  assert (Hlen : length batch = count) by apply generateQuestionBatch_length.
  split; [exact Hlen |]. split.
  { intros ->. destruct batch; [reflexivity | discriminate]. }
  split.
  - intros i q Hq.
    pose proof (generateQuestionBatch_unanswered random clock operation0 targetNumber count) as Hu.
    pose proof (generateLoop_isRetry random operation0 targetNumber clock count 0 0) as Hr.
    pose proof (generateLoop_ids random operation0 targetNumber clock count 0 0) as Hids.
    fold (generateQuestionBatch random clock operation0 targetNumber count) in Hr, Hids.
    fold batch in Hu, Hr, Hids.
    split; [eapply Forall_lookup_1 in Hu; eauto |].
    split; [eapply Forall_lookup_1 in Hr; eauto |].
    assert (Hi : map id batch !! i = Some (id q)).
    { change (map id batch) with (id <$> batch). now rewrite list_lookup_fmap, Hq. }
    rewrite Hids in Hi.
    change (map ?f (seq 0 count)) with (f <$> seq 0 count) in Hi.
    rewrite list_lookup_fmap in Hi.
    destruct (seq 0 count !! i) as [k |] eqn:Hk; [| discriminate].
    apply lookup_seq in Hk. destruct Hk as [-> _]. cbn in Hi. now injection Hi.
  - exact (proj1 (ids_before_generated 0 random clock operation0 targetNumber count
                    (Z.le_refl 0))).
Qed.

Lemma generated_well_posed operation0 targetNumber q :
  table targetNumber -> generated operation0 targetNumber q -> well_posed q.
Proof.
  intros Ht (_ & _ & _ & a & b & Ha & Hb & Hbuilt).
  assert (Hb' : (1 <= b <= 10)%Z).
  { destruct targetNumber as [t |]; [subst b; exact Ht | exact Hb]. }
  unfold well_posed, equation_holds. unfold built_from in Hbuilt.
  destruct (operation q).
  - destruct Hbuilt as [-> [[-> ->] | [-> ->]]]; repeat split; lia.
  - destruct Hbuilt as (-> & -> & ->); repeat split; lia.
  - destruct Hbuilt as [-> [[-> ->] | [-> ->]]]; repeat split; nia.
  - destruct Hbuilt as (-> & -> & ->); repeat split; nia.
  - contradiction.
Qed.

(** X2.  With [Math.random()] in [0, 1) and a target number that is [null]
    or one of 1..10, every generated question shows a true equation,
    whatever the operation and whether or not the operands were swapped:
    [correctAnswer] is [num1 + num2], [num1 - num2], [num1 * num2], or the
    exact quotient of [num1] by a non-zero [num2].  The operands are between
    1 and 100 ([num2] at most 10) and the answer between 0 and 100, so it has
    at most three digits. *)
Theorem X2_generated_equation_is_true random clock operation0 targetNumber count i q :
  unit_interval random ->
  table targetNumber ->
  generateQuestionBatch random clock operation0 targetNumber count !! i = Some q ->
  equation_holds q /\
  (1 <= num1 q <= 100)%Z /\ (1 <= num2 q <= 10)%Z /\
  (0 <= correctAnswer q <= 100)%Z /\
  String.length (toString (correctAnswer q)) <= 3.
Proof.
  intros Hr Ht Hq.
  pose proof (generateQuestionBatch_generated random clock operation0 targetNumber count Hr Ht) as Hall.
  eapply Forall_lookup_1 in Hall; [| exact Hq].
  destruct (generated_well_posed _ _ _ Ht Hall) as (He & H1 & H2 & H3).
  repeat (split; [assumption |]).
  assert (Hc : exists n, (n <= 100)%nat /\ correctAnswer q = Z.of_nat n).
  { exists (Z.to_nat (correctAnswer q)). split; lia. }
  destruct Hc as (n & Hn & ->). clear - Hn.
  do 101 (destruct n as [| n]; [vm_compute; lia |]). lia.
Qed.

Lemma X2_generated_equation_is_true_witness :
  let q := {| id := "q-1000-2"; num1 := 3; num2 := 6; operation := MULTIPLICATION;
              correctAnswer := 18; userAnswer := None; isRetry := false |} in
  generateQuestionBatch demo_random demo_clock MULTIPLICATION None 10 !! 2 = Some q /\
  equation_holds q /\
  (1 <= num1 q <= 100)%Z /\ (1 <= num2 q <= 10)%Z /\
  (0 <= correctAnswer q <= 100)%Z /\
  String.length (toString (correctAnswer q)) <= 3.
Proof.
  intros q. split; [vm_compute; reflexivity |].
  apply (X2_generated_equation_is_true demo_random demo_clock MULTIPLICATION None 10 2 q).
  - exact demo_random_unit.
  - exact I.
  - vm_compute; reflexivity.
Defined.

(** X3.  With [Math.random()] in [0, 1), a batch asked for one operation
    holds questions of that operation only, and a batch asked for the mix
    holds questions of the four arithmetic operations: the value [ALL] is
    never stored in a question. *)
Theorem X3_operation_of_generated_question random clock operation0 targetNumber count i q :
  unit_interval random ->
  table targetNumber ->
  generateQuestionBatch random clock operation0 targetNumber count !! i = Some q ->
  (operation0 <> ALL -> operation q = operation0) /\
  operation q <> ALL /\
  In (operation q) operations.
Proof.
  intros Hr Ht Hq.
  pose proof (generateQuestionBatch_generated random clock operation0 targetNumber count Hr Ht) as Hall.
  eapply Forall_lookup_1 in Hall; [| exact Hq].
  destruct Hall as (Hop & _ & _ & a & b & _ & _ & Hbuilt).
  split; [exact Hop |].
  unfold built_from in Hbuilt.
  destruct (operation q); try contradiction; split; try discriminate; cbn; auto.
Qed.

Lemma X3_operation_of_generated_question_witness :
  let q := {| id := "q-1000-2"; num1 := 10; num2 := 3; operation := MULTIPLICATION;
              correctAnswer := 30; userAnswer := None; isRetry := false |} in
  generateQuestionBatch demo_random demo_clock ALL None 6 !! 2 = Some q /\
  operation q <> ALL /\ In (operation q) operations.
Proof.
  intros q. split; [vm_compute; reflexivity |].
  destruct (X3_operation_of_generated_question demo_random demo_clock ALL None 6 2 q)
    as (_ & H1 & H2).
  - exact demo_random_unit.
  - exact I.
  - vm_compute; reflexivity.
  - split; assumption.
Defined.

(** X4.  With [Math.random()] in [0, 1) and the table [t] (one of 1..10) as
    target number, [t] is an operand of every generated question.  The other
    sampled number [a] is between 1 and 10: a multiplication asks for
    [a * t], a division asks for [a * t] divided by [t], an addition for
    [a + t], and a subtraction for the difference of the larger and the
    smaller of [a] and [t]. *)
Theorem X4_target_number_is_an_operand random clock operation0 t count i q :
  unit_interval random ->
  (1 <= t <= 10)%Z ->
  generateQuestionBatch random clock operation0 (Some t) count !! i = Some q ->
  (num1 q = t \/ num2 q = t) /\
  exists a : Z,
    (1 <= a <= 10)%Z /\
    match operation q with
    | ADDITION => correctAnswer q = (a + t)%Z
    | SUBTRACTION => correctAnswer q = (Z.max a t - Z.min a t)%Z
    | MULTIPLICATION => correctAnswer q = (a * t)%Z
    | DIVISION => num1 q = (a * t)%Z /\ num2 q = t /\ correctAnswer q = a
    | ALL => False
    end.
Proof.
  intros Hr Ht Hq.
  pose proof (generateQuestionBatch_generated random clock operation0 (Some t) count Hr Ht) as Hall.
  eapply Forall_lookup_1 in Hall; [| exact Hq].
  destruct Hall as (_ & _ & _ & a & b & Ha & -> & Hbuilt).
  unfold built_from in Hbuilt.
  destruct (operation q) eqn:Hop.
  - destruct Hbuilt as [Hc [[-> ->] | [-> ->]]]; (split; [auto | exists a; auto]).
  - destruct Hbuilt as (H1 & H2 & H3). split; [lia |].
    exists a. split; [exact Ha | lia].
  - destruct Hbuilt as [Hc [[-> ->] | [-> ->]]]; (split; [auto | exists a; auto]).
  - destruct Hbuilt as (H1 & H2 & H3). split; [auto | exists a; auto].
  - contradiction.
Qed.

Lemma X4_target_number_is_an_operand_witness :
  let q := {| id := "q-1000-0"; num1 := 28; num2 := 7; operation := DIVISION;
              correctAnswer := 4; userAnswer := None; isRetry := false |} in
  generateQuestionBatch demo_random demo_clock DIVISION (Some 7%Z) 3 !! 0 = Some q /\
  (num1 q = 7 \/ num2 q = 7)%Z.
Proof.
  intros q. split; [vm_compute; reflexivity |].
  destruct (X4_target_number_is_an_operand demo_random demo_clock DIVISION 7 3 0 q)
    as [H _].
  - exact demo_random_unit.
  - lia.
  - vm_compute; reflexivity.
  - exact H.
Defined.

(** ** [formatTime] *)

Lemma toString_digits (z : Z) :
  (0 <= z)%Z ->
  Forall (fun c => digit_value c <> None) (list_ascii_of_string (toString z)).
Proof.
  intros Hz.
  destruct (toString_chars z) as (sign & digits & c & Heq & Hall & _ & Hsign).
  rewrite (Hsign Hz) in Heq. cbn in Heq. now rewrite Heq.
Qed.

Lemma toString_no_colon (z : Z) :
  (0 <= z)%Z -> ":"%char ∉ list_ascii_of_string (toString z).
Proof.
  intros Hz Hin. pose proof (toString_digits z Hz) as Hall.
  rewrite Forall_forall in Hall. now apply (Hall _ Hin).
Qed.

Lemma seconds_text (s : Z) :
  (0 <= s < 60)%Z ->
  String.length (padStart 2 "0" (toString s)) = 2 /\
  parseInt (padStart 2 "0" (toString s)) = Num s.
Proof.
  intros Hs.
  assert (Hn : exists n, (n < 60)%nat /\ s = Z.of_nat n)
    by (exists (Z.to_nat s); split; lia).
  destruct Hn as (n & Hn & ->). clear Hs.
  do 60 (destruct n as [| n]; [vm_compute; split; reflexivity |]). lia.
Qed.

(** X5.  For an integer time [ms] from 0 to [Number.MAX_SAFE_INTEGER],
    [formatTime] writes the whole minutes, a colon, and the remaining whole
    seconds as exactly two digits that read as a number below 60; minutes
    and seconds add up to the whole seconds of [ms].  Two such times get
    the same text exactly when they have the same number of whole
    seconds. *)
Theorem X5_formatTime_minutes_and_seconds (ms : Z) :
  safe_time ms ->
  (exists ss,
     formatTime ms = (toString (ms / 1000 / 60) ++ ":" ++ ss)%string /\
     String.length ss = 2 /\
     exists s, parseInt ss = Num s /\ (0 <= s < 60)%Z /\
               (60 * (ms / 1000 / 60) + s = ms / 1000)%Z) /\
  (forall ms', safe_time ms' ->
               (formatTime ms = formatTime ms' <-> (ms / 1000 = ms' / 1000)%Z)).
Proof.
  intros [Hms _].
  assert (Hsec : forall x, (0 <= x)%Z ->
             (0 <= x / 1000)%Z /\ (0 <= x / 1000 / 60)%Z /\
             (0 <= Z.rem (x / 1000) 60 < 60)%Z /\
             (60 * (x / 1000 / 60) + Z.rem (x / 1000) 60 = x / 1000)%Z).
  { intros x Hx.
    assert (H1 : (0 <= x / 1000)%Z) by (apply Z.div_pos; lia).
    assert (H2 : (0 <= x / 1000 / 60)%Z) by (apply Z.div_pos; lia).
    rewrite Z.rem_mod_nonneg by lia.
    pose proof (Z.mod_pos_bound (x / 1000) 60 ltac:(lia)).
    pose proof (Z.div_mod (x / 1000) 60 ltac:(lia)). lia. }
  split.
  - destruct (Hsec ms Hms) as (_ & _ & Hs & Hsum).
    destruct (seconds_text _ Hs) as [Hlen Hval].
    exists (padStart 2 "0" (toString (Z.rem (ms / 1000) 60))).
    split; [reflexivity |]. split; [exact Hlen |].
    exists (Z.rem (ms / 1000) 60). auto.
  - intros ms' [Hms' _]. split; [| intros Heq; unfold formatTime; now rewrite Heq].
    intros Heq.
    destruct (Hsec ms Hms) as (_ & Hm & Hs & Hsum).
    destruct (Hsec ms' Hms') as (_ & Hm' & Hs' & Hsum').
    unfold formatTime in Heq.
    apply (f_equal list_ascii_of_string) in Heq.
    rewrite !chars_app in Heq.
    change (list_ascii_of_string ":" ++ ?l) with (":"%char :: l) in Heq.
    apply not_elem_of_app_cons_inv_l in Heq;
      [| now apply toString_no_colon | now apply toString_no_colon].
    destruct Heq as (Hmin & _ & Hss).
    apply chars_inj, toString_inj in Hmin.
    apply chars_inj in Hss.
    destruct (seconds_text _ Hs) as [_ Hv].
    destruct (seconds_text _ Hs') as [_ Hv'].
    rewrite Hss in Hv. rewrite Hv' in Hv. injection Hv as Hv. lia.
Qed.

Lemma X5_formatTime_minutes_and_seconds_witness :
  safe_time 125999 /\ safe_time 125000 /\
  formatTime 125999 = "2:05"%string /\
  (formatTime 125999 = formatTime 125000 <-> (125999 / 1000 = 125000 / 1000)%Z).
Proof.
  assert (H : safe_time 125999) by (unfold safe_time, max_safe_integer; lia).
  assert (H' : safe_time 125000) by (unfold safe_time, max_safe_integer; lia).
  split; [exact H |]. split; [exact H' |]. split; [vm_compute; reflexivity |].
  destruct (X5_formatTime_minutes_and_seconds 125999 H) as [_ Hinj].
  exact (Hinj 125000%Z H').
Defined.

(** ** Typing an answer *)

Ltac eval_digit :=
  match goal with
  | |- context [digit_value ?c] =>
      let v := eval vm_compute in (digit_value c) in
      change (digit_value c) with v
  end.

Lemma parseDigits_uint_acc (d : Decimal.uint) (p : positive) :
  parseDigits (Z.pos p) (NilEmpty.string_of_uint d) = Z.pos (Pos.of_uint_acc d p).
Proof.
  revert p. induction d; intros p; cbn [NilEmpty.string_of_uint parseDigits Pos.of_uint_acc];
    try reflexivity;
    eval_digit; cbv beta iota; rewrite <- IHd; f_equal; lia.
Qed.

Lemma parseDigits_uint (d : Decimal.uint) :
  parseDigits 0 (NilEmpty.string_of_uint d) = Z.of_N (Pos.of_uint d).
Proof.
  induction d; cbn [NilEmpty.string_of_uint parseDigits Pos.of_uint];
    try reflexivity; eval_digit; cbv beta iota.
  - exact IHd.
  - apply (parseDigits_uint_acc d 1).
  - apply (parseDigits_uint_acc d 2).
  - apply (parseDigits_uint_acc d 3).
  - apply (parseDigits_uint_acc d 4).
  - apply (parseDigits_uint_acc d 5).
  - apply (parseDigits_uint_acc d 6).
  - apply (parseDigits_uint_acc d 7).
  - apply (parseDigits_uint_acc d 8).
  - apply (parseDigits_uint_acc d 9).
Qed.

Lemma parseInt_uint (d : Decimal.uint) :
  d <> Decimal.Nil ->
  parseInt (NilEmpty.string_of_uint d) = Num (Z.of_N (Pos.of_uint d)).
Proof.
  intros Hd. rewrite <- parseDigits_uint.
  destruct d; try contradiction; cbn [NilEmpty.string_of_uint]; unfold parseInt;
    eval_digit; reflexivity.
Qed.

Lemma parseInt_toString (z : Z) : (0 <= z)%Z -> parseInt (toString z) = Num z.
Proof.
  intros Hz. unfold toString.
  destruct z as [| p | p]; [reflexivity | | lia].
  cbn [Z.to_int NilZero.string_of_int].
  pose proof (Unsigned.to_uint_nonnil p) as Hnil.
  assert (Hs : NilZero.string_of_uint (Pos.to_uint p)
               = NilEmpty.string_of_uint (Pos.to_uint p)).
  { destruct (Pos.to_uint p); [contradiction | reflexivity ..]. }
  rewrite Hs, (parseInt_uint _ Hnil), Unsigned.of_to. reflexivity.
Qed.

Lemma key_of_ascii_text (c : ascii) (k : Key) :
  key_of_ascii c = Some k -> key_text k = String c "".
Proof.
  destruct c as [[] [] [] [] [] [] [] []]; vm_compute; intros H;
    try discriminate H; injection H as <-; reflexivity.
Qed.

Lemma keys_of_toString (z : Z) :
  (0 <= z)%Z -> exists keys, keys_of_text (toString z) = Some keys.
Proof.
  intros Hz. pose proof (toString_digits z Hz) as Hall.
  induction (toString z) as [| c rest IH]; cbn in *.
  - now exists [].
  - apply Forall_cons_1 in Hall as [Hc Hrest].
    destruct (IH Hrest) as [ks ->].
    assert (Hk : exists k, key_of_ascii c = Some k).
    { destruct c as [[] [] [] [] [] [] [] []]; vm_compute in Hc |- *;
        try (now exfalso; apply Hc); eauto. }
    destruct Hk as [k ->]. eauto.
Qed.

Lemma typing_rest_scores (time : nat -> Z) (currentQ : Question) (rest : string) :
  forall (keys : list Key) (i : nat) (s : App),
    rest <> ""%string ->
    keys_of_text rest = Some keys ->
    gameState s = PLAYING -> feedback s = None ->
    questionQueue s !! currentQIndex s = Some currentQ ->
    (0 <= correctAnswer currentQ)%Z ->
    toString (correctAnswer currentQ) = (userInput s ++ rest)%string ->
    scored_right currentQ s (run (presses time i keys) s).
Proof.
  induction rest as [| c rest IH]; intros keys i s Hne Hkeys Hg Hf Hq Hca Htext;
    [contradiction |].
  cbn in Hkeys.
  destruct (key_of_ascii c) as [k |] eqn:Hk; [| discriminate].
  destruct (keys_of_text rest) as [ks |] eqn:Hks; [| discriminate].
  injection Hkeys as <-. apply key_of_ascii_text in Hk.
  cbn [presses run fold_left].
  assert (Hd : dispatch (Press k (time i)) s = handleInput (key_text k) (time i) s).
  { unfold dispatch. now rewrite Hg, Hq, Hf. }
  rewrite Hd, Hk.
  assert (Hlen : String.length (userInput s)
                 < String.length (toString (correctAnswer currentQ))).
  { rewrite Htext, string_length_app. cbn. lia. }
  assert (Htext' : toString (correctAnswer currentQ)
                   = ((userInput s ++ String c "") ++ rest)%string).
  { now rewrite string_app_assoc. }
  destruct rest as [| c' rest'].
  - (* the last digit: the answer is submitted *)
    rewrite string_app_empty_r in Htext'.
    rewrite (handleInput_submit _ _ _ currentQ Hf Hq Hlen)
      by now rewrite Htext'.
    injection Hks as <-. cbn [presses fold_left].
    rewrite <- Htext', (parseInt_toString _ Hca).
    pose proof (answered_lookup (String c "") currentQ s Hq) as Hlook.
    rewrite <- Htext', (parseInt_toString _ Hca) in Hlook.
    rewrite (processAnswer_correct _ _ _ _ _ Hlook)
      by (apply isCorrect_spec; split; reflexivity).
    unfold scored_right, answered. cbn.
    rewrite <- Htext', (parseInt_toString _ Hca).
    repeat split; try reflexivity. exact Hg.
  - (* a digit before the last *)
    rewrite (handleInput_partial _ _ _ currentQ Hf Hq Hlen).
    2: { rewrite Htext', !string_length_app. cbn. lia. }
    specialize (IH ks (S i) (typed (String c "") s)).
    assert (Hgoal : scored_right currentQ (typed (String c "") s)
                      (run (presses time (S i) ks) (typed (String c "") s))).
    { apply IH; try assumption; try reflexivity; cbn; try assumption;
        discriminate. }
    exact Hgoal.
Qed.

(** X6.  On the play screen, with the buffer empty, pressing the keys that
    spell the correct answer of the current question gets it scored right:
    the keypad has a key for each of its digits, the number read back from
    the buffer is the answer itself, [correctCount] goes up by one and
    [wrongCount] stays, the answer is recorded in the question, no retry
    is pushed, and the callback that moves on is scheduled 600 ms later. *)
Theorem X6_typing_the_answer_is_scored_right (s : App) (currentQ : Question) :
  gameState s = PLAYING -> feedback s = None -> userInput s = ""%string ->
  questionQueue s !! currentQIndex s = Some currentQ ->
  (0 <= correctAnswer currentQ)%Z ->
  exists keys,
    keys_of_text (toString (correctAnswer currentQ)) = Some keys /\
    parseInt (toString (correctAnswer currentQ)) = Num (correctAnswer currentQ) /\
    forall time, scored_right currentQ s (run (presses time 0 keys) s).
Proof.
  intros Hg Hf Hin Hq Hca.
  destruct (keys_of_toString _ Hca) as [keys Hkeys].
  exists keys. split; [exact Hkeys |]. split; [now apply parseInt_toString |].
  intros time.
  apply (typing_rest_scores time currentQ (toString (correctAnswer currentQ)) keys 0 s);
    try assumption.
  - intros Hempty. pose proof (toString_nonempty (correctAnswer currentQ)) as Hpos.
    rewrite Hempty in Hpos. cbn in Hpos. lia.
  - now rewrite Hin.
Qed.

Lemma X6_typing_the_answer_is_scored_right_witness :
  let s := run first_answered initial in
  gameState s = PLAYING /\ feedback s = None /\ userInput s = ""%string /\
  questionQueue s !! currentQIndex s = Some second_question /\
  (0 <= correctAnswer second_question)%Z /\
  exists keys,
    keys_of_text (toString (correctAnswer second_question)) = Some keys /\
    parseInt (toString (correctAnswer second_question))
    = Num (correctAnswer second_question) /\
    forall time, scored_right second_question s (run (presses time 0 keys) s).
Proof.
  intros s.
  assert (Hg : gameState s = PLAYING) by (vm_compute; reflexivity).
  assert (Hf : feedback s = None) by (vm_compute; reflexivity).
  assert (Hin : userInput s = ""%string) by (vm_compute; reflexivity).
  assert (Hq : questionQueue s !! currentQIndex s = Some second_question)
    by (vm_compute; reflexivity).
  assert (Hca : (0 <= correctAnswer second_question)%Z) by (cbn; lia).
  repeat (split; [assumption |]).
  exact (X6_typing_the_answer_is_scored_right s second_question Hg Hf Hin Hq Hca).
Defined.

(** ** Deleting a digit *)

(** X7.  While a question waits for input, [handleDelete] takes the last
    character off the buffer and touches nothing else: on an empty buffer
    it changes nothing, and after a key press that did not complete the
    answer it gives back the state before the press. *)
Theorem X7_delete_takes_back_a_digit (s : App) (currentQ : Question) :
  gameState s = PLAYING -> feedback s = None ->
  questionQueue s !! currentQIndex s = Some currentQ ->
  (forall u c, userInput s = (u ++ String c "")%string ->
               dispatch Delete s = setUserInput (fun _ => u) s) /\
  (userInput s = ""%string -> dispatch Delete s = s) /\
  (forall k now,
      String.length (userInput s) + 1 < String.length (toString (correctAnswer currentQ)) ->
      dispatch (Press k now) s = typed (key_text k) s /\
      dispatch Delete (dispatch (Press k now) s) = s).
Proof.
  intros Hg Hf Hq.
  assert (Hdel : forall s0 : App,
             gameState s0 = PLAYING -> feedback s0 = None ->
             questionQueue s0 !! currentQIndex s0 = Some currentQ ->
             dispatch Delete s0 = setUserInput slice_0_m1 s0).
  { intros s0 Hg0 Hf0 Hq0. unfold dispatch, handleDelete. now rewrite Hg0, Hq0, Hf0. }
  split; [| split].
  - intros u c Hu. rewrite (Hdel s Hg Hf Hq). unfold setUserInput.
    now rewrite Hu, slice_0_m1_snoc.
  - intros Hu. rewrite (Hdel s Hg Hf Hq). destruct s; cbn in *. now subst.
  - intros k now Hlen.
    assert (Hpress : dispatch (Press k now) s = typed (key_text k) s).
    { unfold dispatch. rewrite Hg, Hq, Hf.
      apply (handleInput_partial _ _ _ currentQ Hf Hq); [lia |].
      rewrite string_length_app, key_text_length. lia. }
    split; [exact Hpress |].
    rewrite Hpress, (Hdel (typed (key_text k) s)) by assumption.
    destruct (key_text_char k) as [c ->].
    destruct s. unfold typed, setUserInput.
    cbn [gameState config questionQueue currentQIndex userInput feedback
         sessionStats timers]; cbv beta.
    now rewrite slice_0_m1_snoc.
Qed.

Lemma X7_delete_takes_back_a_digit_witness :
  let s := run first_answered initial in
  gameState s = PLAYING /\ feedback s = None /\
  questionQueue s !! currentQIndex s = Some second_question /\
  dispatch Delete (dispatch (Press K7 4000) s) = s.
Proof.
  intros s.
  assert (Hg : gameState s = PLAYING) by (vm_compute; reflexivity).
  assert (Hf : feedback s = None) by (vm_compute; reflexivity).
  assert (Hq : questionQueue s !! currentQIndex s = Some second_question)
    by (vm_compute; reflexivity).
  split; [exact Hg |]. split; [exact Hf |]. split; [exact Hq |].
  destruct (X7_delete_takes_back_a_digit s second_question Hg Hf Hq) as (_ & _ & H).
  apply (H K7 4000%Z). vm_compute. lia.
Defined.

(** ** The counters *)

Ltac counted :=
  unfold counted_within in *; cbn in *;
  repeat match goal with
         | H : _ /\ _ |- _ => destruct H
         | H : _ \/ _ |- _ => destruct H
         end;
  try congruence;
  first [ split; [lia | left; lia]
        | split; [lia | right; split; [lia | split; [lia | first [left; congruence | right; congruence]]]] ].

Lemma counted_within_processAnswer userVal isTimeout now s :
  gameState s = PLAYING -> feedback s = None ->
  counted_within s -> counted_within (processAnswer userVal isTimeout now s).
Proof.
  intros Hg Hf Hs.
  destruct (questionQueue s !! currentQIndex s) as [currentQ |] eqn:Hq;
    [| now rewrite processAnswer_absent].
  pose proof (lookup_lt_Some _ _ _ Hq) as Hlt.
  destruct (isCorrect userVal isTimeout currentQ) eqn:Hc.
  - rewrite (processAnswer_correct _ _ _ _ currentQ Hq Hc). counted.
  - rewrite (processAnswer_incorrect _ _ _ _ currentQ Hq Hc).
    unfold counted_within in *. cbn in *. rewrite length_app. cbn.
    destruct Hs as [H1 [H2 | (_ & _ & [H | H])]]; try congruence.
    split; [lia |]. right. split; [lia |]. split; [lia |]. left. discriminate.
Qed.

Lemma counted_within_handleInput num now s :
  gameState s = PLAYING ->
  counted_within s -> counted_within (handleInput num now s).
Proof.
  intros Hg Hs.
  destruct (handleInput_outcome num now s)
    as [| currentQ Hf Hq Hne Hlt | currentQ Hf Hq Heq]; try exact Hs.
  apply counted_within_processAnswer; [exact Hg | exact Hf |].
  unfold counted_within in *. cbn. now rewrite length_insert.
Qed.

Lemma step_counted_within s e s' :
  step s e s' -> counted_within s -> counted_within s'.
Proof.
  intros Hstep Hs.
  destruct Hstep; auto using counted_within_handleInput, counted_within_processAnswer.
  - unfold counted_within; cbn. split; [lia | left; lia].
  - unfold handleDelete. now destruct (feedback s).
  - counted.
  - unfold startReview. destruct (_ <? _)%nat; [| exact Hs].
    unfold counted_within; cbn. split; [lia | left; lia].
  - counted.
  - unfold nextQuestion. destruct (_ <=? _)%Z; counted.
Qed.

Lemma reachable_counted_within s : reachable s -> counted_within s.
Proof.
  intros [events ->]. apply run_invariant; [apply step_counted_within |].
  unfold counted_within; cbn. split; [lia | left; lia].
Qed.

(** X8.  In every state the app can reach, no more answers have been
    counted than questions were shown: [correctCount + wrongCount] is at
    most the length of the queue, and at most the number of questions
    before the current one while the current one waits for input; the
    queue holds the questions the session started with and one retry for
    each wrong answer; so [correctCount] never exceeds [totalQuestions],
    and the accuracy shown on the results screen is at most 100%. *)
Theorem X8_no_more_answers_than_questions (s : App) :
  reachable s ->
  correctCount (sessionStats s) + wrongCount (sessionStats s) <= length (questionQueue s) /\
  length (questionQueue s) = totalQuestions (sessionStats s) + wrongCount (sessionStats s) /\
  correctCount (sessionStats s) <= totalQuestions (sessionStats s) /\
  (gameState s = PLAYING -> feedback s = None ->
   correctCount (sessionStats s) + wrongCount (sessionStats s) <= currentQIndex s).
Proof.
  intros Hreach.
  pose proof (reachable_counted_within s Hreach) as [Hlen Hidx].
  pose proof (reachable_queue_counts s Hreach) as Hq. unfold queue_counts in Hq.
  split; [exact Hlen |]. split; [exact Hq |]. split; [lia |].
  intros Hg Hf. destruct Hidx as [H | (_ & _ & [H | H])]; [exact H | |]; contradiction.
Qed.

Lemma X8_no_more_answers_than_questions_witness :
  let s := run twice_wrong_retry initial in
  reachable s /\
  correctCount (sessionStats s) + wrongCount (sessionStats s) <= length (questionQueue s) /\
  correctCount (sessionStats s) <= totalQuestions (sessionStats s).
Proof.
  intros s.
  assert (Hreach : reachable s) by (exists twice_wrong_retry; reflexivity).
  split; [exact Hreach |].
  destruct (X8_no_more_answers_than_questions s Hreach) as (H1 & _ & H3 & _).
  split; assumption.
Defined.

(** ** Wrong answers recorded and counted *)

Lemma filter_insert_length {A} (P : A -> Prop) `{!forall x, Decision (P x)}
    (l : list A) (i : nat) (x : A) :
  length (filter P (<[i:=x]> l)) <= length (filter P l) + 1 /\
  (~ P x -> length (filter P (<[i:=x]> l)) <= length (filter P l)).
Proof.
  revert i. induction l as [| y l IH]; intros i.
  { destruct i; cbn; split; intros; lia. }
  destruct i as [| i].
  - change (<[0:=x]> (y :: l)) with (x :: l). rewrite !filter_cons.
    destruct (decide (P x)), (decide (P y)); cbn [length];
      (split; [lia | intros Hx; try contradiction; lia]).
  - change (<[S i:=x]> (y :: l)) with (y :: <[i:=x]> l).
    destruct (IH i) as [H1 H2]. rewrite !filter_cons.
    destruct (decide (P y)); cbn [length];
      (split; [lia | intros Hx; specialize (H2 Hx); lia]).
Qed.

Ltac fields :=
  unfold answered, typed, setQuestionQueue, setUserInput;
  cbn [gameState config questionQueue currentQIndex userInput feedback
       sessionStats timers totalQuestions correctCount wrongCount startTime
       endTime averageTimePerQuestion].

Lemma answered_right_not_wrong v q :
  isCorrect (Some v) false (withUserAnswer (Some v) q) = true ->
  answeredWrong (withUserAnswer (Some v) q) = false.
Proof. unfold isCorrect, answeredWrong. cbn. now intros ->. Qed.

Lemma wrong_counted_handleInput num now s :
  wrong_counted s -> wrong_counted (handleInput num now s).
Proof.
  intros Hs.
  destruct (handleInput_outcome num now s)
    as [| currentQ Hf Hq Hne Hlt | currentQ Hf Hq Heq]; try exact Hs.
  pose proof (answered_lookup num currentQ s Hq) as Hlook.
  set (v := parseInt (userInput s ++ num)) in *.
  pose proof (filter_insert_length (fun q => answeredWrong q = true)
                (questionQueue s) (currentQIndex s) (withUserAnswer (Some v) currentQ))
    as [Hle Hsame].
  unfold wrong_counted in *.
  destruct (isCorrect (Some v) false (withUserAnswer (Some v) currentQ)) eqn:Hc.
  - rewrite (processAnswer_correct _ _ _ _ _ Hlook Hc). fields.
    apply answered_right_not_wrong in Hc.
    fold v. specialize (Hsame ltac:(congruence)). lia.
  - rewrite (processAnswer_incorrect _ _ _ _ _ Hlook Hc). fields.
    rewrite filter_app, length_app. fold v.
    rewrite filter_cons, filter_nil.
    destruct (decide (answeredWrong (retryQ (withUserAnswer (Some v) currentQ) now) = true))
      as [Hw | _]; [discriminate Hw |].
    cbn [length]. lia.
Qed.

Lemma unanswered_none_wrong (l : list Question) :
  Forall (fun q => userAnswer q = None) l ->
  filter (fun q => answeredWrong q = true) l = [].
Proof.
  induction 1 as [| q l Hq Hall IH]; [reflexivity |].
  rewrite filter_cons, IH.
  destruct (decide (answeredWrong q = true)) as [Hw | _]; [| reflexivity].
  rewrite (unanswered_not_wrong q Hq) in Hw. discriminate.
Qed.

Lemma wrong_counted_fresh (s' : App) :
  Forall (fun q => userAnswer q = None) (questionQueue s') ->
  wrong_counted s'.
Proof.
  unfold wrong_counted. intros Hall.
  rewrite (unanswered_none_wrong _ Hall). cbn. lia.
Qed.

Lemma step_wrong_counted s e s' :
  step s e s' -> wrong_counted s -> wrong_counted s'.
Proof.
  intros Hstep Hs.
  destruct Hstep; auto using wrong_counted_handleInput.
  - apply wrong_counted_fresh. cbn.
    apply generateQuestionBatch_unanswered.
  - unfold handleDelete. now destruct (feedback s).
  - rewrite (processAnswer_incorrect _ _ _ _ _ H1 (isCorrect_timeout _ _)).
    unfold wrong_counted in *. fields. rewrite filter_app, length_app.
    rewrite filter_cons, filter_nil.
    destruct (decide (answeredWrong (retryQ currentQ now) = true))
      as [Hw | _]; [discriminate Hw |].
    cbn [length]. lia.
  - unfold startReview. destruct (_ <? _)%nat; [| exact Hs].
    apply wrong_counted_fresh. cbn. apply startReview_unanswered.
  - unfold nextQuestion. destruct (_ <=? _)%Z; exact Hs.
Qed.

Lemma map_set_length k v m : length (map_set k v m) <= length m + 1.
Proof.
  induction m as [| [k' v'] m IH]; cbn; [lia |].
  destruct (String.eqb k k'); cbn; lia.
Qed.

Lemma fold_collect_length store queue :
  forall m,
    length (fold_left (collect store) queue m)
    <= length m + length (filter (fun q => answeredWrong q = true) queue).
Proof.
  induction queue as [| x queue IH]; intros m; [cbn; lia |].
  cbn [fold_left]. rewrite filter_cons. specialize (IH (collect store m x)).
  unfold collect in *.
  destruct (decide (answeredWrong x = true)) as [Hw | Hw].
  - rewrite Hw in *. cbn [length].
    destruct (negb _); [pose proof (map_set_length (id x) (store x) m) |]; lia.
  - destruct (answeredWrong x); [contradiction | lia].
Qed.

(** X9.  In every state the app can reach, the questions the results
    screen lists as wrong are no more than [wrongCount]; after a session in
    which no wrong answer was counted the list is empty, and the review
    button does nothing. *)
Theorem X9_review_list_within_wrongCount (s : App) :
  reachable s ->
  length (wrongQuestions (questionQueue s)) <= wrongCount (sessionStats s) /\
  (wrongCount (sessionStats s) = 0 ->
   wrongQuestions (questionQueue s) = [] /\
   hasErrors (questionQueue s) = false /\
   forall now, dispatch (Review now) s = s).
Proof.
  intros [events ->].
  set (s := run events initial).
  assert (Hs : wrong_counted s).
  { apply run_invariant; [apply step_wrong_counted |].
    unfold wrong_counted; cbn; lia. }
  assert (Hlen : length (wrongQuestions (questionQueue s)) <= wrongCount (sessionStats s)).
  { unfold wrong_counted in Hs. unfold wrongQuestions, map_values, wrongQuestionsMap.
    rewrite length_map.
    pose proof (fold_collect_length (fun q => q) (questionQueue s) []) as H.
    cbn in H. lia. }
  split; [exact Hlen |]. intros Hzero.
  assert (Hnil : wrongQuestions (questionQueue s) = []).
  { destruct (wrongQuestions (questionQueue s)); [reflexivity | cbn in Hlen; lia]. }
  assert (Hno : hasErrors (questionQueue s) = false).
  { unfold hasErrors. now rewrite Hnil. }
  split; [exact Hnil |]. split; [exact Hno |].
  intros now. unfold dispatch. rewrite Hno.
  destruct (gameState s); try reflexivity.
  destruct (questionQueue s !! currentQIndex s); reflexivity.
Qed.

Lemma X9_review_list_within_wrongCount_witness :
  let s := run twice_wrong_retry initial in
  reachable s /\
  length (wrongQuestions (questionQueue s)) <= wrongCount (sessionStats s).
Proof.
  intros s.
  assert (Hreach : reachable s) by (exists twice_wrong_retry; reflexivity).
  split; [exact Hreach |].
  exact (proj1 (X9_review_list_within_wrongCount s Hreach)).
Defined.

(** ** The list of wrong questions *)

Lemma map_has_image f k m : map_has k (map_image f m) = map_has k m.
Proof.
  unfold map_image.
  induction m as [| [k' v'] m IH]; cbn; [reflexivity | now rewrite IH].
Qed.

Lemma map_set_image f k v m :
  map_set k (f v) (map_image f m) = map_image f (map_set k v m).
Proof.
  unfold map_image.
  induction m as [| [k' v'] m IH]; cbn; [reflexivity |].
  destruct (String.eqb k k'); cbn; [reflexivity |].
  now rewrite IH.
Qed.

Lemma fold_collect_image f queue :
  forall m,
    fold_left (collect f) queue (map_image f m)
    = map_image f (fold_left (collect (fun q => q)) queue m).
Proof.
  induction queue as [| x queue IH]; intros m; [reflexivity |].
  cbn [fold_left]. rewrite <- IH. f_equal.
  unfold collect. rewrite map_has_image.
  destruct (answeredWrong x); [| reflexivity].
  destruct (negb _); [| reflexivity].
  apply map_set_image.
Qed.

Lemma review_values queue :
  map_values (wrongQuestionsMap reviewQ queue) = map reviewQ (wrongQuestions queue).
Proof.
  unfold wrongQuestions, wrongQuestionsMap, map_values.
  change (@nil (string * Question)) with (map_image reviewQ []) at 1.
  rewrite fold_collect_image. unfold map_image. rewrite !map_map. reflexivity.
Qed.

Lemma collect_keys_mono store m x k :
  k ∈ map fst m -> k ∈ map fst (collect store m x).
Proof.
  intros Hk. unfold collect.
  destruct (answeredWrong x); [| exact Hk].
  destruct (negb _); [| exact Hk].
  rewrite map_set_keys. destruct (map_has (id x) m); [exact Hk |].
  apply elem_of_app. now left.
Qed.

Lemma fold_collect_keys_mono store queue :
  forall m k, k ∈ map fst m -> k ∈ map fst (fold_left (collect store) queue m).
Proof.
  induction queue as [| x queue IH]; intros m k Hk; [exact Hk |].
  cbn [fold_left]. apply IH. now apply collect_keys_mono.
Qed.

Lemma collect_keys_NoDup store m x :
  NoDup (map fst m) -> NoDup (map fst (collect store m x)).
Proof.
  intros Hnd. unfold collect.
  destruct (answeredWrong x); [| exact Hnd].
  destruct (negb _); [| exact Hnd].
  rewrite map_set_keys. destruct (map_has (id x) m) eqn:Hhas; [exact Hnd |].
  apply NoDup_app. split; [exact Hnd |]. split; [| apply NoDup_singleton].
  intros k Hk Hk'. apply list_elem_of_singleton in Hk'. subst k.
  apply map_has_keys in Hk. congruence.
Qed.

Lemma fold_collect_keys_NoDup store queue :
  forall m, NoDup (map fst m) -> NoDup (map fst (fold_left (collect store) queue m)).
Proof.
  induction queue as [| x queue IH]; intros m Hnd; [exact Hnd |].
  cbn [fold_left]. apply IH. now apply collect_keys_NoDup.
Qed.

Lemma fold_collect_keys_ids queue :
  forall m,
    Forall (fun kv => fst kv = id (snd kv)) m ->
    Forall (fun kv => fst kv = id (snd kv)) (fold_left (collect (fun q => q)) queue m).
Proof.
  induction queue as [| x queue IH]; intros m Hm; [exact Hm |].
  cbn [fold_left]. apply IH. unfold collect.
  destruct (answeredWrong x); [| exact Hm].
  destruct (negb _); [| exact Hm].
  now apply (map_set_entries (fun k v => k = id v)).
Qed.

Lemma wrongQuestions_ids queue :
  map id (wrongQuestions queue) = map fst (wrongQuestionsMap (fun q => q) queue).
Proof.
  unfold wrongQuestions, map_values.
  pose proof (fold_collect_keys_ids queue [] ltac:(constructor)) as Hall.
  fold (wrongQuestionsMap (fun q => q) queue) in Hall.
  induction Hall as [| kv m Hkv Hall IH]; cbn; [reflexivity |].
  now rewrite IH, Hkv.
Qed.

Lemma fold_collect_covers store queue :
  forall m q,
    q ∈ queue -> answeredWrong q = true ->
    id q ∈ map fst (fold_left (collect store) queue m) \/
    split_head "-retry" (id q) ∈ map fst (fold_left (collect store) queue m).
Proof.
  induction queue as [| x queue IH]; intros m q Hq Hw; [inversion Hq |].
  cbn [fold_left].
  apply elem_of_cons in Hq. destruct Hq as [-> | Hq]; [| now apply IH].
  unfold collect at 2 4. rewrite Hw.
  destruct (map_has (split_head "-retry" (id x)) m) eqn:Hhas; cbn [negb].
  - right. apply fold_collect_keys_mono. now apply map_has_keys.
  - left. apply fold_collect_keys_mono. rewrite map_set_keys.
    destruct (map_has (id x) m) eqn:Hid; [now apply map_has_keys |].
    apply elem_of_app. right. now left.
Qed.

(** X10.  The list of wrong questions of the results screen, for any
    queue: its identifiers are pairwise different; every question in it is
    an entry of the queue whose recorded answer differs from the correct
    one; every such entry of the queue is represented, by its own
    identifier or by the part of it before ["-retry"]; and the questions
    [startReview] collects are the same ones in the same order, each as a
    fresh copy with the identifier prefixed by ["review-"]. *)
Theorem X10_wrong_question_list (queue : list Question) :
  NoDup (map id (wrongQuestions queue)) /\
  Forall (fun q => q ∈ queue /\ answeredWrong q = true) (wrongQuestions queue) /\
  (forall q, q ∈ queue -> answeredWrong q = true ->
             id q ∈ map id (wrongQuestions queue) \/
             split_head "-retry" (id q) ∈ map id (wrongQuestions queue)) /\
  map_values (wrongQuestionsMap reviewQ queue) = map reviewQ (wrongQuestions queue).
Proof.
  split; [| split; [| split]].
  - rewrite wrongQuestions_ids. apply fold_collect_keys_NoDup. constructor.
  - apply wrongQuestionsMap_values. auto.
  - intros q Hq Hw. rewrite wrongQuestions_ids.
    now apply fold_collect_covers.
  - apply review_values.
Qed.

(** X11.  On the results screen with at least one wrong question listed,
    the review button starts a session of exactly the listed questions:
    each without a recorded answer and not marked as a retry, the position
    0, the buffer empty, no feedback, the counters at zero,
    [totalQuestions] the length of the list, which is at least one, and
    [startTime] the time of the click.  The callbacks still pending stay
    scheduled. *)
Theorem X11_review_starts_listed_questions (s : App) (now : Z) :
  gameState s = RESULTS -> hasErrors (questionQueue s) = true ->
  dispatch (Review now) s = review_session now s /\
  1 <= totalQuestions (sessionStats (dispatch (Review now) s)) /\
  Forall (fun q => userAnswer q = None /\ isRetry q = false)
    (questionQueue (dispatch (Review now) s)).
Proof.
  intros Hg He.
  assert (Hlen : 1 <= length (wrongQuestions (questionQueue s))).
  { unfold hasErrors in He. apply Nat.ltb_lt in He. lia. }
  assert (Hd : dispatch (Review now) s = review_session now s).
  { unfold dispatch. rewrite Hg, He. unfold startReview.
    rewrite review_values, length_map.
    destruct (Nat.ltb_spec 0 (length (wrongQuestions (questionQueue s)))); [| lia].
    unfold startGame, review_session, setGameState, setSessionStats, setFeedback,
      setUserInput, setCurrentQIndex, setQuestionQueue.
    cbn [gameState config questionQueue currentQIndex userInput feedback
         sessionStats timers].
    now rewrite length_map. }
  rewrite Hd. split; [reflexivity |]. split; [exact Hlen |].
  cbn. apply Forall_forall. intros q Hq.
  change (map reviewQ ?l) with (reviewQ <$> l) in Hq.
  apply list_elem_of_fmap in Hq.
  destruct Hq as (q0 & -> & _). split; reflexivity.
Qed.

Lemma X11_review_starts_listed_questions_witness :
  let s := run twice_wrong_retry initial in
  gameState s = RESULTS /\ hasErrors (questionQueue s) = true /\
  dispatch (Review 60000) s = review_session 60000 s.
Proof.
  intros s.
  assert (Hg : gameState s = RESULTS) by (vm_compute; reflexivity).
  assert (He : hasErrors (questionQueue s) = true) by (vm_compute; reflexivity).
  split; [exact Hg |]. split; [exact He |].
  exact (proj1 (X11_review_starts_listed_questions s 60000%Z Hg He)).
Defined.

(** ** The screen with its countdown *)

Lemma play_screen_Some s q :
  play_screen s = Some q <->
  gameState s = PLAYING /\ questionQueue s !! currentQIndex s = Some q.
Proof.
  unfold play_screen. destruct (gameState s); split; intros H;
    try discriminate; try (now destruct H); now split.
Qed.

Lemma isPlaying_true s : isPlaying s = true <-> feedback s = None.
Proof. unfold isPlaying. destruct (feedback s); split; congruence. Qed.

Lemma timeUp_dispatch now s q :
  play_screen s = Some q -> isPlaying s = true ->
  dispatch (TimeUp now) s = processAnswer None true now s.
Proof.
  intros Hq Hp. apply play_screen_Some in Hq. destruct Hq as [Hg Hq].
  apply isPlaying_true in Hp. unfold dispatch. now rewrite Hg, Hq, Hp.
Qed.

Lemma timeUp_scored now s q :
  play_screen s = Some q ->
  processAnswer None true now s =
  mkApp (gameState s) (config s)
    (questionQueue s ++ [retryQ q now]) (currentQIndex s)
    (userInput s) (Some timeout)
    (mkSessionStats (totalQuestions (sessionStats s))
       (correctCount (sessionStats s)) (wrongCount (sessionStats s) + 1)
       (startTime (sessionStats s)) (endTime (sessionStats s))
       (averageTimePerQuestion (sessionStats s)))
    (timers s ++ [mkScheduled (currentQIndex s) (questionQueue s) 2500]).
Proof.
  intros Hq. apply play_screen_Some in Hq. destruct Hq as [_ Hq].
  exact (processAnswer_incorrect None true now s q Hq (isCorrect_timeout _ _)).
Qed.

Lemma play_screen_timeUp now s q :
  play_screen s = Some q ->
  play_screen (processAnswer None true now s) = Some q /\
  isPlaying (processAnswer None true now s) = false /\
  config (processAnswer None true now s) = config s.
Proof.
  intros Hq. rewrite (timeUp_scored now s q Hq).
  apply play_screen_Some in Hq. destruct Hq as [Hg Hq].
  split; [| split; reflexivity].
  apply play_screen_Some. cbn. split; [exact Hg |].
  rewrite lookup_app_l; [exact Hq | now apply lookup_lt_Some in Hq].
Qed.

Section Screen.
Context {double : Type} `{Countdown double}.

Lemma commit_app now (m : Mounted double) :
  app_state (commit now m) =
  if fires m then dispatch (TimeUp now) (app_state m) else app_state m.
Proof.
  unfold commit, fires.
  destruct (play_screen (app_state m)) as [q |] eqn:Hq; [| reflexivity].
  destruct (timer_state m) as [t |]; cbn [fst snd app_state].
  - destruct (isPlaying (app_state m)) eqn:Hp; cbn [andb]; [| reflexivity].
    destruct (expired (timeLeft t)); [| reflexivity].
    symmetry. now apply timeUp_dispatch with q.
  - destruct (isPlaying (app_state m)) eqn:Hp; cbn [andb]; [| reflexivity].
    destruct (expired _); [| reflexivity].
    symmetry. now apply timeUp_dispatch with q.
Qed.

Lemma run_app (a b : list Event) s : run (a ++ b) s = run b (run a s).
Proof. unfold run. apply fold_left_app. Qed.

Lemma settle_app now (m : Mounted double) :
  app_state (settle now m) = run (raised now m) (app_state m).
Proof.
  unfold settle, raised. rewrite run_app, (commit_app now (commit now m)).
  assert (H1 : run (if fires m then [TimeUp now] else []) (app_state m)
               = app_state (commit now m)).
  { rewrite commit_app. now destruct (fires m). }
  rewrite H1. now destruct (fires (commit now m)).
Qed.

Lemma screen_dispatch_app e (m : Mounted double) :
  app_state (screen_dispatch e m) = run (behind e m) (app_state m).
Proof.
  destruct e as [e now | now]; cbn [screen_dispatch behind].
  - destruct e; try reflexivity; now rewrite settle_app.
  - destruct (timer_state m) as [t |]; [| reflexivity].
    destruct (interval_runs (app_state m) t); [| reflexivity].
    now rewrite settle_app.
Qed.

Lemma screen_run_app events :
  forall m : Mounted double,
    app_state (screen_run events m) = run (behind_run events m) (app_state m).
Proof.
  induction events as [| e events IH]; intros m; [reflexivity |].
  cbn [screen_run fold_left behind_run].
  change (fold_left (fun m e => screen_dispatch e m) events (screen_dispatch e m))
    with (screen_run events (screen_dispatch e m)).
  now rewrite IH, run_app, screen_dispatch_app.
Qed.

Lemma commit_at_rest now (m : Mounted double) : at_rest m -> commit now m = m.
Proof.
  unfold at_rest, commit. destruct m as [s [t |]]; cbn [app_state timer_state].
  - destruct (play_screen s) as [q |]; [| contradiction].
    intros (Hk & Hd & Hrun). cbn [fst snd].
    rewrite Hk, Hd, String.eqb_refl, Z.eqb_refl. cbn [negb orb].
    destruct (isPlaying s); cbn [andb].
    + rewrite (Hrun eq_refl). destruct t; cbn in *. now subst.
    + destruct t; cbn in *. now subst.
  - destruct (play_screen s); [contradiction | reflexivity].
Qed.

Lemma settle_at_rest now (m : Mounted double) : at_rest (settle now m).
Proof.
  unfold settle.
  destruct (play_screen (app_state m)) as [q |] eqn:Hq.
  2: { assert (H1 : commit now m = mkMounted (app_state m) None)
         by (unfold commit; now rewrite Hq).
       rewrite H1. unfold commit, at_rest. cbn [app_state timer_state].
       now rewrite Hq; cbn; rewrite Hq. }
  (* the first render *)
  assert (H1 : exists s1 t1,
             commit now m = mkMounted s1 (Some (mkTimer t1 (id q)
                                                   (durationPerQuestion (config s1)))) /\
             play_screen s1 = Some q).
  { unfold commit. rewrite Hq.
    destruct (isPlaying (app_state m) && expired _) eqn:Hfire.
    - destruct (play_screen_timeUp now _ _ Hq) as (Hq1 & _ & Hc).
      eexists _, _. split; [| exact Hq1]. now rewrite Hc.
    - eexists _, _. split; [reflexivity | exact Hq]. }
  destruct H1 as (s1 & t1 & -> & Hq1).
  (* the second render *)
  unfold commit, at_rest. cbn [app_state timer_state timeLeft seen_resetKey seen_duration].
  rewrite Hq1. cbn [fst snd].
  rewrite String.eqb_refl, Z.eqb_refl. cbn [negb orb].
  destruct (isPlaying s1) eqn:Hp; cbn [andb].
  - destruct (expired t1) eqn:He; cbn [app_state timer_state].
    + destruct (play_screen_timeUp now _ _ Hq1) as (Hq2 & Hp2 & Hc).
      rewrite Hq2. cbn. rewrite Hc. repeat split. congruence.
    + rewrite Hq1. cbn. repeat split. now rewrite He.
  - cbn [app_state timer_state]. rewrite Hq1. cbn. repeat split. congruence.
Qed.

Lemma screen_dispatch_at_rest e (m : Mounted double) :
  at_rest m -> at_rest (screen_dispatch e m).
Proof.
  intros Hm. destruct e as [e now | now]; cbn [screen_dispatch].
  - destruct e; try exact Hm; apply settle_at_rest.
  - destruct (timer_state m) as [t |]; [| exact Hm].
    destruct (interval_runs (app_state m) t); [apply settle_at_rest | exact Hm].
Qed.

Lemma screen_run_at_rest events :
  forall m : Mounted double, at_rest m -> at_rest (screen_run events m).
Proof.
  induction events as [| e events IH]; intros m Hm; [exact Hm |].
  cbn [screen_run fold_left]. apply IH. now apply screen_dispatch_at_rest.
Qed.

End Screen.

Section Countdown.
Context {double : Type} `{Countdown double}.

Lemma commit_mounted now s (t : Timer double) q :
  play_screen s = Some q ->
  commit now (mkMounted s (Some t)) =
  mkMounted
    (if isPlaying s && expired (timeLeft t)
     then processAnswer None true now s else s)
    (Some (mkTimer
             (if negb (String.eqb (seen_resetKey t) (id q))
                 || negb (seen_duration t =? durationPerQuestion (config s))%Z
              then of_seconds (durationPerQuestion (config s))
              else timeLeft t)
             (id q) (durationPerQuestion (config s)))).
Proof. intros Hq. unfold commit. cbn [app_state timer_state]. now rewrite Hq. Qed.

Lemma at_rest_mounted (m : Mounted double) t q :
  at_rest m -> timer_state m = Some t -> play_screen (app_state m) = Some q ->
  seen_resetKey t = id q /\
  seen_duration t = durationPerQuestion (config (app_state m)) /\
  (isPlaying (app_state m) = true -> expired (timeLeft t) = false).
Proof. unfold at_rest. intros Hm Ht Hq. now rewrite Hq, Ht in Hm. Qed.

Lemma at_rest_off (m : Mounted double) :
  at_rest m -> play_screen (app_state m) = None -> timer_state m = None.
Proof.
  unfold at_rest. intros Hm Hq. rewrite Hq in Hm.
  now destruct (timer_state m).
Qed.

Lemma tick_at_rest now (m : Mounted double) t q :
  at_rest m -> timer_state m = Some t -> play_screen (app_state m) = Some q ->
  isPlaying (app_state m) = true ->
  screen_dispatch (Tick now) m =
  mkMounted
    (if expired (minus_tenth (timeLeft t))
     then processAnswer None true now (app_state m) else app_state m)
    (Some (mkTimer (minus_tenth (timeLeft t)) (id q)
             (durationPerQuestion (config (app_state m))))).
Proof.
  intros Hm Ht Hq Hp.
  destruct (at_rest_mounted m t q Hm Ht Hq) as (Hk & Hd & Hrun).
  cbn [screen_dispatch]. rewrite Ht. unfold interval_runs.
  rewrite Hp, (Hrun Hp). cbn [andb negb].
  unfold settle. rewrite (commit_mounted now _ _ q Hq).
  cbn [timeLeft seen_resetKey seen_duration].
  rewrite Hk, Hd, String.eqb_refl, Z.eqb_refl, Hp. cbn [negb orb andb].
  apply commit_at_rest. unfold at_rest. cbn [app_state timer_state].
  destruct (expired (minus_tenth (timeLeft t))) eqn:He.
  - destruct (play_screen_timeUp now _ _ Hq) as (Hq1 & Hp1 & Hc).
    rewrite Hq1. cbn. rewrite Hc. repeat split. congruence.
  - rewrite Hq. cbn. repeat split. now rewrite He.
Qed.

End Countdown.

(** X12.  Every run of the screen with its countdown is a run of [App]:
    the state of [App] after the screen events is the state after the
    events behind them, where the timer running out appears as the event
    of the countdown reaching zero.  So the screen only ever shows states
    that [App] can reach.  After every event the screen is at rest - the
    timer is mounted exactly on the play screen and has not run out while
    the question waits for input - and a further render changes nothing. *)
Theorem X12_screen_runs_are_app_runs {double} `{Countdown double}
    (events : list ScreenEvent) :
  let m : Mounted double := screen_run events mounted_initial in
  app_state m = run (behind_run events (mounted_initial (double := double))) initial /\
  reachable (app_state m) /\
  at_rest m /\
  (play_screen (app_state m) = None <-> timer_state m = None) /\
  (forall now, commit now m = m).
Proof.
  intros m.
  assert (Happ : app_state m = run (behind_run events mounted_initial) initial)
    by apply screen_run_app.
  assert (Hrest : at_rest m) by (apply screen_run_at_rest; exact I).
  split; [exact Happ |]. split; [eexists; exact Happ |]. split; [exact Hrest |].
  split.
  - split; [now apply at_rest_off |].
    intros Ht. unfold at_rest in Hrest. rewrite Ht in Hrest.
    now destruct (play_screen (app_state m)).
  - intros now. now apply commit_at_rest.
Qed.

(** X13.  The countdown, on a screen at rest.  Off the play screen there is
    no timer, and while feedback is shown the interval is cleared: its
    callback changes nothing.  While the question waits for input the
    callback lowers [timeLeft] by a tenth and leaves [App] alone, until
    [timeLeft] reaches zero: then the timer calls [onTimeUp], the question
    is scored as timed out (one more wrong answer, a retry at the end of
    the queue, the 2500 ms callback scheduled), and [timeLeft] stays at
    zero. *)
Theorem X13_countdown_tick {double} `{Countdown double} (m : Mounted double) (now : Z) :
  at_rest m ->
  (play_screen (app_state m) = None -> screen_dispatch (Tick now) m = m) /\
  (isPlaying (app_state m) = false -> screen_dispatch (Tick now) m = m) /\
  (forall t q,
     timer_state m = Some t -> play_screen (app_state m) = Some q ->
     isPlaying (app_state m) = true ->
     let left := minus_tenth (timeLeft t) in
     let m' := screen_dispatch (Tick now) m in
     timer_state m' = Some (mkTimer left (id q) (durationPerQuestion (config (app_state m)))) /\
     (expired left = false -> app_state m' = app_state m) /\
     (expired left = true ->
      app_state m' = processAnswer None true now (app_state m) /\
      feedback (app_state m') = Some timeout /\
      wrongCount (sessionStats (app_state m')) = wrongCount (sessionStats (app_state m)) + 1 /\
      questionQueue (app_state m') = questionQueue (app_state m) ++ [retryQ q now])).
Proof.
  intros Hm. split; [| split].
  - intros Hq. cbn [screen_dispatch]. now rewrite (at_rest_off m Hm Hq).
  - intros Hp. cbn [screen_dispatch].
    destruct (timer_state m) as [t |]; [| reflexivity].
    unfold interval_runs. now rewrite Hp.
  - intros t q Ht Hq Hp left m'. subst m'.
    rewrite (tick_at_rest now m t q Hm Ht Hq Hp). fold left.
    cbn [timer_state app_state]. split; [reflexivity |].
    split; [now intros -> |].
    intros ->. split; [reflexivity |].
    rewrite (timeUp_scored now _ q Hq). cbn. repeat split.
Qed.

Lemma X13_countdown_tick_witness :
  let m : Mounted Z :=
    screen_run [Happens (Start demo_random demo_clock 1000) 1000] mounted_initial in
  at_rest m /\
  exists t q,
    timer_state m = Some t /\ play_screen (app_state m) = Some q /\
    isPlaying (app_state m) = true /\
    timer_state (screen_dispatch (Tick 1100) m)
    = Some (mkTimer (minus_tenth (timeLeft t)) (id q)
              (durationPerQuestion (config (app_state m)))).
Proof.
  intros m.
  assert (Hm : at_rest m) by (vm_compute; repeat split).
  split; [exact Hm |].
  destruct (timer_state m) as [t |] eqn:Ht; [| discriminate Ht].
  destruct (play_screen (app_state m)) as [q |] eqn:Hq; [| discriminate Hq].
  assert (Hp : isPlaying (app_state m) = true) by (vm_compute; reflexivity).
  exists t, q. split; [reflexivity |]. split; [reflexivity |]. split; [exact Hp |].
  destruct (X13_countdown_tick m 1100%Z Hm) as (_ & _ & Htick).
  exact (proj1 (Htick t q Ht Hq Hp)).
Defined.

(** X14.  A countdown that ran out fails the next question too.  On a
    screen at rest whose timer has run out (the current question shows its
    feedback), when the scheduled callback moves on to the next question,
    the second effect of that render still reads [timeLeft <= 0] and calls
    [onTimeUp] at once: the screen never waits for input on that question,
    it is scored as timed out in the same step it appears, with one more
    wrong answer and a retry of it at the end of the queue.  [timeLeft] is
    reset only afterwards. *)
Theorem X14_expired_countdown_fails_next_question {double} `{Countdown double}
    (m : Mounted double) (t : Timer double) (currentQ next : Question)
    (n : nat) (cb : Scheduled) (now0 now : Z) :
  at_rest m ->
  timer_state m = Some t ->
  expired (timeLeft t) = true ->
  play_screen (app_state m) = Some currentQ ->
  timers (app_state m) !! n = Some cb ->
  (Z.of_nat (length (seen_questionQueue cb)) - 1 <=? Z.of_nat (seen_currentQIndex cb))%Z = false ->
  questionQueue (app_state m) !! (currentQIndex (app_state m) + 1) = Some next ->
  let s := app_state m in
  let m' := screen_dispatch (Happens (Fire n now0) now) m in
  let s' := app_state m' in
  feedback s <> None /\
  gameState s' = PLAYING /\
  currentQIndex s' = currentQIndex s + 1 /\
  feedback s' = Some timeout /\
  userInput s' = ""%string /\
  correctCount (sessionStats s') = correctCount (sessionStats s) /\
  wrongCount (sessionStats s') = wrongCount (sessionStats s) + 1 /\
  questionQueue s' = questionQueue s ++ [retryQ next now] /\
  play_screen s' = Some next /\
  (id next <> id currentQ ->
   timer_state m' = Some (mkTimer (of_seconds (durationPerQuestion (config s)))
                            (id next) (durationPerQuestion (config s)))).
Proof.
  intros Hm Ht He Hq Hcb Htest Hnext s m' s'.
  destruct (at_rest_mounted m t currentQ Hm Ht Hq) as (Hk & Hd & Hrun).
  assert (Hf : feedback s <> None).
  { intros Hf. apply isPlaying_true in Hf. rewrite (Hrun Hf) in He. discriminate. }
  split; [exact Hf |].
  apply play_screen_Some in Hq. destruct Hq as [Hg Hq].
  (* the callback *)
  set (s1 := dispatch (Fire n now0) s).
  assert (H1 : s1 = setCurrentQIndex (fun prev => prev + 1)
                      (setUserInput (fun _ => ""%string)
                         (setFeedback None (setTimers (delete n (timers s)) s)))).
  { unfold s1, dispatch, s. rewrite Hcb. unfold nextQuestion. now rewrite Htest. }
  assert (Hq1 : play_screen s1 = Some next).
  { apply play_screen_Some. rewrite H1. cbn. split; [exact Hg | exact Hnext]. }
  assert (Hp1 : isPlaying s1 = true) by (rewrite H1; reflexivity).
  assert (Hc1 : config s1 = config s) by (rewrite H1; reflexivity).
  (* the render after it *)
  assert (Hm' : m' = mkMounted (processAnswer None true now s1)
                       (Some (mkTimer
                                (if negb (String.eqb (seen_resetKey t) (id next))
                                    || negb (seen_duration t =? durationPerQuestion (config s1))%Z
                                 then of_seconds (durationPerQuestion (config s1))
                                 else timeLeft t)
                                (id next) (durationPerQuestion (config s1))))).
  { unfold m'. cbn [screen_dispatch]. fold s. fold s1. rewrite Ht.
    unfold settle. rewrite (commit_mounted now s1 t next Hq1), Hp1, He.
    cbn [andb]. apply commit_at_rest. unfold at_rest. cbn [app_state timer_state].
    destruct (play_screen_timeUp now s1 next Hq1) as (Hq2 & Hp2 & Hc2).
    rewrite Hq2. cbn [seen_resetKey seen_duration timeLeft].
    split; [reflexivity |]. split; [now rewrite Hc2 |].
    intros Hp. congruence. }
  unfold s'. rewrite Hm'. cbn [app_state timer_state].
  rewrite (timeUp_scored now s1 next Hq1), H1. cbn.
  split; [exact Hg |]. do 6 (split; [reflexivity |]).
  split.
  - apply play_screen_Some. cbn. split; [exact Hg |].
    rewrite lookup_app_l; [exact Hnext | now apply lookup_lt_Some in Hnext].
  - intros Hid. rewrite Hk.
    destruct (String.eqb_spec (id currentQ) (id next)) as [Heq | _];
      [now symmetry in Heq | reflexivity].
Qed.

Lemma X14_expired_countdown_fails_next_question_witness :
  let m : Mounted Z := screen_run countdown_runs_out mounted_initial in
  let m' := screen_dispatch (Happens (Fire 0 13500) 13500) m in
  at_rest m /\
  wrongCount (sessionStats (app_state m)) = 1 /\
  feedback (app_state m) = Some timeout /\
  currentQIndex (app_state m') = currentQIndex (app_state m) + 1 /\
  feedback (app_state m') = Some timeout /\
  wrongCount (sessionStats (app_state m')) = wrongCount (sessionStats (app_state m)) + 1 /\
  questionQueue (app_state m')
  = questionQueue (app_state m) ++ [retryQ second_question 13500].
Proof.
  intros m m'.
  set (batch := generateQuestionBatch demo_random demo_clock MULTIPLICATION None 10).
  assert (Hm : at_rest m) by (vm_compute; repeat split; discriminate).
  assert (Ht : timer_state m = Some (mkTimer 0%Z "q-1000-0"%string 10%Z))
    by (vm_compute; reflexivity).
  assert (He : expired (timeLeft (mkTimer 0%Z "q-1000-0"%string 10%Z)) = true)
    by reflexivity.
  assert (Hq : play_screen (app_state m) = Some first_question)
    by (vm_compute; reflexivity).
  assert (Hcb : timers (app_state m) !! 0 = Some (mkScheduled 0 batch 2500))
    by (vm_compute; reflexivity).
  assert (Htest : (Z.of_nat (length (seen_questionQueue (mkScheduled 0 batch 2500))) - 1
                   <=? Z.of_nat (seen_currentQIndex (mkScheduled 0 batch 2500)))%Z = false)
    by (vm_compute; reflexivity).
  assert (Hnext : questionQueue (app_state m) !! (currentQIndex (app_state m) + 1)
                  = Some second_question)
    by (vm_compute; reflexivity).
  destruct (X14_expired_countdown_fails_next_question m _ first_question second_question
              0 _ 13500%Z 13500%Z Hm Ht He Hq Hcb Htest Hnext)
    as (_ & _ & Hidx & Hfb & _ & _ & Hwrong & Hqueue & _).
  split; [exact Hm |].
  split; [vm_compute; reflexivity |].
  split; [vm_compute; reflexivity |].
  split; [exact Hidx |].
  split; [exact Hfb |].
  split; [exact Hwrong | exact Hqueue].
Defined.

(** ** Recorded answers *)

Lemma answers_typed_fresh (s : App) :
  Forall (fun q => userAnswer q = None) (questionQueue s) -> answers_typed s.
Proof.
  unfold answers_typed. intros Hall.
  eapply Forall_impl; [exact Hall |]. intros q Hq. now rewrite Hq.
Qed.

Lemma answers_typed_processAnswer userVal isTimeout now s :
  answers_typed s -> answers_typed (processAnswer userVal isTimeout now s).
Proof.
  intros Hs. unfold processAnswer.
  destruct (questionQueue s !! currentQIndex s) as [q |]; [| exact Hs].
  destruct (isCorrect userVal isTimeout q); [exact Hs |].
  unfold answers_typed in *. cbn. apply Forall_app. split; [exact Hs |].
  constructor; [exact I | constructor].
Qed.

Lemma step_answers_typed s e s' :
  step s e s' -> buffer_typed s -> answers_typed s -> answers_typed s'.
Proof.
  intros Hstep [keys Hkeys] Hs.
  destruct Hstep; auto using answers_typed_processAnswer.
  - apply answers_typed_fresh. cbn. apply generateQuestionBatch_unanswered.
  - destruct (handleInput_outcome (key_text k) now s)
      as [| q Hf Hq Hne Hlt | q Hf Hq Heq]; try exact Hs.
    apply answers_typed_processAnswer. unfold answers_typed in *. cbn.
    apply Forall_insert; [exact Hs |]. cbn.
    exists (keys_value (keys ++ [k])). split; [| apply keys_value_nonneg].
    rewrite Hkeys, <- keys_text_snoc. apply parseInt_keys.
    intros Hnil. apply app_eq_nil in Hnil. destruct Hnil as [_ Hnil]. discriminate.
  - unfold handleDelete. now destruct (feedback s).
  - unfold startReview. destruct (_ <? _)%nat; [| exact Hs].
    apply answers_typed_fresh. cbn. apply startReview_unanswered.
  - unfold nextQuestion. destruct (_ <=? _)%Z; exact Hs.
Qed.

(** X15.  In every state the app can reach, the input buffer is a text of
    keypad digits and every answer recorded in a question is a non-negative
    integer: never [NaN], and never the [-999] that stands in for a missing
    answer inside [processAnswer].  So the results screen, which prints
    ['...'] for a recorded [-999], never does so. *)
Theorem X15_recorded_answers_are_typed_numbers (s : App) :
  reachable s ->
  (exists keys, userInput s = keys_text keys) /\
  forall q v,
    q ∈ questionQueue s -> userAnswer q = Some v ->
    (exists z, v = Num z /\ (0 <= z)%Z) /\ v <> NaN /\ v <> Num (-999).
Proof.
  intros [events ->].
  assert (Hboth : buffer_typed (run events initial) /\ answers_typed (run events initial)).
  { apply (run_invariant (fun s => buffer_typed s /\ answers_typed s)).
    - intros s e s' Hstep [Hb Ha]. split.
      + now apply (step_buffer_typed s e s').
      + now apply (step_answers_typed s e s').
    - split; [now exists [] | constructor]. }
  destruct Hboth as [Hb Ha]. split; [exact Hb |].
  intros q v Hq Hv. unfold answers_typed in Ha.
  rewrite Forall_forall in Ha. specialize (Ha q Hq). rewrite Hv in Ha.
  destruct Ha as (z & -> & Hz).
  split; [now exists z |]. split; [discriminate |].
  intros Heq. injection Heq as ->. lia.
Qed.

Lemma X15_recorded_answers_are_typed_numbers_witness :
  let s := run twice_wrong_retry initial in
  reachable s /\
  exists keys, userInput s = keys_text keys.
Proof.
  intros s.
  assert (Hreach : reachable s) by (exists twice_wrong_retry; reflexivity).
  split; [exact Hreach |].
  exact (proj1 (X15_recorded_answers_are_typed_numbers s Hreach)).
Defined.

(** ** Every question asked is well posed *)

Lemma well_posed_processAnswer userVal isTimeout now s :
  Forall well_posed (questionQueue s) ->
  Forall well_posed (questionQueue (processAnswer userVal isTimeout now s)).
Proof.
  intros Hs. unfold processAnswer.
  destruct (questionQueue s !! currentQIndex s) as [q |] eqn:Hq; [| exact Hs].
  destruct (isCorrect userVal isTimeout q); [exact Hs |].
  cbn. apply Forall_app. split; [exact Hs |].
  constructor; [| constructor].
  exact (Forall_lookup_1 _ _ _ _ Hs Hq).
Qed.

Lemma dispatch_well_posed e s :
  match e with Start random _ _ => unit_interval random | _ => True end ->
  table (targetNumber (config s)) ->
  Forall well_posed (questionQueue s) ->
  Forall well_posed (questionQueue (dispatch e s)).
Proof.
  intros He Ht Hs.
  pose proof (dispatch_step e s) as Hstep.
  remember (dispatch e s) as s' eqn:Hs'. clear Hs'.
  destruct Hstep; auto using well_posed_processAnswer.
  - cbn.
    pose proof (generateQuestionBatch_generated random clock
                  (config_operation (config s)) (targetNumber (config s)) 10 He Ht) as Hgen.
    eapply Forall_impl; [exact Hgen |].
    intros q Hq. now apply (generated_well_posed _ _ _ Ht Hq).
  - destruct (handleInput_outcome (key_text k) now s)
      as [| q Hf Hq Hne Hlt | q Hf Hq Heq]; try exact Hs.
    apply well_posed_processAnswer. cbn.
    apply Forall_insert; [exact Hs |].
    exact (Forall_lookup_1 _ _ _ _ Hs Hq).
  - unfold handleDelete. now destruct (feedback s).
  - unfold startReview. destruct (_ <? _)%nat; [| exact Hs]. cbn.
    apply wrongQuestionsMap_values. intros q Hq _.
    rewrite Forall_forall in Hs. exact (Hs q Hq).
  - unfold nextQuestion. destruct (_ <=? _)%Z; exact Hs.
Qed.

(** X16.  When every session is generated from an oracle with values in
    [0, 1), every question the queue ever holds - generated, pushed as a
    retry, answered, or copied for a review - shows a true equation with an
    answer between 0 and 100.  So its answer has at most three digits, the
    keypad can type it, and [parseInt] reads the typed text back as the
    answer. *)
Theorem X16_every_question_asked_is_well_posed (events : list Event) (q : Question) :
  oracles_in_range events ->
  q ∈ questionQueue (run events initial) ->
  well_posed q /\
  String.length (toString (correctAnswer q)) <= 3 /\
  (exists keys, keys_of_text (toString (correctAnswer q)) = Some keys) /\
  parseInt (toString (correctAnswer q)) = Num (correctAnswer q).
Proof.
  intros Hor Hq.
  assert (Hgen : forall s,
             table (targetNumber (config s)) /\ config_operation (config s) <> ALL ->
             Forall well_posed (questionQueue s) ->
             Forall well_posed (questionQueue (run events s))).
  { clear Hq. induction events as [| e events IH]; intros s Hc Hs; [exact Hs |].
    apply Forall_cons_1 in Hor. destruct Hor as [He Hor].
    cbn [run fold_left]. apply (IH Hor).
    - now apply dispatch_config_valid.
    - apply dispatch_well_posed; [exact He | exact (proj1 Hc) | exact Hs]. }
  assert (Hall : Forall well_posed (questionQueue (run events initial))).
  { apply Hgen; [| constructor]. cbn. split; [exact I | discriminate]. }
  rewrite Forall_forall in Hall. specialize (Hall q Hq).
  split; [exact Hall |].
  destruct Hall as (_ & _ & _ & Hca).
  split.
  - assert (Hc : exists n, (n <= 100)%nat /\ correctAnswer q = Z.of_nat n).
    { exists (Z.to_nat (correctAnswer q)). split; lia. }
    destruct Hc as (n & Hn & ->). clear - Hn.
    do 101 (destruct n as [| n]; [vm_compute; lia |]). lia.
  - split; [apply keys_of_toString; lia | apply parseInt_toString; lia].
Qed.

Lemma X16_every_question_asked_is_well_posed_witness :
  oracles_in_range twice_wrong_retry /\
  second_question ∈ questionQueue (run twice_wrong_retry initial) /\
  well_posed second_question.
Proof.
  assert (Hor : oracles_in_range twice_wrong_retry).
  { unfold oracles_in_range, twice_wrong_retry, expire, turn. cbn [List.app map].
    repeat (constructor; [first [exact I | exact demo_random_unit] |]).
    constructor. }
  assert (Hq : second_question ∈ questionQueue (run twice_wrong_retry initial)).
  { apply (list_elem_of_lookup_2 _ 1). vm_compute. reflexivity. }
  split; [exact Hor |]. split; [exact Hq |].
  exact (proj1 (X16_every_question_asked_is_well_posed twice_wrong_retry second_question
                  Hor Hq)).
Defined.

(** ** The statistics of the results screen *)

Lemma step_session_started s e s' :
  step s e s' -> session_started s -> session_started s'.
Proof.
  intros Hstep Hs. unfold session_started in *.
  pose proof (step_same_session s e s' Hstep) as Hsame.
  destruct Hstep; try exact Hs.
  - left. cbn. rewrite generateQuestionBatch_length. lia.
  - destruct Hs as [Hs | [Hg _]]; [left | congruence].
    destruct (Hsame eq_refl) as [-> _]. exact Hs.
  - destruct Hs as [Hs | [Hg _]]; [left | congruence].
    destruct (Hsame eq_refl) as [-> _]. exact Hs.
  - destruct Hs as [Hs | [Hg _]]; [left | congruence].
    destruct (Hsame eq_refl) as [-> _]. exact Hs.
  - destruct Hs as [Hs | [Hg _]]; [left; exact Hs | congruence].
  - match goal with Herr : hasErrors _ = true |- _ => rename Herr into He end.
    unfold startReview. rewrite review_values, length_map.
    unfold hasErrors in He. rewrite He. left. cbn. rewrite length_map.
    now apply Nat.ltb_lt in He.
  - destruct Hs as [Hs | [Hg _]]; [left; exact Hs | congruence].
  - match goal with Hcb : timers _ !! _ = Some _ |- _ => rename Hcb into Ht end.
    destruct Hs as [Hs | [_ Hnil]]; [left | rewrite Hnil in Ht; discriminate].
    unfold nextQuestion. destruct (_ <=? _)%Z; exact Hs.
Qed.

Lemma clock_sane_later (t t' : Z) s : (t <= t')%Z -> clock_sane t s -> clock_sane t' s.
Proof. unfold clock_sane. intros Hle [H1 H2]. split; [lia | exact H2]. Qed.

Lemma step_clock_sane s e s' (t : Z) :
  step s e s' -> clock_sane t s -> (t <= time_at t e)%Z ->
  clock_sane (time_at t e) s'.
Proof.
  intros Hstep Hs Hle.
  destruct Hstep; try (now apply (clock_sane_later t)).
  - unfold clock_sane, time_at. cbn. split; [lia | discriminate].
  - apply (clock_sane_later t); [exact Hle |].
    destruct (handleInput_outcome (key_text k) now s)
      as [| q Hf Hq Hne Hlt | q Hf Hq Heq]; try exact Hs.
    pose proof (answered_lookup (key_text k) q s Hq) as Hlook.
    destruct (isCorrect (Some (parseInt (userInput s ++ key_text k))) false
                (withUserAnswer (Some (parseInt (userInput s ++ key_text k))) q)) eqn:Hc.
    + rewrite (processAnswer_correct _ _ _ _ _ Hlook Hc). exact Hs.
    + rewrite (processAnswer_incorrect _ _ _ _ _ Hlook Hc). exact Hs.
  - apply (clock_sane_later t); [exact Hle |].
    unfold handleDelete. now destruct (feedback s).
  - apply (clock_sane_later t); [exact Hle |].
    match goal with Hq : questionQueue _ !! _ = Some _ |- _ =>
      rewrite (processAnswer_incorrect _ _ _ _ _ Hq (isCorrect_timeout _ _)) end.
    exact Hs.
  - apply (clock_sane_later t); [exact Hle |].
    unfold clock_sane in *. cbn. split; [exact (proj1 Hs) | discriminate].
  - unfold startReview. destruct (_ <? _)%nat.
    + unfold clock_sane, time_at. cbn. split; [lia | discriminate].
    + now apply (clock_sane_later t).
  - apply (clock_sane_later t); [exact Hle |].
    unfold clock_sane in *. cbn. split; [exact (proj1 Hs) | discriminate].
  - unfold nextQuestion, clock_sane, time_at in *. cbn [event_time] in *.
    destruct Hs as [H1 H2].
    destruct (_ <=? _)%Z; cbn; split; try lia; exact H2.
Qed.

Lemma run_clock_sane events :
  forall (t : Z) s,
    in_time_order t events -> clock_sane t s ->
    exists t', clock_sane t' (run events s).
Proof.
  induction events as [| e events IH]; intros t s Hord Hs; [now exists t |].
  cbn [run fold_left]. cbn [in_time_order] in Hord.
  assert (Hle : (t <= time_at t e)%Z /\ in_time_order (time_at t e) events).
  { unfold time_at. destruct (event_time e); [exact Hord | split; [lia | exact Hord]]. }
  destruct Hle as [Hle Hrest].
  apply (IH (time_at t e)); [exact Hrest |].
  eapply step_clock_sane; [apply dispatch_step | exact Hs | exact Hle].
Qed.

(** X17.  The results screen is only reached in a session of at least one
    question, so its two quotients never divide by zero; the accuracy
    ratio [correctCount / totalQuestions] is at most 1; and when the
    clock does not go back, [endTime] is not before [startTime], so the
    average time shown is a non-negative number. *)
Theorem X17_results_screen_statistics (events : list Event) :
  in_time_order 0 events ->
  let s := run events initial in
  gameState s = RESULTS ->
  1 <= totalQuestions (sessionStats s) /\
  correctCount (sessionStats s) <= totalQuestions (sessionStats s) /\
  (startTime (sessionStats s) <= endTime (sessionStats s))%Z /\
  exists average : Q,
    avgTime (sessionStats s) = Finite average /\ (0 <= average)%Q.
Proof.
  intros Hord s Hg.
  assert (Hstarted : session_started s).
  { apply run_invariant; [apply step_session_started |]. right. now split. }
  assert (Htot : 1 <= totalQuestions (sessionStats s)).
  { destruct Hstarted as [Hs | [Hm _]]; [exact Hs | congruence]. }
  assert (Hc : counted_within s /\ queue_counts s).
  { split; [apply reachable_counted_within | apply reachable_queue_counts];
      now exists events. }
  destruct (run_clock_sane events 0%Z initial Hord) as [t' [_ Hend]].
  { unfold clock_sane. cbn. split; [lia | discriminate]. }
  fold s in Hend. specialize (Hend Hg).
  split; [exact Htot |]. split.
  { destruct Hc as [[Hlen _] Hq]. unfold queue_counts in Hq. lia. }
  split; [exact Hend |].
  unfold avgTime, js_div.
  destruct (Z.eqb_spec (Z.of_nat (totalQuestions (sessionStats s))) 0) as [Hz | _]; [lia |].
  eexists. split; [reflexivity |].
  unfold Qdiv. repeat apply Qmult_le_0_compat.
  - unfold Qle. cbn. lia.
  - apply Qinv_le_0_compat. unfold Qle. cbn. lia.
  - apply Qinv_le_0_compat. unfold Qle. cbn. lia.
Qed.

Lemma X17_results_screen_statistics_witness :
  let s := run twice_wrong_retry initial in
  in_time_order 0 twice_wrong_retry /\
  gameState s = RESULTS /\
  1 <= totalQuestions (sessionStats s) /\
  (startTime (sessionStats s) <= endTime (sessionStats s))%Z.
Proof.
  intros s.
  assert (Hord : in_time_order 0 twice_wrong_retry) by (vm_compute; repeat split; discriminate).
  assert (Hg : gameState s = RESULTS) by (vm_compute; reflexivity).
  split; [exact Hord |]. split; [exact Hg |].
  destruct (X17_results_screen_statistics twice_wrong_retry Hord Hg) as (H1 & _ & H3 & _).
  split; [exact H1 | exact H3].
Defined.

(** ** Within a session the queue only grows *)

Lemma same_question_refl q : same_question q q.
Proof. unfold same_question. repeat split. Qed.

Lemma continues_refl s : continues s s.
Proof.
  split; [lia |]. intros i q Hq. exists q.
  split; [exact Hq |]. split; [apply same_question_refl | reflexivity].
Qed.

Lemma continues_same (s s' : App) :
  currentQIndex s <= currentQIndex s' ->
  (forall i q, questionQueue s !! i = Some q -> questionQueue s' !! i = Some q) ->
  continues s s'.
Proof.
  intros Hidx Hq. split; [exact Hidx |]. intros i q Hi. exists q.
  split; [now apply Hq |]. split; [apply same_question_refl | reflexivity].
Qed.

Lemma continues_trans s1 s2 s3 : continues s1 s2 -> continues s2 s3 -> continues s1 s3.
Proof.
  intros [Hi1 H1] [Hi2 H2]. split; [lia |].
  intros i q Hq.
  destruct (H1 i q Hq) as (q' & Hq' & Hsame & Hkeep).
  destruct (H2 i q' Hq') as (q'' & Hq'' & Hsame' & Hkeep').
  exists q''. split; [exact Hq'' |]. split.
  - unfold same_question in *.
    destruct Hsame as (? & ? & ? & ? & ? & ?), Hsame' as (? & ? & ? & ? & ? & ?).
    repeat split; congruence.
  - intros Hans. specialize (Hkeep Hans). subst q'. now apply Hkeep'.
Qed.

Lemma continues_processAnswer userVal isTimeout now s :
  continues s (processAnswer userVal isTimeout now s).
Proof.
  unfold processAnswer.
  destruct (questionQueue s !! currentQIndex s) as [q |]; [| apply continues_refl].
  destruct (isCorrect userVal isTimeout q).
  - apply continues_same; [cbn; lia | now cbn].
  - apply continues_same; [cbn; lia |]. cbn. intros i q0 Hi.
    rewrite lookup_app_l; [exact Hi | now apply lookup_lt_Some in Hi].
Qed.

Lemma step_continues s e s' :
  step s e s' -> starts_session e = false -> unanswered_ahead s -> continues s s'.
Proof.
  intros Hstep He Hs.
  destruct Hstep; try discriminate He;
    try apply continues_refl; try apply continues_processAnswer.
  - apply continues_same; [cbn; lia | now cbn].
  - destruct (handleInput_outcome (key_text k) now s)
      as [| q Hf Hq Hne Hlt | q Hf Hq Heq]; try apply continues_refl.
    + apply continues_same; [cbn; lia | now cbn].
    + eapply continues_trans; [| apply continues_processAnswer].
      split; [cbn; lia |]. intros i q0 Hi. cbn.
      destruct (Nat.eq_dec i (currentQIndex s)) as [-> | Hne].
      * rewrite Hi in Hq. injection Hq as ->.
        eexists. split; [apply list_lookup_insert_eq; now apply lookup_lt_Some in Hi |].
        split; [repeat split |].
        intros Hans. exfalso. apply Hans.
        apply (Hs (currentQIndex s) q Hi). right. repeat split; assumption.
      * exists q0. rewrite list_lookup_insert_ne by congruence.
        split; [exact Hi |]. split; [apply same_question_refl | reflexivity].
  - unfold handleDelete. destruct (feedback s); [apply continues_refl |].
    apply continues_same; [cbn; lia | now cbn].
  - apply continues_same; [cbn; lia | now cbn].
  - apply continues_same; [cbn; lia | now cbn].
  - unfold nextQuestion. destruct (_ <=? _)%Z;
      (apply continues_same; [cbn; lia | now cbn]).
Qed.

(** X18.  Within a session - from any state the app can reach, through any
    events that do not start a session - the position in the queue never
    goes back, every entry of the queue stays at its place as the same
    question (same identifier, operands, operation, correct answer and
    retry mark), and an answer once recorded in an entry is never replaced
    or removed: the queue only grows at its end. *)
Theorem X18_queue_only_grows_within_a_session (events later : list Event) :
  forallb (fun e => negb (starts_session e)) later = true ->
  let s := run events initial in
  let s' := run later s in
  continues s s' /\ length (questionQueue s) <= length (questionQueue s').
Proof.
  intros Hlater s s'.
  assert (Hs : unanswered_ahead s) by (apply reachable_unanswered_ahead; now exists events).
  assert (Hc : continues s s').
  { subst s'. generalize dependent s. clear events.
    induction later as [| e later IH]; intros s Hs; [apply continues_refl |].
    cbn in Hlater. apply andb_prop in Hlater. destruct Hlater as [He Hlater].
    apply negb_true_iff in He. cbn [run fold_left].
    pose proof (dispatch_step e s) as Hstep.
    eapply continues_trans; [exact (step_continues s e _ Hstep He Hs) |].
    apply (IH Hlater). exact (step_unanswered_ahead s e _ Hstep Hs). }
  split; [exact Hc |].
  destruct (le_lt_dec (length (questionQueue s)) (length (questionQueue s')))
    as [Hle | Hlt]; [exact Hle | exfalso].
  destruct (lookup_lt_is_Some_2 (questionQueue s) (length (questionQueue s'))
              Hlt) as [q Hq].
  destruct (proj2 Hc _ q Hq) as (q' & Hq' & _).
  apply lookup_lt_Some in Hq'. lia.
Qed.

Lemma X18_queue_only_grows_within_a_session_witness :
  let s := run first_answered initial in
  let s' := run (tail twice_wrong_retry) s in
  forallb (fun e => negb (starts_session e)) (tail twice_wrong_retry) = true /\
  continues s s'.
Proof.
  intros s s'.
  assert (Hlater : forallb (fun e => negb (starts_session e)) (tail twice_wrong_retry) = true)
    by reflexivity.
  split; [exact Hlater |].
  exact (proj1 (X18_queue_only_grows_within_a_session first_answered
                  (tail twice_wrong_retry) Hlater)).
Defined.

(** ** The configuration *)

Lemma dispatch_menu_config e s : menu_config (config s) -> menu_config (config (dispatch e s)).
Proof.
  intros (Ho & Ht & Hd).
  destruct (dispatch_config_valid e s (conj Ht Ho)) as [Ht' Ho'].
  split; [exact Ho' |]. split; [exact Ht' |].
  destruct e; cbn [dispatch].
  11: { destruct (timers s !! n); [| exact Hd].
        unfold nextQuestion. destruct (_ <=? _)%Z; exact Hd. }
  all: destruct (gameState s); try exact Hd.
  all: repeat match goal with
         | |- context [match questionQueue ?s !! ?i with _ => _ end] =>
             destruct (questionQueue s !! i)
         | |- context [match feedback ?s with _ => _ end] =>
             destruct (feedback s)
         end; try exact Hd.
  - destruct op; exact Hd.
  - destruct (menu_target num); exact Hd.
  - destruct (Z.eqb_spec sec 5) as [-> | _]; [left; reflexivity |].
    destruct (Z.eqb_spec sec 10) as [-> | _]; [right; reflexivity | exact Hd].
  - now rewrite config_handleInput.
  - unfold handleDelete. destruct (feedback s); exact Hd.
  - now rewrite config_processAnswer.
  - destruct (hasErrors _); [| exact Hd].
    unfold startReview. destruct (_ <? _)%nat; exact Hd.
Qed.

(** X19.  The configuration is always one the menu offers: one of the four
    arithmetic operations (never the mix [ALL], for which the menu has no
    button), a table from 1 to 10 or all of them, and 5 or 10 seconds per
    question.  It changes on the menu only: no event on the play screen or
    on the results screen, and no scheduled callback, touches it. *)
Theorem X19_configuration_is_one_the_menu_offers (events : list Event) :
  let s := run events initial in
  menu_config (config s) /\
  forall e, gameState s <> MENU -> config (dispatch e s) = config s.
Proof.
  intros s. split.
  - subst s. assert (Hgen : forall s0, menu_config (config s0) ->
                                        menu_config (config (run events s0))).
    { induction events as [| e events IH]; intros s0 H0; [exact H0 |].
      cbn [run fold_left]. apply IH. now apply dispatch_menu_config. }
    apply Hgen. cbn. split; [discriminate |]. split; [exact I | right; reflexivity].
  - intros e Hg. destruct e; cbn [dispatch].
    11: { destruct (timers s !! n); [| reflexivity].
          unfold nextQuestion. destruct (_ <=? _)%Z; reflexivity. }
    all: destruct (gameState s); try contradiction; try reflexivity.
    all: repeat match goal with
           | |- context [match questionQueue ?s !! ?i with _ => _ end] =>
               destruct (questionQueue s !! i)
           | |- context [match feedback ?s with _ => _ end] =>
               destruct (feedback s)
           end; try reflexivity.
    + apply config_handleInput.
    + unfold handleDelete. now destruct (feedback s).
    + apply config_processAnswer.
    + destruct (hasErrors _); [| reflexivity].
      unfold startReview. now destruct (_ <? _)%nat.
Qed.
